(** * TrueSkill rating service: a shallow embedding and its properties

    The development follows [trueskill_api_v3.py] (the current service) and,
    for the match sequencer and the handlers of the season variant,
    [Archive & Branches/trueskill_api_year.py].

    Numbers.  Python floats are modelled by exact rationals [Q]: rounding
    and overflow are left out, so a value that floating point reproduces
    within 1e-9 is reproduced exactly here, and the statements that carry a
    tolerance are stated with it.  JSON integers (scores, timestamps, set and
    match numbers) are [Z].

    Strings.  Team keys are [string]s read as ASCII text: [strip] removes the
    ASCII characters for which Python's [str.isspace] holds and [lower] maps
    [A-Z] to [a-z]; bytes above 127 are left alone.

    The rating table.  [TEAM_RATINGS] is a Python dict, insertion ordered; it
    is an association list whose keys are pairwise distinct, updated in place
    or extended at the end.

    External library.  The [trueskill] package, [math.sqrt], [round] and
    [float] on strings are not part of the repository; they are parameters of
    the engine.  [rate] may raise (an empty group, a tie with a zero draw
    margin), which is [None] here.  The package keeps a rating as the
    precision pi = sigma^-2 and tau = pi * mu and reads mu as tau / pi and
    sigma as sqrt(1 / pi): building one from (mu, sigma) raises [ValueError]
    at sigma = 0 and otherwise reads back as (mu, |sigma|). *)

From Stdlib Require Import List String Ascii ZArith QArith Qminmax Qabs Bool.
From Stdlib Require Import Permutation Sorted OrdersEx Lia Lqa.
Import ListNotations.

Local Open Scope string_scope.
Local Open Scope Q_scope.
Local Open Scope list_scope.

(** ** Canonical team keys: [str(team_key).strip().lower()] *)

Definition is_space (c : ascii) : bool :=
  let n := nat_of_ascii c in
  (((9 <=? n) && (n <=? 13)) || ((28 <=? n) && (n <=? 32)))%nat.

Definition lower_char (c : ascii) : ascii :=
  let n := nat_of_ascii c in
  if ((65 <=? n) && (n <=? 90))%nat then ascii_of_nat (n + 32) else c.

Fixpoint lstrip (s : string) : string :=
  match s with
  | EmptyString => EmptyString
  | String c s' => if is_space c then lstrip s' else s
  end.

Fixpoint rstrip (s : string) : string :=
  match s with
  | EmptyString => EmptyString
  | String c s' =>
      match rstrip s' with
      | EmptyString => if is_space c then EmptyString else String c EmptyString
      | r => String c r
      end
  end.

Definition strip (s : string) : string := rstrip (lstrip s).

Fixpoint lower (s : string) : string :=
  match s with
  | EmptyString => EmptyString
  | String c s' => String (lower_char c) (lower s')
  end.

Definition canon (team_key : string) : string := lower (strip team_key).

(** Python truthiness of a string: [not key] holds for the empty string. *)
Definition str_truthy (s : string) : bool :=
  match s with EmptyString => false | _ => true end.

(** ** Beliefs, environment and the rating table *)

Record Rating := mkRating { r_mu : Q; r_sigma : Q }.

Record Env := mkEnv {
  env_mu : Q;
  env_sigma : Q;
  env_beta : Q;
  env_tau : Q;
  env_draw_probability : Q
}.

(** [trueskill.TrueSkill(draw_probability=0.0)]: the package defaults are
    mu = 25, sigma = 25/3, beta = sigma/2, tau = sigma/100. *)
Definition env0 : Env := mkEnv 25 (25 # 3) (25 # 6) (25 # 300) 0.

(** [env.create_rating(mu=m, sigma=s)] with both arguments given builds
    [Rating(m, s)]; the environment's own prior is not consulted.  The
    constructor raises [ValueError] when [s] is zero ([rating_raises]);
    otherwise the rating reads back as mu = m, sigma = |s|. *)
Definition rating_raises (s : Q) : bool := Qeq_bool s 0.

Definition create_rating (e : Env) (m s : Q) : Rating := mkRating m (Qabs s).

Definition store := list (string * Rating).

Fixpoint store_get (k : string) (s : store) : option Rating :=
  match s with
  | [] => None
  | (k', v) :: s' => if String.eqb k k' then Some v else store_get k s'
  end.

(** [TEAM_RATINGS[k] = v]: an existing key keeps its position, a new key is
    appended. *)
Fixpoint store_set (k : string) (v : Rating) (s : store) : store :=
  match s with
  | [] => [(k, v)]
  | (k', v') :: s' =>
      if String.eqb k k' then (k, v) :: s' else (k', v') :: store_set k v s'
  end.

Definition store_mem (k : string) (s : store) : bool :=
  match store_get k s with Some _ => true | None => false end.

Definition keys (s : store) : list string := List.map fst s.

Record State := mkState {
  env : Env;
  TEAM_RATINGS : store;
  LAST_EVENT_KEY : option string;
  LAST_YEAR : option Z
}.

Definition set_ratings (st : State) (s : store) : State :=
  mkState (env st) s (LAST_EVENT_KEY st) (LAST_YEAR st).

(** The state of a freshly started process. *)
Definition init_state : State := mkState env0 [] None None.

(** ** Helpers *)

Definition get_team_rating (st : State) (team_key : string) : State * Rating :=
  let k := canon team_key in
  match store_get k (TEAM_RATINGS st) with
  | Some r => (st, r)
  | None =>
      let r := create_rating (env st) 25 (25 # 3) in
      (set_ratings st (store_set k r (TEAM_RATINGS st)), r)
  end.

(** [[get_team_rating(t) for t in teams]], threading the table. *)
Fixpoint get_team_ratings (st : State) (teams : list string)
  : State * list Rating :=
  match teams with
  | [] => (st, [])
  | t :: ts =>
      let '(st1, r) := get_team_rating st t in
      let '(st2, rs) := get_team_ratings st1 ts in
      (st2, r :: rs)
  end.

Definition team_confidence_from_sigma (sigma : Q) (e : Env) : Q :=
  let sigma0 := env_sigma e in
  if Qle_bool sigma0 0 then 0
  else
    let frac := 1 - (sigma / sigma0) ^ 2 in
    let frac := Qmax 0 (Qmin 1 frac) in
    100 * frac.

(** [for t, new_r in zip(teams, new_ratings): TEAM_RATINGS[t] = new_r];
    the key is the raw [t] of the request. *)
Fixpoint write_back (teams : list string) (new_ratings : list Rating)
  (s : store) : store :=
  match teams, new_ratings with
  | t :: ts, r :: rs => write_back ts rs (store_set t r s)
  | _, _ => s
  end.

(** Outcome classification shared by the rebuild and the incremental push. *)
Definition ranks_of (score1 score2 : Z) : list Z :=
  if (score1 >? score2)%Z then [0; 1]%Z
  else if (score2 >? score1)%Z then [1; 0]%Z
  else [0; 0]%Z.

(** ** Python's stable [sorted] / [list.sort] with a key

    The result of a stable sort is determined by the input and the order on
    keys; it is computed here by insertion from the right, a new element
    going before the first element whose key is not smaller. *)

Section PySorted.
Context {A K : Type}.
Variable leb : K -> K -> bool.
Variable key : A -> K.

Fixpoint insert_sorted (x : A) (l : list A) : list A :=
  match l with
  | [] => [x]
  | y :: l' =>
      if leb (key x) (key y) then x :: y :: l' else y :: insert_sorted x l'
  end.

Definition py_sorted (l : list A) : list A :=
  fold_right insert_sorted [] l.

End PySorted.

(** ** JSON values met in request bodies and snapshot files *)

Inductive json_val :=
| JNull
| JBool (b : bool)
| JNum (q : Q)
| JStr (s : string).

(** [bool(v)] *)
Definition py_bool (v : json_val) : bool :=
  match v with
  | JNull => false
  | JBool b => b
  | JNum q => negb (Qeq_bool q 0)
  | JStr s => str_truthy s
  end.

(** [d.get(k)] is [None] both for an absent key and for [null]. *)
Definition is_none (o : option json_val) : bool :=
  match o with
  | None | Some JNull => true
  | Some _ => false
  end.

(** A result, or an exception that leaves the handler. *)
Inductive outcome (A : Type) :=
| Done (a : A)
| Raised.
Arguments Done {A} a.
Arguments Raised {A}.

Inductive http_reply (A : Type) :=
| R200 (a : A)
| R400
| R404
| R500.
Arguments R200 {A} a.
Arguments R400 {A}.
Arguments R404 {A}.
Arguments R500 {A}.

(** *** Request and provider payloads *)

Record push_record := mkPush {
  p_teams1 : option (list string);
  p_teams2 : option (list string);
  p_score1 : option Z;
  p_score2 : option Z
}.

Definition list_truthy {A : Type} (o : option (list A)) : bool :=
  match o with
  | Some (_ :: _) => true
  | _ => false
  end.

Definition or_nil {A : Type} (o : option (list A)) : list A :=
  match o with Some l => l | None => [] end.

Record tba_alliance := mkAlliance {
  team_keys : list string;
  score : option Z
}.

(** [alliances.get('red', {})]: an absent alliance reads as no teams and no
    score. *)
Definition or_empty_alliance (o : option tba_alliance) : tba_alliance :=
  match o with Some a => a | None => mkAlliance [] None end.

Record tba_match := mkMatch {
  alliances : option (option tba_alliance * option tba_alliance);
  actual_time : option Z;
  time : option Z;
  comp_level : option string;
  set_number : option Z;
  match_number : option Z
}.

(** [x or y] on optional integers: [None] and [0] are falsy. *)
Definition z_or (x : option Z) (y : Z) : Z :=
  match x with
  | Some v => if (v =? 0)%Z then y else v
  | None => y
  end.

(** What [resp.json()] makes of a reply: an exception, a list, or another
    JSON value.  Of the values that are not lists, an empty object and an
    empty string can be iterated (over nothing) and are [EmptyNonList];
    every other one is [NotAList]: iterating a number, a boolean or [null]
    raises, and so does reading [.get] of the keys of an object or of the
    characters of a string. *)
Inductive body (A : Type) :=
| BadJson
| NotAList
| EmptyNonList
| AList (l : list A).
Arguments BadJson {A}.
Arguments NotAList {A}.
Arguments EmptyNonList {A}.
Arguments AList {A} l.

(** What [requests.get] gives: an exception, or a status and, when the body is
    read, what [resp.json()] makes of it. *)
Inductive response (A : Type) :=
| ConnError
| Http (status : Z) (b : body A).
Arguments ConnError {A}.
Arguments Http {A} status b.

Record provider := mkProvider {
  auth_key_set : bool;
  event_matches : string -> response tba_match;
  year_events : Z -> response (option string)
}.

Record update_request := mkUpdate {
  u_event_key : option string;
  u_year : option Z
}.

Definition opt_str_truthy (o : option string) : bool :=
  match o with Some s => str_truthy s | None => false end.

Definition opt_z_truthy (o : option Z) : bool :=
  match o with Some z => negb (z =? 0)%Z | None => false end.

(** *** Snapshot files *)

Record meta_env := mkMetaEnv {
  j_mu : option json_val;
  j_sigma : option json_val;
  j_beta : option json_val;
  j_tau : option json_val;
  j_draw_probability : option json_val
}.

Record team_entry := mkEntry {
  e_team_key : option (option string);   (* absent / null / a string *)
  e_mu : option json_val;
  e_sigma : option json_val;
  e_conservative_mu_3sigma : option Q;
  e_confidence_percent : option Q
}.

Record payload := mkPayload {
  meta_env_of : meta_env;
  ctx_event_key : option string;
  ctx_year : option Z;
  ctx_teams_indexed : option nat;
  teams : list team_entry
}.

(** What reading the snapshot file gives. *)
Inductive file :=
| NoFile
| Corrupt
| File (p : payload).

Record load_body := mkLoadBody {
  use_env_from_json_field : option json_val
}.

(** ** The service *)

Section Engine.

(** [env.rate([ratings1, ratings2], ranks=ranks)] *)
Variable rate :
  Env -> list Rating -> list Rating -> list Z ->
  option (list Rating * list Rating).
(** [env.cdf], [math.sqrt], [round(x, 2)] and [float] on a string *)
Variable cdf : Q -> Q.
Variable sqrt : Q -> Q.
Variable round2 : Q -> Q.
Variable float_of_str : string -> option Q.

(** [float(v)]: [None] stands for the [TypeError] or [ValueError]. *)
Definition py_float (v : json_val) : option Q :=
  match v with
  | JNull => None
  | JBool b => Some (if b then 1 else 0)
  | JNum q => Some q
  | JStr s => float_of_str s
  end.

(** The update step that [update_ratings] and [push_results] both spell out:
    read or create the ratings, call [rate], store the new ratings under the
    keys as given.  [false] reports that [rate] raised. *)
Definition rate_and_store (st : State) (teams1 teams2 : list string)
  (ranks : list Z) : State * bool :=
  let '(st1, ratings1) := get_team_ratings st teams1 in
  let '(st2, ratings2) := get_team_ratings st1 teams2 in
  match rate (env st2) ratings1 ratings2 ranks with
  | None => (st2, false)
  | Some (new_ratings1, new_ratings2) =>
      (set_ratings st2
         (write_back teams2 new_ratings2
            (write_back teams1 new_ratings1 (TEAM_RATINGS st2))),
       true)
  end.

(** *** [push_results] *)

Definition push_skips (m : push_record) : bool :=
  negb (list_truthy (p_teams1 m)) || negb (list_truthy (p_teams2 m))
  || match p_score1 m with None => true | Some _ => false end
  || match p_score2 m with None => true | Some _ => false end.

Fixpoint push_loop (st : State) (data : list push_record) (applied_count : nat)
  : State * outcome nat :=
  match data with
  | [] => (st, Done applied_count)
  | m :: rest =>
      match p_teams1 m, p_teams2 m, p_score1 m, p_score2 m with
      | Some (t1 :: ts1), Some (t2 :: ts2), Some score1, Some score2 =>
          match rate_and_store st (t1 :: ts1) (t2 :: ts2)
                  (ranks_of score1 score2) with
          | (st', true) => push_loop st' rest (S applied_count)
          | (st', false) => (st', Raised)
          end
      | _, _, _, _ => push_loop st rest applied_count
      end
  end.

Definition push_results (st : State) (data : list push_record)
  : State * outcome nat :=
  push_loop st data 0.

(** *** [update_ratings] *)

(** [m.get('actual_time') or m.get('time') or 0] *)
Definition sort_key_v3 (m : tba_match) : Z :=
  z_or (actual_time m) (z_or (time m) 0).

(** The gather loop of the season rebuild: [None] is an exception (caught by
    the handler, which answers 500); a reply other than 200, or a body that is
    not a list, drops that event and goes on. *)
Fixpoint gather (P : provider) (events_list : list (option string))
  (matches : list tba_match) : option (list tba_match) :=
  match events_list with
  | [] => Some matches
  | ev :: rest =>
      if opt_str_truthy ev then
        match event_matches P (match ev with Some k => k | None => "" end) with
        | ConnError => None
        | Http status b =>
            if (status =? 200)%Z then
              match b with
              | BadJson => None
              | NotAList | EmptyNonList => gather P rest matches
              | AList ev_matches => gather P rest (matches ++ ev_matches)
              end
            else gather P rest matches
        end
      else gather P rest matches
  end.

Definition set_context (st : State) (req : update_request) : State :=
  mkState (env st) (TEAM_RATINGS st)
    (if opt_str_truthy (u_event_key req) then u_event_key req else None)
    (if opt_z_truthy (u_year req) then u_year req else None).

Definition score_unplayed (s : option Z) : bool :=
  match s with
  | None => true
  | Some z => (z <? 0)%Z
  end.

Definition replay_skips (m : tba_match) : bool :=
  match alliances m with
  | None | Some (None, None) => true
  | Some (red, blue) =>
      score_unplayed (score (or_empty_alliance red))
      || score_unplayed (score (or_empty_alliance blue))
  end.

Fixpoint replay (req : update_request) (st : State) (matches : list tba_match)
  : State * bool :=
  match matches with
  | [] => (st, true)
  | m :: rest =>
      match alliances m with
      | None | Some (None, None) => replay req st rest
      | Some (red, blue) =>
          let red_alliance := or_empty_alliance red in
          let blue_alliance := or_empty_alliance blue in
          match score red_alliance, score blue_alliance with
          | Some score1, Some score2 =>
              if (score1 <? 0)%Z || (score2 <? 0)%Z then replay req st rest
              else
                match rate_and_store st (team_keys red_alliance)
                        (team_keys blue_alliance) (ranks_of score1 score2) with
                | (st', true) => replay req (set_context st' req) rest
                | (st', false) => (st', false)
                end
          | _, _ => replay req st rest
          end
      end
  end.

(** The apply phase: clear, sort by time, replay. *)
Definition rebuild_from (req : update_request) (st : State)
  (matches : list tba_match) : State * http_reply nat :=
  let st0 := set_ratings st [] in
  match replay req st0 (py_sorted Z.leb sort_key_v3 matches) with
  | (st', true) => (st', R200 (List.length (TEAM_RATINGS st')))
  | (st', false) => (st', R500)
  end.

Definition update_ratings (P : provider) (st : State) (req : update_request)
  : State * http_reply nat :=
  let has_event := opt_str_truthy (u_event_key req) in
  let has_year := opt_z_truthy (u_year req) in
  if (has_event && has_year) || (negb has_event && negb has_year)
  then (st, R400)
  else if negb (auth_key_set P) then (st, R500)
  else if has_event then
    match event_matches P
            (match u_event_key req with Some k => k | None => "" end) with
    | ConnError => (st, R500)
    | Http status b =>
        if negb (status =? 200)%Z then (st, R500)
        else
          match b with
          | BadJson => (st, R500)
          | NotAList =>
              (* the table is cleared, then iterating the body raises *)
              (set_ratings st [], R500)
          | EmptyNonList =>
              (* the table is cleared, [sort] fails silently and the loop
                 has nothing to go through *)
              (set_ratings st [], R200 0%nat)
          | AList matches => rebuild_from req st matches
          end
    end
  else
    match year_events P (match u_year req with Some y => y | None => 0%Z end)
    with
    | ConnError => (st, R500)
    | Http status b =>
        if negb (status =? 200)%Z then (st, R500)
        else
          match b with
          | BadJson | NotAList | EmptyNonList => (st, R500)
          | AList events_list =>
              match gather P events_list [] with
              | None => (st, R500)
              | Some matches => rebuild_from req st matches
              end
          end
    end.

(** *** [predict_team] *)

Record team_view := mkView {
  v_team : string;
  v_mu : Q;
  v_sigma : Q;
  v_conservative_mu_3sigma : Q;
  v_confidence_percent : Q
}.

Definition predict_team (st : State) (team : option string)
  : State * http_reply team_view :=
  if negb (opt_str_truthy team) then (st, R400)
  else
    let k := canon (match team with Some t => t | None => "" end) in
    match store_get k (TEAM_RATINGS st) with
    | None => (st, R404)
    | Some rating =>
        let mu := r_mu rating in
        let sigma := r_sigma rating in
        (st, R200 (mkView k mu sigma (mu - 3 * sigma)
                     (round2 (team_confidence_from_sigma sigma (env st)))))
    end.

(** *** [predict_match] and [predict_batch] *)

Definition sum_q (l : list Q) : Q := fold_right Qplus 0 l.

Record prediction := mkPrediction {
  team1_win_prob : Q;
  team2_win_prob : Q
}.

(** The estimate both handlers compute once the ratings are read. *)
Definition win_probability (e : Env) (ratings1 ratings2 : list Rating) : Q :=
  let mu1 := sum_q (List.map r_mu ratings1) in
  let mu2 := sum_q (List.map r_mu ratings2) in
  let sigma_sq_sum :=
    sum_q (List.map (fun r => r_sigma r ^ 2) (ratings1 ++ ratings2)) in
  let N := (List.length ratings1 + List.length ratings2)%nat in
  let delta_mu := mu1 - mu2 in
  let beta := env_beta e in
  let denom := sqrt (inject_Z (Z.of_nat N) * beta ^ 2 + sigma_sq_sum) in
  if negb (Qeq_bool denom 0) then cdf (delta_mu / denom) else 1 # 2.

Definition predict_pair (st : State) (teams1 teams2 : list string)
  : State * prediction :=
  let '(st1, ratings1) := get_team_ratings st teams1 in
  let '(st2, ratings2) := get_team_ratings st1 teams2 in
  let win_prob := win_probability (env st2) ratings1 ratings2 in
  (st2, mkPrediction win_prob (1 - win_prob)).

Definition predict_match (st : State) (teams1 teams2 : option (list string))
  : State * http_reply (prediction * Q) :=
  if negb (list_truthy teams1) || negb (list_truthy teams2) then (st, R400)
  else
    let '(st', p) := predict_pair st (or_nil teams1) (or_nil teams2) in
    let prediction_conf := Qabs (2 * team1_win_prob p - 1) * 100 in
    (st', R200 (p, round2 prediction_conf)).

Fixpoint predict_batch (st : State)
  (data : list (option (list string) * option (list string)))
  : State * list (option prediction) :=
  match data with
  | [] => (st, [])
  | (teams1, teams2) :: rest =>
      if negb (list_truthy teams1) || negb (list_truthy teams2) then
        let '(st', results) := predict_batch st rest in
        (st', None :: results)
      else
        let '(st1, p) := predict_pair st (or_nil teams1) (or_nil teams2) in
        let '(st', results) := predict_batch st1 rest in
        (st', Some p :: results)
  end.

(** *** The snapshot codec *)

Definition _serialize_team_entry (e : Env) (team_key : string)
  (rating : Rating) : team_entry :=
  let mu := r_mu rating in
  let sigma := r_sigma rating in
  mkEntry (Some (Some team_key)) (Some (JNum mu)) (Some (JNum sigma))
    (Some (mu - 3 * sigma))
    (Some (round2 (team_confidence_from_sigma sigma e))).

Definition _build_export_payload (st : State) : payload :=
  let e := env st in
  mkPayload
    (mkMetaEnv (Some (JNum (env_mu e))) (Some (JNum (env_sigma e)))
       (Some (JNum (env_beta e))) (Some (JNum (env_tau e)))
       (Some (JNum (env_draw_probability e))))
    (LAST_EVENT_KEY st) (LAST_YEAR st)
    (Some (List.length (TEAM_RATINGS st)))
    (List.map (fun kv => _serialize_team_entry e (fst kv) (snd kv))
       (py_sorted String.leb fst (TEAM_RATINGS st))).

(** [float(meta_env.get(name, current))] *)
Definition env_field (o : option json_val) (current : Q) : option Q :=
  match o with
  | None => Some current
  | Some v => py_float v
  end.

(** The [try] block that rebuilds the environment; any exception keeps the
    current one. *)
Definition env_from_json (e : Env) (m : meta_env) : Env :=
  match env_field (j_mu m) (env_mu e),
        env_field (j_sigma m) (env_sigma e),
        env_field (j_beta m) (env_beta e),
        env_field (j_tau m) (env_tau e),
        env_field (j_draw_probability m) (env_draw_probability e) with
  | Some mu, Some sigma, Some beta, Some tau, Some draw_probability =>
      mkEnv mu sigma beta tau draw_probability
  | _, _, _, _, _ => e
  end.

(** The loop over the snapshot's team entries; [false] when [float] or
    [create_rating] raises. *)
Fixpoint load_entries (e : Env) (s : store) (entries : list team_entry)
  : store * bool :=
  match entries with
  | [] => (s, true)
  | entry :: rest =>
      match e_team_key entry with
      | Some None => load_entries e s rest
      | key_raw =>
          let key :=
            canon (match key_raw with Some (Some k) => k | _ => "" end) in
          if negb (str_truthy key) || is_none (e_mu entry)
             || is_none (e_sigma entry)
          then load_entries e s rest
          else
            match e_mu entry, e_sigma entry with
            | Some mu, Some sigma =>
                match py_float mu, py_float sigma with
                | Some m, Some sg =>
                    if rating_raises sg then (s, false)
                    else
                      load_entries e (store_set key (create_rating e m sg) s)
                        rest
                | _, _ => (s, false)
                end
            | _, _ => load_entries e s rest
            end
      end
  end.

Definition _apply_json_to_memory (st : State) (p : payload)
  (use_env_from_json : bool) : State * outcome nat :=
  let e := if use_env_from_json then env_from_json (env st) (meta_env_of p)
           else env st in
  match load_entries e [] (teams p) with
  | (s, false) => (mkState e s (LAST_EVENT_KEY st) (LAST_YEAR st), Raised)
  | (s, true) =>
      (mkState e s (ctx_event_key p) (ctx_year p), Done (List.length s))
  end.

(** [_save_trueskill_json] writes the export payload; the file read back is
    that payload. *)
Definition _save_trueskill_json (st : State) : payload :=
  _build_export_payload st.

Definition load_data_from_json (st : State) (body : load_body) (f : file)
  : State * http_reply (bool * nat) :=
  let use_env_from_json :=
    match use_env_from_json_field body with
    | None => true
    | Some v => py_bool v
    end in
  match f with
  | NoFile => (st, R404)
  | Corrupt => (st, R500)
  | File p =>
      match _apply_json_to_memory st p use_env_from_json with
      | (st', Done loaded) => (st', R200 (use_env_from_json, loaded))
      | (st', Raised) => (st', R500)
      end
  end.

(** [recalculate_values]: with [source = "json"] the file is applied first,
    without passing the flag; then the table is saved again.  The second
    component is the file as it is afterwards. *)
Definition recalculate_values (st : State) (source_json : bool) (f : file)
  : State * file * http_reply nat :=
  if source_json then
    match f with
    | NoFile => (st, f, R404)
    | Corrupt => (st, f, R500)
    | File p =>
        match _apply_json_to_memory st p false with
        | (st', Done _) =>
            (st', File (_save_trueskill_json st'), R200 (List.length (teams p)))
        | (st', Raised) => (st', f, R500)
        end
    end
  else
    (st, File (_save_trueskill_json st), R200 (List.length (TEAM_RATINGS st))).

End Engine.

(** ** The season variant ([trueskill_api_year.py]): the match sequencer *)

Module YearVariant.

Definition is_valid_score (x : option Z) : bool :=
  match x with
  | Some z => (0 <=? z)%Z
  | None => false
  end.

Definition comp_level_order (comp_level : option string) : Z :=
  let cl := lower (match comp_level with Some s => s | None => "" end) in
  if String.eqb cl "pr" then 0%Z
  else if String.eqb cl "qm" then 1%Z
  else if String.eqb cl "ef" then 2%Z
  else if String.eqb cl "qf" then 3%Z
  else if String.eqb cl "sf" then 4%Z
  else if String.eqb cl "f" then 5%Z
  else 9%Z.

Definition sort_key := (Z * Z * Z * Z)%type.

(** The [key] closure of [sort_matches_for_processing]. *)
Definition key (m : tba_match) : sort_key :=
  let ts := z_or (actual_time m) (z_or (time m) 0) in
  let cl := comp_level_order (comp_level m) in
  (ts, cl, z_or (set_number m) 0, z_or (match_number m) 0).

(** Python's order on tuples of integers, as [<=]. *)
Definition key_leb (a b : sort_key) : bool :=
  let '(a1, a2, a3, a4) := a in
  let '(b1, b2, b3, b4) := b in
  if (a1 <? b1)%Z then true else if (b1 <? a1)%Z then false
  else if (a2 <? b2)%Z then true else if (b2 <? a2)%Z then false
  else if (a3 <? b3)%Z then true else if (b3 <? a3)%Z then false
  else (a4 <=? b4)%Z.

Definition key_eqb (a b : sort_key) : bool :=
  let '(a1, a2, a3, a4) := a in
  let '(b1, b2, b3, b4) := b in
  ((a1 =? b1) && (a2 =? b2) && (a3 =? b3) && (a4 =? b4))%Z.

Definition sort_matches_for_processing (matches : list tba_match)
  : list tba_match :=
  py_sorted key_leb key matches.

(** [TEAM_RATINGS.setdefault(t, trueskill.Rating())] on the raw key; the
    package's default rating is (25, 25/3). *)
Definition setdefault (s : store) (t : string) : store * Rating :=
  match store_get t s with
  | Some r => (s, r)
  | None => let r := mkRating 25 (25 # 3) in (store_set t r s, r)
  end.

Fixpoint setdefaults (s : store) (teams : list string) : store * list Rating :=
  match teams with
  | [] => (s, [])
  | t :: ts =>
      let '(s1, r) := setdefault s t in
      let '(s2, rs) := setdefaults s1 ts in
      (s2, r :: rs)
  end.

Definition red_of (m : tba_match) : tba_alliance :=
  match alliances m with
  | Some (red, _) => or_empty_alliance red
  | None => mkAlliance [] None
  end.

Definition blue_of (m : tba_match) : tba_alliance :=
  match alliances m with
  | Some (_, blue) => or_empty_alliance blue
  | None => mkAlliance [] None
  end.

(** A record the update step does not skip. *)
Definition played (m : tba_match) : bool :=
  is_valid_score (score (red_of m)) && is_valid_score (score (blue_of m)).

Section Sequenced.

(** [trueskill.rate([red, blu], ranks=ranks)] in the global environment *)
Variable rate :
  list Rating -> list Rating -> list Z -> option (list Rating * list Rating).

Definition update_from_one_match (s : store)
  (teams_red teams_blue : list string) (score_red score_blue : option Z)
  : store * bool :=
  match score_red, score_blue with
  | Some sr, Some sb =>
      if negb (is_valid_score score_red && is_valid_score score_blue)
      then (s, true)
      else
        let '(s1, red) := setdefaults s teams_red in
        let '(s2, blu) := setdefaults s1 teams_blue in
        match rate red blu (ranks_of sr sb) with
        | None => (s2, false)
        | Some (new_red, new_blu) =>
            (write_back teams_blue new_blu (write_back teams_red new_red s2),
             true)
        end
  | _, _ => (s, true)
  end.

(** [for m in ms: update_from_one_match(...)]; [false] when [rate] raised. *)
Fixpoint process (s : store) (ms : list tba_match) : store * bool :=
  match ms with
  | [] => (s, true)
  | m :: rest =>
      match update_from_one_match s (team_keys (red_of m))
              (team_keys (blue_of m)) (score (red_of m)) (score (blue_of m))
      with
      | (s', true) => process s' rest
      | (s', false) => (s', false)
      end
  end.

(** The replay of one event's matches in [update_rankings]. *)
Definition process_in_order (s : store) (matches : list tba_match)
  : store * bool :=
  process s (sort_matches_for_processing matches).

End Sequenced.

End YearVariant.

(** ** Notions used to state the properties *)

(** The belief [get_team_rating] creates. *)
Definition prior : Rating := mkRating 25 (25 # 3).

(** No two entries of the table stand for the same canonical team key. *)
Definition canonical_unique (s : store) : Prop :=
  forall k1 k2,
    In k1 (keys s) -> In k2 (keys s) -> canon k1 = canon k2 -> k1 = k2.

(** Every key of the table is already in canonical form. *)
Definition all_canonical (s : store) : Prop :=
  forall k, In k (keys s) -> canon k = k.

(** The two tables answer every lookup alike (dict equality). *)
Definition same_table (s1 s2 : store) : Prop :=
  forall k, store_get k s1 = store_get k s2.

(** Every key of the table stands for a team key of [refs]. *)
Definition keys_from (refs : list string) (s : store) : Prop :=
  forall k, In k (keys s) -> exists t, In t refs /\ canon k = canon t.

(** [clamp(x, lo, hi)] as the confidence formula of the design reads it. *)
Definition clamp (x lo hi : Q) : Q :=
  if Qle_bool x lo then lo else if Qle_bool hi x then hi else x.

(** The confidence formula of the design, to compare with
    [team_confidence_from_sigma]. *)
Definition confidence_formula (sigma sigma0 : Q) : Q :=
  100 * clamp (1 - (sigma / sigma0) ^ 2) 0 1.

(** Team keys a request names. *)
Definition push_refs (data : list push_record) : list string :=
  flat_map (fun m => or_nil (p_teams1 m) ++ or_nil (p_teams2 m)) data.

Definition match_refs (matches : list tba_match) : list string :=
  flat_map (fun m =>
    match alliances m with
    | Some (red, blue) =>
        team_keys (or_empty_alliance red) ++ team_keys (or_empty_alliance blue)
    | None => []
    end) matches.

Definition batch_refs
  (data : list (option (list string) * option (list string))) : list string :=
  flat_map (fun d => or_nil (fst d) ++ or_nil (snd d)) data.

(** Team keys a snapshot file lists. *)
Definition entry_refs (entries : list team_entry) : list string :=
  flat_map (fun entry =>
    match e_team_key entry with
    | Some (Some k) => [k]
    | _ => []
    end) entries.

Definition file_refs (f : file) : list string :=
  match f with
  | File p => entry_refs (teams p)
  | _ => []
  end.

(** Updates, predictions, lookups and snapshot imports, as a caller issues
    them. *)
Inductive op :=
| OpPush (data : list push_record)
| OpRebuild (req : update_request) (matches : list tba_match)
| OpPredictMatch (teams1 teams2 : option (list string))
| OpPredictBatch (data : list (option (list string) * option (list string)))
| OpLookup (team : option string)
| OpLoad (body : load_body) (f : file)
| OpRecalculate (source_json : bool) (f : file).

Definition op_refs (o : op) : list string :=
  match o with
  | OpPush data => push_refs data
  | OpRebuild _ matches => match_refs matches
  | OpPredictMatch teams1 teams2 => or_nil teams1 ++ or_nil teams2
  | OpPredictBatch data => batch_refs data
  | OpLookup _ => []
  | OpLoad _ f => file_refs f
  | OpRecalculate source_json f => if source_json then file_refs f else []
  end.

Section Traces.

Variable rate :
  Env -> list Rating -> list Rating -> list Z ->
  option (list Rating * list Rating).
Variable cdf : Q -> Q.
Variable sqrt : Q -> Q.
Variable round2 : Q -> Q.
Variable float_of_str : string -> option Q.

Definition run_op (st : State) (o : op) : State :=
  match o with
  | OpPush data => fst (push_results rate st data)
  | OpRebuild req matches => fst (rebuild_from rate req st matches)
  | OpPredictMatch teams1 teams2 =>
      fst (predict_match cdf sqrt round2 st teams1 teams2)
  | OpPredictBatch data => fst (predict_batch cdf sqrt st data)
  | OpLookup team => fst (predict_team round2 st team)
  | OpLoad body f => fst (load_data_from_json float_of_str st body f)
  | OpRecalculate source_json f =>
      fst (fst (recalculate_values round2 float_of_str st source_json f))
  end.

Definition run (st : State) (ops : list op) : State :=
  fold_left run_op ops st.

End Traces.

(** *** A stand-in for the external library, to run the service on concrete
    requests: the side ranked first gains one point of mean per rank of
    difference, the other side loses it; an empty side raises, as the
    package does. *)

Definition shift (d : Q) (r : Rating) : Rating :=
  mkRating (r_mu r + d) (r_sigma r).

Definition demo_rate (e : Env) (ratings1 ratings2 : list Rating)
  (ranks : list Z) : option (list Rating * list Rating) :=
  match ratings1, ratings2, ranks with
  | _ :: _, _ :: _, [a; b] =>
      let d := inject_Z (b - a) in
      Some (List.map (shift d) ratings1, List.map (shift (- d)) ratings2)
  | _, _, _ => None
  end.

Definition demo_cdf (x : Q) : Q := (1 # 2) + x / 100.
Definition demo_sqrt (x : Q) : Q := x.
Definition demo_round2 (x : Q) : Q := x.
Definition demo_float (s : string) : option Q := None.

(** *** Concrete requests *)

(** A result pushed with the provider's "unplayed" score. *)
Definition unplayed_push : push_record :=
  mkPush (Some ["frc1"]) (Some ["frc2"]) (Some (-1)%Z) (Some 5%Z).

(** A result pushed with a team key that is not in canonical form. *)
Definition mixed_case_push : push_record :=
  mkPush (Some ["FRC1"]) (Some ["frc2"]) (Some 1%Z) (Some 0%Z).

(** What [push_results] answers once [rate_and_store] is through. *)
Definition push_one_result (r : State * bool) : State * outcome nat :=
  (fst r, if snd r then Done 1%nat else Raised).

(** What [replay] gives for a single played match once [rate_and_store] is
    through. *)
Definition replay_one_result (req : update_request) (r : State * bool)
  : State * bool :=
  (if snd r then set_context (fst r) req else fst r, snd r).

(** A match as the provider reports it, with both alliances and scores. *)
Definition scored_match (teams1 teams2 : list string) (score1 score2 : Z)
  (m : tba_match) : tba_match :=
  mkMatch (Some (Some (mkAlliance teams1 (Some score1)),
                 Some (mkAlliance teams2 (Some score2))))
    (actual_time m) (time m) (comp_level m) (set_number m) (match_number m).

(** The keys of [s'] are keys of [s] or stand for a team key of [refs]. *)
Definition grows_by (refs : list string) (s s' : store) : Prop :=
  forall k,
    In k (keys s') ->
    (exists t, In t refs /\ canon k = canon t) \/ In k (keys s).

(** A snapshot file that carries its own environment and no team. *)
Definition hot_snapshot : payload :=
  mkPayload
    (mkMetaEnv (Some (JNum 30)) (Some (JNum 10)) (Some (JNum 5))
       (Some (JNum (1 # 10))) (Some (JNum 0)))
    None None (Some 0%nat) [].

(** *** Provider failures *)






(** A season of two events; the provider refuses the second one. *)
Definition flaky_provider : provider :=
  mkProvider true
    (fun k =>
       if String.eqb k "2025a" then
         Http 200 (AList [mkMatch
                            (Some (Some (mkAlliance ["frc1"] (Some 10%Z)),
                                   Some (mkAlliance ["frc2"] (Some 5%Z))))
                            (Some 100%Z) None (Some "qm") (Some 1%Z)
                            (Some 1%Z)])
       else Http 500 NotAList)
    (fun y => Http 200 (AList [Some "2025a"; Some "2025b"])).

Definition season_request : update_request := mkUpdate None (Some 2025%Z).

(** A table built earlier. *)
Definition earlier_state : State :=
  mkState env0 [("frc7", mkRating 31 4)] (Some "2024nyrr") None.

(** A provider that lists one event and cannot be reached for its matches. *)
Definition down_provider : provider :=
  mkProvider true (fun _ => ConnError)
    (fun _ => Http 200 (AList [Some "2025a"])).

(** *** The composite order of the sequencer, as the design words it:
    timestamp, then phase rank, then set number, then match number, each
    ascending. *)
Definition composite_le (a b : YearVariant.sort_key) : Prop :=
  let '(ts_a, phase_a, set_a, match_a) := a in
  let '(ts_b, phase_b, set_b, match_b) := b in
  (ts_a < ts_b
   \/ (ts_a = ts_b
       /\ (phase_a < phase_b
           \/ (phase_a = phase_b
               /\ (set_a < set_b
                   \/ (set_a = set_b /\ match_a <= match_b))))))%Z.

(** The records of a list that the update step applies, in the order the
    sequencer gives them. *)
Definition applied_sequence (matches : list tba_match) : list tba_match :=
  filter YearVariant.played (YearVariant.sort_matches_for_processing matches).

(** The phases with a rank. *)
Definition ranked_phase (cl : string) : bool :=
  existsb (String.eqb (lower cl)) ["pr"; "qm"; "ef"; "qf"; "sf"; "f"].

(** *** States for the snapshot round trip *)

(** The state after one prediction that names a blank team key. *)
Definition blank_key_state : State :=
  fst (predict_match demo_cdf demo_sqrt demo_round2 init_state
         (Some [" "]) (Some ["frc1"])).

(** The state after one pushed result with a key not in canonical form. *)
Definition mixed_case_state : State :=
  fst (push_results demo_rate init_state [mixed_case_push]).

(** Export, then import with the given flag into the state [st0]. *)
Definition round_trip (round2 : Q -> Q) (float_of_str : string -> option Q)
  (st st0 : State) (flag : bool) : State * outcome nat :=
  _apply_json_to_memory float_of_str st0 (_build_export_payload round2 st) flag.

(** The keys of the team entries of a snapshot, in file order. *)
Definition entry_keys (p : payload) : list (option (option string)) :=
  List.map e_team_key (teams p).

(** A team entry the import skips: no key, a null or blank key, or no mu or
    sigma. *)
Definition malformed_entry (entry : team_entry) : bool :=
  match e_team_key entry with
  | None | Some None => true
  | Some (Some k) => negb (str_truthy (canon k))
  end
  || is_none (e_mu entry) || is_none (e_sigma entry).

(** The state after one pushed result with canonical keys. *)
Definition played_state : State :=
  fst (push_results demo_rate init_state
         [mkPush (Some ["frc2"]) (Some ["frc1"]) (Some 3%Z) (Some 1%Z)]).

(** The environment a snapshot describes when read against the start-up
    environment. *)
Definition snapshot_env (p : payload) : Env :=
  env_from_json demo_float env0 (meta_env_of p).

(** Two matches at the same time, the final listed before the
    qualification match. *)
Definition final_then_qual : list tba_match :=
  [mkMatch None (Some 100%Z) None (Some "f") (Some 1%Z) (Some 1%Z);
   mkMatch None (Some 100%Z) None (Some "qm") (Some 1%Z) (Some 7%Z)].

(** *** Relations between tables *)

(** [s'] is [s] with priors entered for some keys that [s] lacks. *)
Definition extends_by_priors (s s' : store) : Prop :=
  forall k,
    store_get k s' = store_get k s
    \/ (store_get k s = None /\ store_get k s' = Some prior).

(** The two tables answer alike at every canonical key. *)
Definition agree_on_canonical (s1 s2 : store) : Prop :=
  forall q, canon q = q -> store_get q s1 = store_get q s2.

(** What [predict_batch] answers for one item, computed on its own. *)
Definition predict_item (cdf sqrt : Q -> Q) (st : State)
  (d : option (list string) * option (list string)) : option prediction :=
  if negb (list_truthy (fst d)) || negb (list_truthy (snd d)) then None
  else Some (snd (predict_pair cdf sqrt st (or_nil (fst d)) (or_nil (snd d)))).

(** What a second batch adds to the answer of a first one. *)
Definition then_push (first : State * outcome nat)
  (second : State -> State * outcome nat) : State * outcome nat :=
  match first with
  | (st1, Done n1) =>
      match second st1 with
      | (st2, Done n2) => (st2, Done (n1 + n2)%nat)
      | (st2, Raised) => (st2, Raised)
      end
  | (st1, Raised) => (st1, Raised)
  end.

(** Every team key a batch or a match list names is in canonical form. *)
Definition canonical_keys (refs : list string) : Prop :=
  forall t, In t refs -> canon t = t.

(** A batch of three records: one applied, one without a score, one
    applied. *)
Definition three_pushes : list push_record :=
  [mkPush (Some ["frc1"]) (Some ["frc2"]) (Some 3%Z) (Some 1%Z);
   mkPush (Some ["frc1"]) (Some ["frc3"]) None (Some 1%Z);
   mkPush (Some ["frc3"]) (Some ["frc2"]) (Some 2%Z) (Some 2%Z)].

(** The session context a rebuild records for its request. *)
Definition context_of (req : update_request) : option string * option Z :=
  (if opt_str_truthy (u_event_key req) then u_event_key req else None,
   if opt_z_truthy (u_year req) then u_year req else None).

(** The session context of a state. *)
Definition context (st : State) : option string * option Z :=
  (LAST_EVENT_KEY st, LAST_YEAR st).

(** The matches of a list that the replay applies. *)
Definition replayed (matches : list tba_match) : list tba_match :=
  filter (fun m => negb (replay_skips m)) matches.

(** Two matches, the second unplayed. *)
Definition one_played_one_not : list tba_match :=
  [mkMatch (Some (Some (mkAlliance ["frc1"] (Some 10%Z)),
                  Some (mkAlliance ["frc2"] (Some 5%Z))))
     (Some 200%Z) None (Some "qm") (Some 1%Z) (Some 2%Z);
   mkMatch (Some (Some (mkAlliance ["frc3"] (Some (-1)%Z)),
                  Some (mkAlliance ["frc4"] (Some (-1)%Z))))
     (Some 100%Z) None (Some "qm") (Some 1%Z) (Some 1%Z)].

(** *** [get_leaderboard] *)

Section Leaderboard.

Variable round2 : Q -> Q.

(** [entry.get("conservative_mu_3sigma", 0)] *)
Definition leaderboard_key (entry : team_entry) : Q :=
  match e_conservative_mu_3sigma entry with
  | Some q => q
  | None => 0
  end.

(** [sort(key=..., reverse=True)] is the stable sort for the reversed
    order. *)
Definition get_leaderboard (st : State) : list team_entry * nat :=
  match TEAM_RATINGS st with
  | [] => ([], 0%nat)
  | _ =>
      let teams_data :=
        List.map (fun kv => _serialize_team_entry round2 (env st)
                              (fst kv) (snd kv))
          (TEAM_RATINGS st) in
      let teams_data :=
        py_sorted (fun a b => Qle_bool b a) leaderboard_key teams_data in
      (teams_data, List.length teams_data)
  end.

End Leaderboard.

(** A table fit for a snapshot: canonical keys, pairwise distinct, none
    blank. *)
Definition snapshot_table (s : store) : Prop :=
  all_canonical s /\ NoDup (keys s) /\ ~ In "" (keys s).

(** A team entry with a key, a mu and a sigma, one of which [float]
    rejects. *)
Definition unreadable_entry (float_of_str : string -> option Q)
  (entry : team_entry) : bool :=
  negb (malformed_entry entry)
  && match e_mu entry, e_sigma entry with
     | Some mu, Some sigma =>
         match py_float float_of_str mu, py_float float_of_str sigma with
         | Some _, Some _ => false
         | _, _ => true
         end
     | _, _ => false
     end.

(** A snapshot whose second team entry has a mu that is not a number. *)
Definition broken_snapshot : payload :=
  mkPayload (mkMetaEnv None None None None None) (Some "2025nyrr") None
    (Some 3%nat)
    [mkEntry (Some (Some "frc1")) (Some (JNum 27)) (Some (JNum 7)) None None;
     mkEntry (Some (Some "frc2")) (Some (JStr "n/a")) (Some (JNum 7)) None None;
     mkEntry (Some (Some "frc3")) (Some (JNum 20)) (Some (JNum 8)) None None].

(** A snapshot that lists one team twice, under two spellings. *)
Definition doubled_snapshot : payload :=
  mkPayload (mkMetaEnv None None None None None) None None (Some 2%nat)
    [mkEntry (Some (Some "frc1")) (Some (JNum 27)) (Some (JNum 7)) None None;
     mkEntry (Some (Some " FRC1")) (Some (JNum 30)) (Some (JNum 5)) None None].

(** ** The season variant ([trueskill_api_year.py]): the handlers

    The table of this variant is keyed by the team keys as given; only
    [predict_team] trims and lowercases what it looks up. *)

Module YearApi.

Definition init_rating_if_missing (s : store) (team_key : string) : store :=
  match store_get team_key s with
  | Some _ => s
  | None => store_set team_key (mkRating 25 (25 # 3)) s
  end.

Definition teams_of (m : tba_match) : list string :=
  team_keys (YearVariant.red_of m) ++ team_keys (YearVariant.blue_of m).

(** "Ensure all observed teams are initialized" *)
Definition init_ratings (s : store) (matches : list tba_match) : store :=
  fold_left (fun acc m => fold_left init_rating_if_missing (teams_of m) acc)
    matches s.

(** [tba_get_json] followed by the list check: [None] is the
    [RuntimeError] raised when the key is not set, the request fails, the
    status is not 200, or the body is not a JSON list. *)
Definition fetch_list {A : Type} (P : provider) (r : response A)
  : option (list A) :=
  if auth_key_set P then
    match r with
    | Http status (AList l) => if (status =? 200)%Z then Some l else None
    | _ => None
    end
  else None.

Definition tba_get_event_matches_simple (P : provider) (event_key : string)
  : option (list tba_match) :=
  fetch_list P (event_matches P event_key).

Definition tba_get_events_for_year (P : provider) (year : Z)
  : option (list (option string)) :=
  fetch_list P (year_events P year).

(** What [validate_event_key_or_year] returns. *)
Inductive mode :=
| EventMode (event_key : string)
| YearMode (year : Z).

Section Handlers.

Variable rate :
  list Rating -> list Rating -> list Z -> option (list Rating * list Rating).

(** The match at which [process] stops because [rate] raised. *)
Fixpoint raising_match (s : store) (ms : list tba_match) : option tba_match :=
  match ms with
  | [] => None
  | m :: rest =>
      match YearVariant.update_from_one_match rate s
              (team_keys (YearVariant.red_of m))
              (team_keys (YearVariant.blue_of m))
              (score (YearVariant.red_of m)) (score (YearVariant.blue_of m))
      with
      | (s', true) => raising_match s' rest
      | (_, false) => Some m
      end
  end.

(** What the handler answers when [rate] raised.  For a side without teams
    the package raises [ValueError], which [except ValueError] answers with
    400; any other exception is answered with 500. *)
Definition raised_reply {A : Type} (s : store) (ms : list tba_match)
  : http_reply A :=
  match raising_match s ms with
  | Some m =>
      match team_keys (YearVariant.red_of m),
            team_keys (YearVariant.blue_of m) with
      | _ :: _, _ :: _ => R500
      | _, _ => R400
      end
  | None => R500
  end.

(** The loop over the events of a season: the counts when it goes through,
    the answer of [raised_reply] when [rate] raised. *)
Fixpoint year_loop (P : provider) (s : store) (events : list (option string))
  (events_processed matches_seen : nat) : store * http_reply (nat * nat) :=
  match events with
  | [] => (s, R200 (events_processed, matches_seen))
  | ev :: rest =>
      if opt_str_truthy ev then
        match tba_get_event_matches_simple P
                (match ev with Some k => k | None => "" end) with
        | None | Some [] => year_loop P s rest events_processed matches_seen
        | Some matches =>
            match YearVariant.process_in_order rate (init_ratings s matches)
                    matches with
            | (s', true) =>
                year_loop P s' rest (S events_processed)
                  (matches_seen
                   + List.length
                       (YearVariant.sort_matches_for_processing matches))
            | (s', false) =>
                (s', raised_reply (init_ratings s matches)
                       (YearVariant.sort_matches_for_processing matches))
            end
        end
      else year_loop P s rest events_processed matches_seen
  end.

(** [payload] is [None] when the request body fails validation.  The table
    is cleared before anything is fetched. *)
Definition update_rankings (P : provider) (s : store) (payload : option mode)
  : store * http_reply (nat * option (nat * nat)) :=
  match payload with
  | None => (s, R400)
  | Some (EventMode event_key) =>
      match tba_get_event_matches_simple P event_key with
      | None => ([], R500)
      | Some [] => ([], R404)
      | Some matches =>
          match YearVariant.process_in_order rate (init_ratings [] matches)
                  matches with
          | (s', true) => (s', R200 (List.length s', None))
          | (s', false) =>
              (s', raised_reply (init_ratings [] matches)
                     (YearVariant.sort_matches_for_processing matches))
          end
      end
  | Some (YearMode year) =>
      match tba_get_events_for_year P year with
      | None => ([], R500)
      | Some [] => ([], R404)
      | Some events =>
          match year_loop P [] events 0 0 with
          | (s', R200 (O, _)) => (s', R404)
          | (s', R200 (events_processed, matches_seen)) =>
              (s', R200 (List.length s',
                         Some (events_processed, matches_seen)))
          | (s', R400) => (s', R400)
          | (s', _) => (s', R500)
          end
      end
  end.

Fixpoint push_loop (s : store) (payload : list push_record) (applied : nat)
  : store * option nat :=
  match payload with
  | [] => (s, Some applied)
  | item :: rest =>
      match or_nil (p_teams1 item), or_nil (p_teams2 item) with
      | t1 :: ts1, t2 :: ts2 =>
          match YearVariant.update_from_one_match rate s (t1 :: ts1)
                  (t2 :: ts2) (p_score1 item) (p_score2 item) with
          | (s', true) => push_loop s' rest (S applied)
          | (s', false) => (s', None)
          end
      | _, _ => push_loop s rest applied
      end
  end.

(** [None] is the 500 answered when [rate] raised. *)
Definition push_results (s : store) (payload : list push_record)
  : store * option nat :=
  push_loop s payload 0.

End Handlers.

(** [request.args.get("team", "").strip().lower()] and a plain [get]. *)
Definition predict_team (s : store) (team : option string)
  : http_reply (string * Q * Q) :=
  let team := canon (match team with Some t => t | None => "" end) in
  if negb (str_truthy team) then R400
  else
    match store_get team s with
    | None => R404
    | Some rating => R200 (team, r_mu rating, r_sigma rating)
    end.

End YearApi.

(** A record of the season variant's push with both alliances named. *)
Definition names_both_alliances (item : push_record) : bool :=
  list_truthy (p_teams1 item) && list_truthy (p_teams2 item).

(** A pushed record with both alliances and an unplayed score. *)
Definition unplayed_item : push_record :=
  mkPush (Some ["frc1"]) (Some ["frc2"]) (Some (-1)%Z) (Some (-1)%Z).

(** A provider whose event has one played and one unplayed match. *)
Definition event_provider : provider :=
  mkProvider true (fun _ => Http 200 (AList one_played_one_not))
    (fun _ => Http 200 (AList [Some "2025a"])).

(** The stand-in for [trueskill.rate] in the global environment. *)
Definition demo_rate_global (ratings1 ratings2 : list Rating) (ranks : list Z)
  : option (list Rating * list Rating) :=
  demo_rate env0 ratings1 ratings2 ranks.

(** Every belief of the table has a positive sigma, as every rating the
    package builds or returns has. *)
Definition positive_sigmas (s : store) : Prop :=
  forall k r, In (k, r) s -> 0 < r_sigma r.

(** The tolerance of the snapshot round trip, 1e-9. *)
Definition tolerance : Q := 1 # 1000000000.

(** The two tables hold the same keys, and at each key beliefs whose mu and
    sigma differ by at most [tol]. *)
Definition beliefs_within (tol : Q) (s s' : store) : Prop :=
  forall k,
    match store_get k s, store_get k s' with
    | Some r, Some r' =>
        Qabs (r_mu r' - r_mu r) <= tol /\ Qabs (r_sigma r' - r_sigma r) <= tol
    | None, None => True
    | _, _ => False
    end.

(** The two predictions differ by at most [tol] in each probability. *)
Definition predictions_within (tol : Q) (p p' : prediction) : Prop :=
  Qabs (team1_win_prob p' - team1_win_prob p) <= tol
  /\ Qabs (team2_win_prob p' - team2_win_prob p) <= tol.

(** A snapshot file that lists one team and carries no environment. *)
Definition one_team_snapshot : payload :=
  mkPayload (mkMetaEnv None None None None None) None None (Some 1%nat)
    [mkEntry (Some (Some "frc9")) (Some (JNum 31)) (Some (JNum 4)) None None].

(** A final and a qualification match at the same time, both played, the
    final listed first. *)
Definition played_final_then_qual : list tba_match :=
  [mkMatch (Some (Some (mkAlliance ["frc3"] (Some 2%Z)),
                  Some (mkAlliance ["frc4"] (Some 1%Z))))
     (Some 100%Z) None (Some "f") (Some 1%Z) (Some 1%Z);
   mkMatch (Some (Some (mkAlliance ["frc1"] (Some 5%Z)),
                  Some (mkAlliance ["frc2"] (Some 3%Z))))
     (Some 100%Z) None (Some "qm") (Some 1%Z) (Some 7%Z)].

(** What the update step does with the answer of [rate]: the new ratings
    are stored under the keys as given, or the exception leaves the step. *)
Definition stored_answer (st : State) (teams1 teams2 : list string)
  (answer : option (list Rating * list Rating)) : State * bool :=
  match answer with
  | None => (st, false)
  | Some (new_ratings1, new_ratings2) =>
      (set_ratings st
         (write_back teams2 new_ratings2
            (write_back teams1 new_ratings1 (TEAM_RATINGS st))),
       true)
  end.

(** A stand-in for the package that, like it, cannot rate a draw when the
    draw probability of the environment is zero. *)
Definition tie_averse_rate (e : Env) (ratings1 ratings2 : list Rating)
  (ranks : list Z) : option (list Rating * list Rating) :=
  match ranks with
  | [a; b] =>
      if (a =? b)%Z && Qeq_bool (env_draw_probability e) 0 then None
      else demo_rate e ratings1 ratings2 ranks
  | _ => None
  end.

(** A snapshot whose environment gives mu as [true] and sigma as a number
    and omits the other parameters. *)
Definition mixed_snapshot : payload :=
  mkPayload (mkMetaEnv (Some (JBool true)) (Some (JNum 10)) None None None)
    None None (Some 0%nat) [].

(** A snapshot whose environment gives mu as [null]. *)
Definition null_snapshot : payload :=
  mkPayload
    (mkMetaEnv (Some JNull) (Some (JNum 10)) (Some (JNum 5))
       (Some (JNum (1 # 10))) (Some (JNum 0)))
    None None (Some 0%nat) [].

(** A state whose environment is not the start-up one. *)
Definition hot_state : State :=
  mkState (mkEnv 30 10 5 (1 # 10) 0)
    [("frc1", mkRating 27 7); ("frc2", mkRating 20 8)] None None.



(** * Properties *)

(** ** Canonical keys *)

Lemma is_space_lower_char (c : ascii) : is_space (lower_char c) = is_space c.
Proof. destruct c as [[] [] [] [] [] [] [] []]; reflexivity. Qed.

Lemma lower_char_idem (c : ascii) : lower_char (lower_char c) = lower_char c.
Proof. destruct c as [[] [] [] [] [] [] [] []]; reflexivity. Qed.

Lemma lower_idem (s : string) : lower (lower s) = lower s.
Proof.
  induction s as [|c s IH]; simpl; [reflexivity|].
  now rewrite lower_char_idem, IH.
Qed.

Lemma lstrip_lower (s : string) : lstrip (lower s) = lower (lstrip s).
Proof.
  induction s as [|c s IH]; simpl; [reflexivity|].
  rewrite is_space_lower_char.
  destruct (is_space c); [exact IH | reflexivity].
Qed.

Lemma rstrip_lower (s : string) : rstrip (lower s) = lower (rstrip s).
Proof.
  induction s as [|c s IH]; simpl; [reflexivity|].
  rewrite IH, is_space_lower_char.
  destruct (rstrip s); simpl; [destruct (is_space c)|]; reflexivity.
Qed.

Lemma strip_lower (s : string) : strip (lower s) = lower (strip s).
Proof. unfold strip. now rewrite lstrip_lower, rstrip_lower. Qed.

Lemma rstrip_idem (s : string) : rstrip (rstrip s) = rstrip s.
Proof.
  induction s as [|c s IH]; simpl; [reflexivity|].
  destruct (rstrip s) as [|c' r] eqn:E.
  - destruct (is_space c) eqn:Ec; simpl; [reflexivity | now rewrite Ec].
  - change (rstrip (String c (String c' r))) with
      (match rstrip (String c' r) with
       | EmptyString => if is_space c then EmptyString else String c EmptyString
       | x => String c x
       end).
    now rewrite IH.
Qed.

(** A string that does not start with a space keeps its first character
    through [rstrip]. *)
Lemma lstrip_rstrip_fixed (s : string) :
  lstrip s = s -> lstrip (rstrip s) = rstrip s.
Proof.
  destruct s as [|c s]; simpl; [reflexivity|].
  destruct (is_space c) eqn:Ec.
  - intros H. exfalso.
    assert (L : forall t, (String.length (lstrip t) <= String.length t)%nat).
    { induction t as [|a t IHt]; simpl; [lia|].
      destruct (is_space a); simpl; lia. }
    specialize (L s). rewrite H in L. simpl in L. lia.
  - intros _. destruct (rstrip s); simpl; now rewrite Ec.
Qed.

Lemma lstrip_idem (s : string) : lstrip (lstrip s) = lstrip s.
Proof.
  induction s as [|c s IH]; simpl; [reflexivity|].
  destruct (is_space c) eqn:Ec; [exact IH | simpl; now rewrite Ec].
Qed.

Lemma strip_idem (s : string) : strip (strip s) = strip s.
Proof.
  unfold strip.
  rewrite (lstrip_rstrip_fixed (lstrip s) (lstrip_idem s)).
  apply rstrip_idem.
Qed.

Lemma canon_idem (s : string) : canon (canon s) = canon s.
Proof.
  unfold canon. now rewrite strip_lower, strip_idem, lower_idem.
Qed.

(** ** The confidence metric *)

Lemma max_min_is_clamp (x : Q) : Qmax 0 (Qmin 1 x) == clamp x 0 1.
Proof.
  unfold clamp.
  destruct (Qle_bool x 0) eqn:E0.
  - apply Qle_bool_iff in E0.
    rewrite (Q.min_r 1 x) by lra. apply Q.max_l; exact E0.
  - assert (H0 : 0 < x).
    { apply Qnot_le_lt. intro H. apply Qle_bool_iff in H. congruence. }
    destruct (Qle_bool 1 x) eqn:E1.
    + apply Qle_bool_iff in E1.
      rewrite (Q.min_l 1 x) by exact E1. apply Q.max_r; lra.
    + assert (H1 : x < 1).
      { apply Qnot_le_lt. intro H. apply Qle_bool_iff in H. congruence. }
      rewrite (Q.min_r 1 x) by lra. apply Q.max_r; lra.
Qed.

Lemma clamp_unit_bounds (x : Q) : 0 <= clamp x 0 1 <= 1.
Proof.
  unfold clamp.
  destruct (Qle_bool x 0) eqn:E0; [lra|].
  destruct (Qle_bool 1 x) eqn:E1; [lra|].
  split; apply Qlt_le_weak; apply Qnot_le_lt; intro H;
    apply Qle_bool_iff in H; congruence.
Qed.

(** C9: for a prior deviation sigma0 > 0 of the environment, the confidence
    metric equals 100 * clamp(1 - (sigma/sigma0)^2, 0, 1); and for every
    sigma and every environment its value lies in [0, 100]. *)
Theorem confidence_is_clamped_fraction (sigma : Q) (e : Env) :
  (0 < env_sigma e ->
   team_confidence_from_sigma sigma e
   == confidence_formula sigma (env_sigma e))
  /\ 0 <= team_confidence_from_sigma sigma e <= 100.
Proof.
  unfold team_confidence_from_sigma, confidence_formula.
  split.
  - intros Hpos.
    destruct (Qle_bool (env_sigma e) 0) eqn:E.
    + apply Qle_bool_iff in E. lra.
    + now rewrite max_min_is_clamp.
  - destruct (Qle_bool (env_sigma e) 0); [lra|].
    rewrite max_min_is_clamp.
    pose proof (clamp_unit_bounds (1 - (sigma / env_sigma e) ^ 2)) as B.
    lra.
Qed.

Lemma confidence_is_clamped_fraction_witness :
  0 < env_sigma env0
  /\ team_confidence_from_sigma (25 # 6) env0
     == confidence_formula (25 # 6) (env_sigma env0)
  /\ team_confidence_from_sigma (25 # 6) env0 == 75.
Proof.
  split; [reflexivity|].
  split; [|reflexivity].
  apply (proj1 (confidence_is_clamped_fraction (25 # 6) env0)).
  reflexivity.
Defined.

(** ** The rating table *)

Lemma store_get_set_same (k : string) (v : Rating) (s : store) :
  store_get k (store_set k v s) = Some v.
Proof.
  induction s as [|[k' v'] s IH]; simpl.
  - now rewrite String.eqb_refl.
  - destruct (String.eqb k k') eqn:E; simpl; rewrite ?String.eqb_refl, ?E; auto.
Qed.

Lemma store_get_set_other (k k' : string) (v : Rating) (s : store) :
  k <> k' -> store_get k' (store_set k v s) = store_get k' s.
Proof.
  intros Hne. induction s as [|[k0 v0] s IH]; simpl.
  - destruct (String.eqb k' k) eqn:E; [|reflexivity].
    apply String.eqb_eq in E. congruence.
  - destruct (String.eqb k k0) eqn:E; simpl.
    + apply String.eqb_eq in E. subst k0.
      destruct (String.eqb k' k) eqn:E'; [|reflexivity].
      apply String.eqb_eq in E'. congruence.
    + now rewrite IH.
Qed.

Lemma store_get_In (k : string) (s : store) :
  store_get k s <> None <-> In k (keys s).
Proof.
  induction s as [|[k' v'] s IH]; simpl; [tauto|].
  destruct (String.eqb k k') eqn:E.
  - apply String.eqb_eq in E. subst. split; [auto | congruence].
  - apply String.eqb_neq in E. rewrite IH. split; [auto|].
    intros [H|H]; [congruence | exact H].
Qed.

Lemma store_get_None (k : string) (s : store) :
  store_get k s = None <-> ~ In k (keys s).
Proof.
  rewrite <- store_get_In. destruct (store_get k s).
  - split; [discriminate|]. intros H. exfalso. apply H. discriminate.
  - split; [intros _ H; now apply H | reflexivity].
Qed.

Lemma keys_store_set (k k' : string) (v : Rating) (s : store) :
  In k' (keys (store_set k v s)) <-> k' = k \/ In k' (keys s).
Proof.
  induction s as [|[k0 v0] s IH]; simpl.
  - intuition.
  - destruct (String.eqb k k0) eqn:E; simpl.
    + apply String.eqb_eq in E. subst. intuition.
    + rewrite IH. intuition.
Qed.

Lemma NoDup_store_set (k : string) (v : Rating) (s : store) :
  NoDup (keys s) -> NoDup (keys (store_set k v s)).
Proof.
  induction s as [|[k0 v0] s IH]; simpl; intros H.
  - constructor; [intros []|constructor].
  - inversion H as [|? ? Hnin Hnd]; subst.
    destruct (String.eqb k k0) eqn:E; simpl.
    + apply String.eqb_eq in E. subst. now constructor.
    + constructor; [|auto].
      apply String.eqb_neq in E.
      intros Hin. apply keys_store_set in Hin. destruct Hin; auto.
Qed.

Lemma keys_write_back (teams : list string) (rs : list Rating) (s : store)
  (k : string) :
  In k (keys (write_back teams rs s)) -> In k teams \/ In k (keys s).
Proof.
  revert rs s. induction teams as [|t ts IH]; intros [|r rs] s; simpl; auto.
  intros H. apply IH in H. destruct H as [H|H]; [auto|].
  apply keys_store_set in H. destruct H; auto.
Qed.

(** ** Reading or creating ratings *)

Lemma get_team_rating_frame (st : State) (t : string) :
  let st' := fst (get_team_rating st t) in
  env st' = env st /\ LAST_EVENT_KEY st' = LAST_EVENT_KEY st
  /\ LAST_YEAR st' = LAST_YEAR st.
Proof.
  unfold get_team_rating.
  destruct (store_get (canon t) (TEAM_RATINGS st)); simpl; auto.
Qed.

Lemma get_team_rating_reads (st : State) (t : string) :
  store_get (canon t) (TEAM_RATINGS (fst (get_team_rating st t)))
  = Some (snd (get_team_rating st t)).
Proof.
  unfold get_team_rating.
  destruct (store_get (canon t) (TEAM_RATINGS st)) eqn:E; simpl; auto.
  apply store_get_set_same.
Qed.

Lemma get_team_rating_keeps (st : State) (t k : string) (r : Rating) :
  store_get k (TEAM_RATINGS st) = Some r ->
  store_get k (TEAM_RATINGS (fst (get_team_rating st t))) = Some r.
Proof.
  unfold get_team_rating. intros H.
  destruct (store_get (canon t) (TEAM_RATINGS st)) eqn:E; simpl; auto.
  rewrite store_get_set_other; auto.
  intros <-. congruence.
Qed.

Lemma get_team_rating_keys (st : State) (t k : string) :
  In k (keys (TEAM_RATINGS (fst (get_team_rating st t)))) ->
  k = canon t \/ In k (keys (TEAM_RATINGS st)).
Proof.
  unfold get_team_rating.
  destruct (store_get (canon t) (TEAM_RATINGS st)); simpl; auto.
  apply keys_store_set.
Qed.

Lemma get_team_ratings_frame (teams : list string) (st : State) :
  let st' := fst (get_team_ratings st teams) in
  env st' = env st /\ LAST_EVENT_KEY st' = LAST_EVENT_KEY st
  /\ LAST_YEAR st' = LAST_YEAR st.
Proof.
  revert st. induction teams as [|t ts IH]; intros st; simpl; auto.
  pose proof (get_team_rating_frame st t) as F.
  destruct (get_team_rating st t) as [st1 r]. simpl in F.
  specialize (IH st1).
  destruct (get_team_ratings st1 ts) as [st2 rs]. simpl in *.
  intuition congruence.
Qed.

Lemma get_team_ratings_keys (teams : list string) (st : State) (k : string) :
  In k (keys (TEAM_RATINGS (fst (get_team_ratings st teams)))) ->
  (exists t, In t teams /\ k = canon t) \/ In k (keys (TEAM_RATINGS st)).
Proof.
  revert st. induction teams as [|t ts IH]; intros st; simpl; auto.
  pose proof (get_team_rating_keys st t k) as K.
  destruct (get_team_rating st t) as [st1 r]. simpl in K.
  specialize (IH st1).
  destruct (get_team_ratings st1 ts) as [st2 rs]. simpl in *.
  intros H. destruct (IH H) as [[t' [Ht' ->]]|H1].
  - left. exists t'. auto.
  - destruct (K H1) as [->|H2]; [left; exists t|]; auto.
Qed.

Lemma get_team_ratings_keeps (teams : list string) (st : State) (k : string)
  (r : Rating) :
  store_get k (TEAM_RATINGS st) = Some r ->
  store_get k (TEAM_RATINGS (fst (get_team_ratings st teams))) = Some r.
Proof.
  revert st. induction teams as [|t ts IH]; intros st; simpl; auto.
  pose proof (get_team_rating_keeps st t k r) as K.
  destruct (get_team_rating st t) as [st1 r1]. simpl in K.
  specialize (IH st1).
  destruct (get_team_ratings st1 ts) as [st2 rs]. simpl in *. auto.
Qed.


(** ** Outcome classification *)

Lemma ranks_of_draw (score1 score2 : Z) :
  ranks_of score1 score2 = [0; 0]%Z <-> score1 = score2.
Proof.
  unfold ranks_of.
  destruct (score1 >? score2)%Z eqn:E1; [split; [discriminate | lia]|].
  destruct (score2 >? score1)%Z eqn:E2; [split; [discriminate | lia]|].
  split; [lia | reflexivity].
Qed.

Lemma ranks_of_first_wins (score1 score2 : Z) :
  ranks_of score1 score2 = [0; 1]%Z <-> (score1 > score2)%Z.
Proof.
  unfold ranks_of.
  destruct (score1 >? score2)%Z eqn:E1; [split; [lia | reflexivity]|].
  destruct (score2 >? score1)%Z eqn:E2; split; try discriminate; lia.
Qed.

Lemma ranks_of_second_wins (score1 score2 : Z) :
  ranks_of score1 score2 = [1; 0]%Z <-> (score2 > score1)%Z.
Proof.
  unfold ranks_of.
  destruct (score1 >? score2)%Z eqn:E1; [split; [discriminate | lia]|].
  destruct (score2 >? score1)%Z eqn:E2; split; try discriminate; try lia.
  reflexivity.
Qed.

Section EngineProperties.

Variable rate :
  Env -> list Rating -> list Rating -> list Z ->
  option (list Rating * list Rating).
Variable cdf : Q -> Q.
Variable sqrt : Q -> Q.
Variable round2 : Q -> Q.
Variable float_of_str : string -> option Q.

Lemma push_one (st : State) (t1 t2 : string) (ts1 ts2 : list string)
  (score1 score2 : Z) :
  push_results rate st
    [mkPush (Some (t1 :: ts1)) (Some (t2 :: ts2)) (Some score1) (Some score2)]
  = push_one_result
      (rate_and_store rate st (t1 :: ts1) (t2 :: ts2)
         (ranks_of score1 score2)).
Proof.
  unfold push_results, push_one_result. simpl.
  destruct (rate_and_store rate st (t1 :: ts1) (t2 :: ts2)
              (ranks_of score1 score2)) as [st' []]; reflexivity.
Qed.

Lemma replay_one (req : update_request) (st : State)
  (teams1 teams2 : list string) (score1 score2 : Z) (m : tba_match) :
  (0 <= score1)%Z -> (0 <= score2)%Z ->
  replay rate req st [scored_match teams1 teams2 score1 score2 m]
  = replay_one_result req
      (rate_and_store rate st teams1 teams2 (ranks_of score1 score2)).
Proof.
  intros H1 H2. unfold replay_one_result. simpl.
  assert (E1 : (score1 <? 0)%Z = false) by lia.
  assert (E2 : (score2 <? 0)%Z = false) by lia.
  rewrite E1, E2. simpl.
  destruct (rate_and_store rate st teams1 teams2 (ranks_of score1 score2))
    as [st' []]; reflexivity.
Qed.

(** The update step reads or creates the ratings of both sides, hands them
    to [rate] with the ranks and the environment of the state, and stores
    what [rate] answers. *)
Lemma rate_and_store_answer (st : State) (teams1 teams2 : list string)
  (ranks : list Z) :
  let ratings1 := snd (get_team_ratings st teams1) in
  let st1 := fst (get_team_ratings st teams1) in
  let ratings2 := snd (get_team_ratings st1 teams2) in
  let st2 := fst (get_team_ratings st1 teams2) in
  rate_and_store rate st teams1 teams2 ranks
  = stored_answer st2 teams1 teams2 (rate (env st) ratings1 ratings2 ranks).
Proof.
  cbv zeta. unfold rate_and_store, stored_answer.
  pose proof (get_team_ratings_frame teams1 st) as (E1 & _).
  destruct (get_team_ratings st teams1) as [st1 ratings1]. cbn [fst snd] in *.
  pose proof (get_team_ratings_frame teams2 st1) as (E2 & _).
  destruct (get_team_ratings st1 teams2) as [st2 ratings2].
  cbn [fst snd] in *.
  replace (env st2) with (env st) by congruence. reflexivity.
Qed.

(** C7: a match record with both alliances and both scores, replayed by the
    rebuild or pushed incrementally, is classified by its scores alone: a
    draw (ranks [0, 0]) exactly when they are equal, a win of the first side
    ([0, 1]) exactly when the first score is higher, of the second ([1, 0])
    exactly when the second is.  For equal scores [rate] is called with the
    ratings read or created for the two sides, the ranks [0, 0] and the
    environment of the state as it is, whatever draw probability it
    carries, and what [rate] answers for the draw is what gets stored (or
    the exception it raises is what leaves the step); for different scores
    it is called with [0, 1] or [1, 0]. *)
Theorem draw_exactly_on_equal_scores (st : State) (t1 t2 : string)
  (ts1 ts2 : list string) (score1 score2 : Z) (req : update_request)
  (m0 : tba_match) :
  let teams1 := t1 :: ts1 in
  let teams2 := t2 :: ts2 in
  let m := mkPush (Some teams1) (Some teams2) (Some score1) (Some score2) in
  let ratings1 := snd (get_team_ratings st teams1) in
  let st1 := fst (get_team_ratings st teams1) in
  let ratings2 := snd (get_team_ratings st1 teams2) in
  let st2 := fst (get_team_ratings st1 teams2) in
  let rated ranks :=
    stored_answer st2 teams1 teams2 (rate (env st) ratings1 ratings2 ranks) in
  (ranks_of score1 score2 = [0; 0]%Z <-> score1 = score2)
  /\ (ranks_of score1 score2 = [0; 1]%Z <-> (score1 > score2)%Z)
  /\ (ranks_of score1 score2 = [1; 0]%Z <-> (score2 > score1)%Z)
  /\ (score1 = score2 ->
      push_results rate st [m] = push_one_result (rated [0; 0]%Z)
      /\ ((0 <= score1)%Z ->
          replay rate req st [scored_match teams1 teams2 score1 score2 m0]
          = replay_one_result req (rated [0; 0]%Z)))
  /\ ((score1 > score2)%Z ->
      push_results rate st [m] = push_one_result (rated [0; 1]%Z)
      /\ ((0 <= score2)%Z ->
          replay rate req st [scored_match teams1 teams2 score1 score2 m0]
          = replay_one_result req (rated [0; 1]%Z)))
  /\ ((score2 > score1)%Z ->
      push_results rate st [m] = push_one_result (rated [1; 0]%Z)
      /\ ((0 <= score1)%Z ->
          replay rate req st [scored_match teams1 teams2 score1 score2 m0]
          = replay_one_result req (rated [1; 0]%Z))).
Proof.
  cbv zeta.
  split; [apply ranks_of_draw|].
  split; [apply ranks_of_first_wins|].
  split; [apply ranks_of_second_wins|].
  pose proof (rate_and_store_answer st (t1 :: ts1) (t2 :: ts2)) as A.
  cbv zeta in A.
  split; [|split].
  - intros Heq. rewrite <- A.
    rewrite <- (proj2 (ranks_of_draw score1 score2) Heq).
    split; [apply push_one|]. intros H1. apply replay_one; lia.
  - intros Hgt. rewrite <- A.
    rewrite <- (proj2 (ranks_of_first_wins score1 score2) Hgt).
    split; [apply push_one|]. intros H2. apply replay_one; lia.
  - intros Hgt. rewrite <- A.
    rewrite <- (proj2 (ranks_of_second_wins score1 score2) Hgt).
    split; [apply push_one|]. intros H1. apply replay_one; lia.
Qed.

End EngineProperties.

Lemma draw_exactly_on_equal_scores_witness :
  env_draw_probability (env init_state) == 0
  /\ 7%Z = 7%Z /\ (0 <= 7)%Z
  /\ push_results tie_averse_rate init_state
       [mkPush (Some ["frc1"]) (Some ["frc2"]) (Some 7%Z) (Some 7%Z)]
     = (mkState env0 [("frc1", prior); ("frc2", prior)] None None, Raised)
  /\ replay tie_averse_rate (mkUpdate (Some "2025nyrr") None) init_state
       [scored_match ["frc1"] ["frc2"] 7 7
          (mkMatch None None None None None None)]
     = (mkState env0 [("frc1", prior); ("frc2", prior)] None None, false)
  /\ push_results demo_rate init_state
       [mkPush (Some ["frc1"]) (Some ["frc2"]) (Some 7%Z) (Some 7%Z)]
     = (mkState env0
          [("frc1", mkRating (25 + 0) (25 # 3));
           ("frc2", mkRating (25 + - 0) (25 # 3))] None None,
        Done 1%nat).
Proof.
  split; [reflexivity|].
  assert (Heq : 7%Z = 7%Z) by reflexivity.
  assert (Hpos : (0 <= 7)%Z) by lia.
  split; [exact Heq|]. split; [exact Hpos|].
  pose proof (draw_exactly_on_equal_scores tie_averse_rate init_state
                "frc1" "frc2" [] [] 7%Z 7%Z (mkUpdate (Some "2025nyrr") None)
                (mkMatch None None None None None None)) as H.
  destruct H as (_ & _ & _ & H & _).
  destruct (H Heq) as [Hp Hr].
  split; [rewrite Hp; reflexivity|].
  split; [rewrite (Hr Hpos); reflexivity|].
  pose proof (draw_exactly_on_equal_scores demo_rate init_state
                "frc1" "frc2" [] [] 7%Z 7%Z (mkUpdate (Some "2025nyrr") None)
                (mkMatch None None None None None None)) as D.
  destruct D as (_ & _ & _ & D & _).
  rewrite (proj1 (D Heq)). reflexivity.
Defined.

(** ** The win-probability estimate *)

Section Estimator.

Variable cdf : Q -> Q.
Variable sqrt : Q -> Q.
Variable round2 : Q -> Q.


End Estimator.


(** ** The incremental push *)

Section Push.

Variable rate :
  Env -> list Rating -> list Rating -> list Z ->
  option (list Rating * list Rating).

Lemma push_loop_skip (st : State) (m : push_record) (rest : list push_record)
  (n : nat) :
  push_skips m = true ->
  push_loop rate st (m :: rest) n = push_loop rate st rest n.
Proof.
  unfold push_skips. destruct m as [[[|a l1]|] [[|b l2]|] [s1|] [s2|]];
    simpl; intros H; try reflexivity; discriminate.
Qed.

(** Records without an alliance or without a score leave no trace: the batch
    acts as the batch without them, count included. *)
Lemma push_loop_filter (data : list push_record) (st : State) (n : nat) :
  push_loop rate st data n
  = push_loop rate st (filter (fun m => negb (push_skips m)) data) n.
Proof.
  revert st n. induction data as [|m rest IH]; intros st n; [reflexivity|].
  cbn [filter]. destruct (push_skips m) eqn:E; cbn [negb].
  - rewrite push_loop_skip by exact E. apply IH.
  - unfold push_skips in E.
    destruct m as [[[|a l1]|] [[|b l2]|] [s1|] [s2|]]; try discriminate E.
    cbn [push_loop p_teams1 p_teams2 p_score1 p_score2].
    destruct (rate_and_store rate st (a :: l1) (b :: l2) (ranks_of s1 s2))
      as [st' []]; [apply IH | reflexivity].
Qed.

(** C2, at a record with the negative "unplayed" score: [push_results] does
    not skip it.  Both teams are entered in the table, [rate] is called, and
    the record is counted as applied (or the handler fails if [rate]
    raises); the answer is never "0 applied, table untouched". *)
Theorem push_applies_unplayed_score :
  let res := push_results rate init_state [unplayed_push] in
  push_skips unplayed_push = false
  /\ keys (TEAM_RATINGS (fst res)) = ["frc1"; "frc2"]
  /\ snd res <> Done 0%nat
  /\ snd res
     = match rate env0 [prior] [prior] (ranks_of (-1) 5) with
       | Some _ => Done 1%nat
       | None => Raised
       end.
Proof.
  cbv zeta. split; [reflexivity|].
  unfold push_results, unplayed_push.
  cbn [push_loop p_teams1 p_teams2 p_score1 p_score2].
  unfold rate_and_store.
  replace (get_team_ratings init_state ["frc1"])
    with (mkState env0 [("frc1", prior)] None None, [prior])
    by reflexivity.
  replace (get_team_ratings (mkState env0 [("frc1", prior)] None None)
             ["frc2"])
    with (mkState env0 [("frc1", prior); ("frc2", prior)] None None, [prior])
    by reflexivity.
  cbn [env].
  destruct (rate env0 [prior] [prior] (ranks_of (-1) 5)) as [[l1 l2]|].
  - cbn [push_loop fst snd].
    split; [|split; [discriminate | reflexivity]].
    destruct l1 as [|a l1], l2 as [|b l2]; reflexivity.
  - cbn [fst snd]. split; [reflexivity|]. split; [discriminate | reflexivity].
Qed.

(** C1, at a pushed record whose team key is not in canonical form: the
    rating is read under the canonical key and written back under the key as
    given, so the table ends with an entry "frc1" still holding the prior and
    a second entry "FRC1" holding the update, two entries for one canonical
    team key. *)
Theorem push_results_splits_team (a : Rating) (l1 l2 : list Rating) :
  rate env0 [prior] [prior] [0; 1]%Z = Some (a :: l1, l2) ->
  let s :=
    TEAM_RATINGS (fst (push_results rate init_state [mixed_case_push])) in
  keys s = ["frc1"; "frc2"; "FRC1"]
  /\ store_get "frc1" s = Some prior
  /\ store_get "FRC1" s = Some a
  /\ canon "FRC1" = canon "frc1"
  /\ ~ canonical_unique s.
Proof.
  intros Hrate. cbv zeta.
  unfold push_results, mixed_case_push.
  cbn [push_loop p_teams1 p_teams2 p_score1 p_score2].
  unfold rate_and_store.
  replace (get_team_ratings init_state ["FRC1"])
    with (mkState env0 [("frc1", prior)] None None, [prior])
    by reflexivity.
  replace (get_team_ratings (mkState env0 [("frc1", prior)] None None)
             ["frc2"])
    with (mkState env0 [("frc1", prior); ("frc2", prior)] None None, [prior])
    by reflexivity.
  cbn [env].
  change (ranks_of 1 0) with [0; 1]%Z.
  rewrite Hrate. cbn [push_loop fst snd].
  set (s := TEAM_RATINGS _).
  assert (K : keys s = ["frc1"; "frc2"; "FRC1"])
    by (subst s; destruct l2; reflexivity).
  split; [exact K|].
  split; [subst s; destruct l2; reflexivity|].
  split; [subst s; destruct l2; reflexivity|].
  split; [reflexivity|].
  intros U. specialize (U "FRC1" "frc1").
  rewrite K in U.
  assert (E : "FRC1" = "frc1") by (apply U; simpl; auto).
  discriminate E.
Qed.

End Push.

Lemma push_results_splits_team_witness :
  let s :=
    TEAM_RATINGS (fst (push_results demo_rate init_state [mixed_case_push])) in
  demo_rate env0 [prior] [prior] [0; 1]%Z
  = Some ([shift 1 prior], [shift (- (1)) prior])
  /\ keys s = ["frc1"; "frc2"; "FRC1"]
  /\ store_get "frc1" s = Some prior
  /\ store_get "FRC1" s = Some (shift 1 prior).
Proof.
  assert (H : demo_rate env0 [prior] [prior] [0; 1]%Z
              = Some ([shift 1 prior], [shift (- (1)) prior]))
    by reflexivity.
  split; [exact H|].
  destruct (push_results_splits_team demo_rate _ _ _ H) as (K & G1 & G2 & _).
  split; [exact K|]. split; [exact G1 | exact G2].
Defined.

(** ** Which keys the operations can enter in the table *)

Lemma grows_by_refl (refs : list string) (s : store) : grows_by refs s s.
Proof. intros k H. now right. Qed.

Lemma grows_by_trans (r1 r2 refs : list string) (s1 s2 s3 : store) :
  incl r1 refs -> incl r2 refs ->
  grows_by r1 s1 s2 -> grows_by r2 s2 s3 -> grows_by refs s1 s3.
Proof.
  intros I1 I2 G1 G2 k H.
  destruct (G2 k H) as [(t & Ht & E)|H2]; [left; exists t; auto|].
  destruct (G1 k H2) as [(t & Ht & E)|H1]; [left; exists t; auto | now right].
Qed.

Lemma grows_by_weaken (r refs : list string) (s s' : store) :
  incl r refs -> grows_by r s s' -> grows_by refs s s'.
Proof.
  intros I G. apply (grows_by_trans r [] refs s s' s'); auto.
  - intros x [].
  - apply grows_by_refl.
Qed.

Lemma get_team_ratings_grows (teams : list string) (st : State) :
  grows_by teams (TEAM_RATINGS st)
    (TEAM_RATINGS (fst (get_team_ratings st teams))).
Proof.
  intros k H. apply get_team_ratings_keys in H.
  destruct H as [(t & Ht & ->)|H]; [left | now right].
  exists t. split; [exact Ht | apply canon_idem].
Qed.

Lemma write_back_grows (teams : list string) (rs : list Rating) (s : store) :
  grows_by teams s (write_back teams rs s).
Proof.
  intros k H. apply keys_write_back in H.
  destruct H as [H|H]; [left; exists k; auto | now right].
Qed.

Section KeysOfOperations.

Variable rate :
  Env -> list Rating -> list Rating -> list Z ->
  option (list Rating * list Rating).
Variable cdf : Q -> Q.
Variable sqrt : Q -> Q.
Variable round2 : Q -> Q.

Lemma rate_and_store_grows (st : State) (teams1 teams2 : list string)
  (ranks : list Z) :
  grows_by (teams1 ++ teams2) (TEAM_RATINGS st)
    (TEAM_RATINGS (fst (rate_and_store rate st teams1 teams2 ranks))).
Proof.
  unfold rate_and_store.
  pose proof (get_team_ratings_grows teams1 st) as G1.
  destruct (get_team_ratings st teams1) as [st1 ratings1]. cbn [fst] in G1.
  pose proof (get_team_ratings_grows teams2 st1) as G2.
  destruct (get_team_ratings st1 teams2) as [st2 ratings2]. cbn [fst] in G2.
  assert (G12 : grows_by (teams1 ++ teams2) (TEAM_RATINGS st)
                  (TEAM_RATINGS st2)).
  { eapply grows_by_trans; [| |exact G1|exact G2].
    - apply incl_appl, incl_refl.
    - apply incl_appr, incl_refl. }
  destruct (rate (env st2) ratings1 ratings2 ranks) as [[n1 n2]|];
    cbn [fst]; [|exact G12].
  cbn [set_ratings TEAM_RATINGS].
  eapply grows_by_trans;
    [apply incl_refl | apply incl_appr, incl_refl | | apply write_back_grows].
  eapply grows_by_trans;
    [apply incl_refl | apply incl_appl, incl_refl | exact G12
    | apply write_back_grows].
Qed.

Lemma push_loop_grows (data : list push_record) (st : State) (n : nat) :
  grows_by (push_refs data) (TEAM_RATINGS st)
    (TEAM_RATINGS (fst (push_loop rate st data n))).
Proof.
  revert st n. induction data as [|m rest IH]; intros st n.
  - apply grows_by_refl.
  - assert (Skip : grows_by (push_refs (m :: rest)) (TEAM_RATINGS st)
                     (TEAM_RATINGS (fst (push_loop rate st rest n)))).
    { eapply grows_by_weaken; [|apply IH].
      unfold push_refs. cbn [flat_map]. apply incl_appr, incl_refl. }
    destruct m as [[[|a l1]|] [[|b l2]|] [s1|] [s2|]]; try exact Skip.
    cbn [push_loop p_teams1 p_teams2 p_score1 p_score2].
    pose proof (rate_and_store_grows st (a :: l1) (b :: l2) (ranks_of s1 s2))
      as G.
    destruct (rate_and_store rate st (a :: l1) (b :: l2) (ranks_of s1 s2))
      as [st' []]; cbn [fst] in G.
    + eapply grows_by_trans; [| |exact G|apply IH];
        unfold push_refs; cbn [flat_map or_nil p_teams1 p_teams2].
      * apply incl_appl, incl_refl.
      * apply incl_appr, incl_refl.
    + cbn [fst]. eapply grows_by_weaken; [|exact G].
      unfold push_refs; cbn [flat_map or_nil p_teams1 p_teams2].
      apply incl_appl, incl_refl.
Qed.

Lemma replay_grows (req : update_request) (matches : list tba_match)
  (st : State) :
  grows_by (match_refs matches) (TEAM_RATINGS st)
    (TEAM_RATINGS (fst (replay rate req st matches))).
Proof.
  revert st. induction matches as [|m rest IH]; intros st.
  - apply grows_by_refl.
  - assert (Skip : grows_by (match_refs (m :: rest)) (TEAM_RATINGS st)
                     (TEAM_RATINGS (fst (replay rate req st rest)))).
    { eapply grows_by_weaken; [|apply IH].
      unfold match_refs. cbn [flat_map]. apply incl_appr, incl_refl. }
    cbn [replay].
    destruct (alliances m) as [[red blue]|] eqn:EA; [|exact Skip].
    assert (Main :
      grows_by (match_refs (m :: rest)) (TEAM_RATINGS st)
        (TEAM_RATINGS (fst
          match score (or_empty_alliance red), score (or_empty_alliance blue)
          with
          | Some score1, Some score2 =>
              if (score1 <? 0)%Z || (score2 <? 0)%Z then replay rate req st rest
              else
                match rate_and_store rate st
                        (team_keys (or_empty_alliance red))
                        (team_keys (or_empty_alliance blue))
                        (ranks_of score1 score2) with
                | (st', true) => replay rate req (set_context st' req) rest
                | (st', false) => (st', false)
                end
          | _, _ => replay rate req st rest
          end))).
    { destruct (score (or_empty_alliance red)) as [s1|]; [|exact Skip].
      destruct (score (or_empty_alliance blue)) as [s2|]; [|exact Skip].
      destruct ((s1 <? 0)%Z || (s2 <? 0)%Z); [exact Skip|].
      pose proof (rate_and_store_grows st (team_keys (or_empty_alliance red))
                    (team_keys (or_empty_alliance blue)) (ranks_of s1 s2))
        as G.
      destruct (rate_and_store rate st (team_keys (or_empty_alliance red))
                  (team_keys (or_empty_alliance blue)) (ranks_of s1 s2))
        as [st' []]; cbn [fst] in G.
      + eapply grows_by_trans;
          [| |exact G|apply (IH (set_context st' req))];
          unfold match_refs; cbn [flat_map]; rewrite EA.
        * apply incl_appl, incl_refl.
        * apply incl_appr, incl_refl.
      + cbn [fst]. eapply grows_by_weaken; [|exact G].
        unfold match_refs; cbn [flat_map]; rewrite EA.
        apply incl_appl, incl_refl. }
    destruct red as [red|], blue as [blue|]; exact Main.
Qed.

End KeysOfOperations.

(** ** The stable sort *)

Section PySortedFacts.

Context {A K : Type}.
Variable leb : K -> K -> bool.
Variable key : A -> K.

Lemma insert_sorted_perm (x : A) (l : list A) :
  Permutation (insert_sorted leb key x l) (x :: l).
Proof.
  induction l as [|y l IH]; simpl; [apply Permutation_refl|].
  destruct (leb (key x) (key y)); [apply Permutation_refl|].
  eapply Permutation_trans; [apply perm_skip, IH | apply perm_swap].
Qed.

Lemma py_sorted_perm (l : list A) : Permutation (py_sorted leb key l) l.
Proof.
  induction l as [|x l IH]; simpl; [constructor|].
  eapply Permutation_trans; [apply insert_sorted_perm | now apply perm_skip].
Qed.

Lemma py_sorted_In (l : list A) (x : A) : In x (py_sorted leb key l) <-> In x l.
Proof.
  split; apply Permutation_in;
    [apply py_sorted_perm | apply Permutation_sym, py_sorted_perm].
Qed.

(** Elements of one class of keys keep their order: a class is any set of
    elements whose keys are pairwise [<=]. *)
Lemma insert_sorted_filter (p : A -> bool) (x : A) (l : list A) :
  (forall a b, p a = true -> p b = true -> leb (key a) (key b) = true) ->
  filter p (insert_sorted leb key x l) = filter p (x :: l).
Proof.
  intros Hp. induction l as [|y l IH]; [reflexivity|].
  cbn [insert_sorted]. destruct (leb (key x) (key y)) eqn:E; [reflexivity|].
  cbn [filter] in *. rewrite IH.
  destruct (p x) eqn:Px, (p y) eqn:Py; try reflexivity.
  rewrite (Hp x y Px Py) in E. discriminate.
Qed.

Lemma py_sorted_stable (p : A -> bool) (l : list A) :
  (forall a b, p a = true -> p b = true -> leb (key a) (key b) = true) ->
  filter p (py_sorted leb key l) = filter p l.
Proof.
  intros Hp. induction l as [|x l IH]; [reflexivity|].
  cbn [py_sorted fold_right].
  change (fold_right (insert_sorted leb key) [] l) with (py_sorted leb key l).
  rewrite insert_sorted_filter by exact Hp.
  cbn [filter]. now rewrite IH.
Qed.

Hypothesis leb_total : forall a b, leb a b = true \/ leb b a = true.
Hypothesis leb_trans :
  forall a b c, leb a b = true -> leb b c = true -> leb a c = true.

Lemma insert_sorted_sorted (x : A) (l : list A) :
  StronglySorted (fun a b => leb (key a) (key b) = true) l ->
  StronglySorted (fun a b => leb (key a) (key b) = true)
    (insert_sorted leb key x l).
Proof.
  induction 1 as [|y l Hs IH Hall]; simpl.
  - constructor; constructor.
  - destruct (leb (key x) (key y)) eqn:E.
    + constructor; [constructor; assumption|].
      constructor; [exact E|].
      eapply Forall_impl; [|exact Hall].
      intros a Ha. eapply leb_trans; eassumption.
    + constructor; [exact IH|].
      assert (Hyx : leb (key y) (key x) = true).
      { destruct (leb_total (key x) (key y)); congruence. }
      eapply Permutation_Forall;
        [apply Permutation_sym, insert_sorted_perm|].
      constructor; assumption.
Qed.

Lemma py_sorted_sorted (l : list A) :
  StronglySorted (fun a b => leb (key a) (key b) = true)
    (py_sorted leb key l).
Proof.
  induction l as [|x l IH]; simpl; [constructor|].
  now apply insert_sorted_sorted.
Qed.

End PySortedFacts.

Lemma StronglySorted_filter {A : Type} (R : A -> A -> Prop) (p : A -> bool)
  (l : list A) :
  StronglySorted R l -> StronglySorted R (filter p l).
Proof.
  induction 1 as [|x l Hs IH Hall]; simpl; [constructor|].
  destruct (p x); [|exact IH].
  constructor; [exact IH|].
  apply Forall_forall. intros y Hy. apply filter_In in Hy.
  rewrite Forall_forall in Hall. now apply Hall.
Qed.

(** ** Teams never named are never entered *)

Lemma match_refs_incl (l1 l2 : list tba_match) :
  incl l1 l2 -> incl (match_refs l1) (match_refs l2).
Proof.
  intros I t H. unfold match_refs in *. apply in_flat_map in H.
  destruct H as (m & Hm & Ht). apply in_flat_map. exists m. auto.
Qed.

Lemma keys_from_grows (refs r : list string) (s s' : store) :
  keys_from refs s -> grows_by r s s' -> keys_from (refs ++ r) s'.
Proof.
  intros KF G k H. destruct (G k H) as [(t & Ht & E)|H0].
  - exists t. split; [apply in_or_app; now right | exact E].
  - destruct (KF k H0) as (t & Ht & E).
    exists t. split; [apply in_or_app; now left | exact E].
Qed.

Section Traced.

Variable rate :
  Env -> list Rating -> list Rating -> list Z ->
  option (list Rating * list Rating).
Variable cdf : Q -> Q.
Variable sqrt : Q -> Q.
Variable round2 : Q -> Q.
Variable float_of_str : string -> option Q.

Lemma keys_from_weaken (refs refs' : list string) (s : store) :
  incl refs refs' -> keys_from refs s -> keys_from refs' s.
Proof.
  intros I KF k H. destruct (KF k H) as (t & Ht & E).
  exists t. split; [now apply I | exact E].
Qed.

(** The import enters keys that stand for team keys the file lists. *)
Lemma load_entries_keys_from (e : Env) (entries : list team_entry)
  (refs : list string) (s : store) :
  keys_from refs s ->
  keys_from (refs ++ entry_refs entries)
    (fst (load_entries float_of_str e s entries)).
Proof.
  revert refs s. induction entries as [|entry rest IH]; intros refs s KF.
  - cbn. now rewrite app_nil_r.
  - assert (Skip : keys_from (refs ++ entry_refs (entry :: rest))
                     (fst (load_entries float_of_str e s rest))).
    { eapply keys_from_weaken; [|apply (IH refs s KF)].
      unfold entry_refs. cbn [flat_map].
      apply incl_app; [apply incl_appl, incl_refl|].
      apply incl_appr, incl_appr, incl_refl. }
    assert (Stop : keys_from (refs ++ entry_refs (entry :: rest)) s).
    { eapply keys_from_weaken; [|exact KF]. apply incl_appl, incl_refl. }
    cbn [load_entries].
    destruct (e_team_key entry) as [[k|]|] eqn:Ek; [| exact Skip |].
    + destruct (negb _ || is_none (e_mu entry) || is_none (e_sigma entry));
        [exact Skip|].
      destruct (e_mu entry) as [mu|]; [|exact Skip].
      destruct (e_sigma entry) as [sigma|]; [|exact Skip].
      destruct (py_float float_of_str mu); [|exact Stop].
      destruct (py_float float_of_str sigma); [|exact Stop].
      destruct (rating_raises _); [exact Stop|].
      unfold entry_refs. cbn [flat_map]. rewrite Ek.
      rewrite app_assoc. apply IH.
      intros key Hq. apply keys_store_set in Hq. destruct Hq as [->|Hq].
      * exists k. split; [apply in_or_app; right; now left|].
        apply canon_idem.
      * destruct (KF key Hq) as (t & Ht & E).
        exists t. split; [apply in_or_app; now left | exact E].
    + cbn [str_truthy canon strip lstrip rstrip lower negb orb]. exact Skip.
Qed.

Lemma apply_json_keys_from (st : State) (p : payload) (flag : bool) :
  keys_from (entry_refs (teams p))
    (TEAM_RATINGS (fst (_apply_json_to_memory float_of_str st p flag))).
Proof.
  unfold _apply_json_to_memory.
  set (e := if flag then _ else _).
  assert (K0 : keys_from [] (@nil (string * Rating))) by (intros k []).
  pose proof (load_entries_keys_from e (teams p) [] [] K0) as KF.
  cbn [app] in KF.
  destruct (load_entries float_of_str e [] (teams p)) as [s []]; exact KF.
Qed.

Lemma rebuild_from_grows (req : update_request) (st : State)
  (matches : list tba_match) :
  grows_by (match_refs matches) []
    (TEAM_RATINGS (fst (rebuild_from rate req st matches))).
Proof.
  unfold rebuild_from.
  pose proof (replay_grows rate req (py_sorted Z.leb sort_key_v3 matches)
                (set_ratings st [])) as G.
  destruct (replay rate req (set_ratings st [])
              (py_sorted Z.leb sort_key_v3 matches)) as [st' []];
    cbn [fst] in *;
    (eapply grows_by_weaken; [|exact G]);
    apply match_refs_incl; intros m Hm; now apply py_sorted_In in Hm.
Qed.

Lemma predict_pair_grows (st : State) (teams1 teams2 : list string) :
  grows_by (teams1 ++ teams2) (TEAM_RATINGS st)
    (TEAM_RATINGS (fst (predict_pair cdf sqrt st teams1 teams2))).
Proof.
  unfold predict_pair.
  pose proof (get_team_ratings_grows teams1 st) as G1.
  destruct (get_team_ratings st teams1) as [st1 ratings1]. cbn [fst] in G1.
  pose proof (get_team_ratings_grows teams2 st1) as G2.
  destruct (get_team_ratings st1 teams2) as [st2 ratings2]. cbn [fst] in *.
  eapply grows_by_trans; [| |exact G1|exact G2].
  - apply incl_appl, incl_refl.
  - apply incl_appr, incl_refl.
Qed.

Lemma predict_match_grows (st : State) (teams1 teams2 : option (list string)) :
  grows_by (or_nil teams1 ++ or_nil teams2) (TEAM_RATINGS st)
    (TEAM_RATINGS (fst (predict_match cdf sqrt round2 st teams1 teams2))).
Proof.
  unfold predict_match.
  destruct (negb (list_truthy teams1) || negb (list_truthy teams2));
    [apply grows_by_refl|].
  pose proof (predict_pair_grows st (or_nil teams1) (or_nil teams2)) as G.
  destruct (predict_pair cdf sqrt st (or_nil teams1) (or_nil teams2))
    as [st' p]. exact G.
Qed.

Lemma predict_batch_grows
  (data : list (option (list string) * option (list string))) (st : State) :
  grows_by (batch_refs data) (TEAM_RATINGS st)
    (TEAM_RATINGS (fst (predict_batch cdf sqrt st data))).
Proof.
  revert st. induction data as [|[teams1 teams2] rest IH]; intros st.
  - apply grows_by_refl.
  - cbn [predict_batch].
    destruct (negb (list_truthy teams1) || negb (list_truthy teams2)).
    + specialize (IH st).
      destruct (predict_batch cdf sqrt st rest) as [st' results].
      cbn [fst] in *. eapply grows_by_weaken; [|exact IH].
      unfold batch_refs. cbn [flat_map]. apply incl_appr, incl_refl.
    + pose proof (predict_pair_grows st (or_nil teams1) (or_nil teams2)) as G.
      destruct (predict_pair cdf sqrt st (or_nil teams1) (or_nil teams2))
        as [st1 p]. cbn [fst] in G.
      specialize (IH st1).
      destruct (predict_batch cdf sqrt st1 rest) as [st' results].
      cbn [fst] in *.
      eapply grows_by_trans; [| |exact G|exact IH];
        unfold batch_refs; cbn [flat_map fst snd].
      * apply incl_appl, incl_refl.
      * apply incl_appr, incl_refl.
Qed.

Lemma predict_team_pure (st : State) (team : option string) :
  fst (predict_team round2 st team) = st.
Proof.
  unfold predict_team.
  destruct (negb (opt_str_truthy team)); [reflexivity|].
  destruct (store_get _ _); reflexivity.
Qed.

Lemma run_op_keys_from (refs : list string) (st : State) (o : op) :
  keys_from refs (TEAM_RATINGS st) ->
  keys_from (refs ++ op_refs o)
    (TEAM_RATINGS (run_op rate cdf sqrt round2 float_of_str st o)).
Proof.
  intros KF.
  destruct o as [data|req matches|teams1 teams2|data|team|body f|source f];
    cbn [run_op op_refs].
  - eapply keys_from_grows; [exact KF|]. apply push_loop_grows.
  - eapply keys_from_grows; [exact KF|].
    eapply grows_by_trans;
      [apply incl_refl | apply incl_refl | | apply rebuild_from_grows].
    intros k [].
  - eapply keys_from_grows; [exact KF|]. apply predict_match_grows.
  - eapply keys_from_grows; [exact KF|]. apply predict_batch_grows.
  - rewrite predict_team_pure, app_nil_r. exact KF.
  - unfold load_data_from_json.
    destruct f as [| |p]; cbn [fst file_refs];
      try (rewrite app_nil_r; exact KF).
    pose proof (apply_json_keys_from st p
                  match use_env_from_json_field body with
                  | Some v => py_bool v
                  | None => true
                  end) as A.
    destruct (_apply_json_to_memory float_of_str st p _) as [st' []];
      cbn [fst] in *;
      (eapply keys_from_weaken; [|exact A]); apply incl_appr, incl_refl.
  - unfold recalculate_values.
    destruct source; [|cbn [fst]; rewrite app_nil_r; exact KF].
    destruct f as [| |p]; cbn [fst file_refs];
      try (rewrite app_nil_r; exact KF).
    pose proof (apply_json_keys_from st p false) as A.
    destruct (_apply_json_to_memory float_of_str st p false) as [st' []];
      cbn [fst] in *;
      (eapply keys_from_weaken; [|exact A]); apply incl_appr, incl_refl.
Qed.

Lemma run_keys_from (ops : list op) (refs : list string) (st : State) :
  keys_from refs (TEAM_RATINGS st) ->
  keys_from (refs ++ flat_map op_refs ops)
    (TEAM_RATINGS (run rate cdf sqrt round2 float_of_str st ops)).
Proof.
  revert refs st. induction ops as [|o ops IH]; intros refs st KF.
  - cbn. now rewrite app_nil_r.
  - cbn [run fold_left flat_map]. rewrite app_assoc.
    apply IH. now apply run_op_keys_from.
Qed.

End Traced.

(** ** First reference of a team *)

Lemma get_team_rating_other (st : State) (t k : string) :
  canon t <> k ->
  store_get k (TEAM_RATINGS (fst (get_team_rating st t)))
  = store_get k (TEAM_RATINGS st).
Proof.
  intros Hne. unfold get_team_rating.
  destruct (store_get (canon t) (TEAM_RATINGS st)); cbn; [reflexivity|].
  now apply store_get_set_other.
Qed.

Lemma get_team_rating_fresh (st : State) (t : string) :
  store_get (canon t) (TEAM_RATINGS st) = None ->
  get_team_rating st t
  = (set_ratings st (store_set (canon t) prior (TEAM_RATINGS st)), prior).
Proof. unfold get_team_rating. now intros ->. Qed.

Lemma get_team_ratings_creates (teams : list string) (st : State) (t : string) :
  In t teams ->
  store_get (canon t) (TEAM_RATINGS st) = None ->
  store_get (canon t) (TEAM_RATINGS (fst (get_team_ratings st teams)))
  = Some prior.
Proof.
  revert st. induction teams as [|t0 ts IH]; intros st Hin Hnone; [easy|].
  cbn [get_team_ratings].
  destruct (string_dec (canon t0) (canon t)) as [E|NE].
  - rewrite <- E in Hnone |- *.
    rewrite (get_team_rating_fresh st t0 Hnone).
    pose proof (get_team_ratings_keeps ts
                  (set_ratings st
                     (store_set (canon t0) prior (TEAM_RATINGS st)))
                  (canon t0) prior (store_get_set_same _ _ _)) as Kp.
    destruct (get_team_ratings _ ts) as [st2 rs]. exact Kp.
  - pose proof (get_team_rating_other st t0 (canon t) NE) as O.
    destruct (get_team_rating st t0) as [st1 r]. cbn [fst] in O.
    destruct Hin as [->|Hin]; [congruence|].
    specialize (IH st1 Hin). rewrite O in IH. specialize (IH Hnone).
    destruct (get_team_ratings st1 ts) as [st2 rs]. exact IH.
Qed.

Lemma get_team_ratings_app (l1 l2 : list string) (st : State) :
  get_team_ratings st (l1 ++ l2)
  = (fst (get_team_ratings (fst (get_team_ratings st l1)) l2),
     snd (get_team_ratings st l1)
     ++ snd (get_team_ratings (fst (get_team_ratings st l1)) l2)).
Proof.
  revert st. induction l1 as [|t l1 IH]; intros st; cbn [app get_team_ratings].
  - cbn. now destruct (get_team_ratings st l2).
  - destruct (get_team_rating st t) as [st1 r].
    rewrite (IH st1).
    destruct (get_team_ratings st1 l1) as [st2 rs]. reflexivity.
Qed.

Section FirstReference.

Variable rate :
  Env -> list Rating -> list Rating -> list Z ->
  option (list Rating * list Rating).
Variable cdf : Q -> Q.
Variable sqrt : Q -> Q.
Variable round2 : Q -> Q.
Variable float_of_str : string -> option Q.

Lemma predict_pair_state (st : State) (teams1 teams2 : list string) :
  fst (predict_pair cdf sqrt st teams1 teams2)
  = fst (get_team_ratings st (teams1 ++ teams2)).
Proof.
  rewrite get_team_ratings_app. unfold predict_pair.
  destruct (get_team_ratings st teams1) as [st1 ratings1]. cbn [fst].
  destruct (get_team_ratings st1 teams2) as [st2 ratings2]. reflexivity.
Qed.

Lemma predict_match_state (st : State) (teams1 teams2 : list string) :
  teams1 <> [] -> teams2 <> [] ->
  fst (predict_match cdf sqrt round2 st (Some teams1) (Some teams2))
  = fst (get_team_ratings st (teams1 ++ teams2)).
Proof.
  intros H1 H2. rewrite <- predict_pair_state. unfold predict_match.
  destruct teams1; [congruence|]. destruct teams2; [congruence|].
  cbn [list_truthy negb orb or_nil].
  now destruct (predict_pair cdf sqrt st (s :: teams1) (s0 :: teams2)).
Qed.

(** C3, as the code has it: a team that no update or prediction has named
    and no imported snapshot has listed is reported "not found" by the
    lookup, which leaves the state as it is, and its first read-or-create,
    directly or through a prediction, enters the fixed belief (25, 25/3).
    More generally the read-or-create of any team key that is not in the
    table enters (25, 25/3), whatever the active environment holds.  That
    belief is the prior (mu0, sigma0) of the environment the service starts
    with. *)
Theorem first_reference_gets_fixed_prior (ops : list op) (team : string) :
  let st0 := run rate cdf sqrt round2 float_of_str init_state ops in
  (team <> "" ->
   (forall t, In t (flat_map op_refs ops) -> canon t <> canon team) ->
   predict_team round2 st0 (Some team) = (st0, R404)
   /\ snd (get_team_rating st0 team) = mkRating 25 (25 # 3)
   /\ store_get (canon team) (TEAM_RATINGS (fst (get_team_rating st0 team)))
      = Some (mkRating 25 (25 # 3))
   /\ (forall teams1 teams2,
         teams1 <> [] -> teams2 <> [] -> In team (teams1 ++ teams2) ->
         store_get (canon team)
           (TEAM_RATINGS
              (fst (predict_match cdf sqrt round2 st0
                      (Some teams1) (Some teams2))))
         = Some (mkRating 25 (25 # 3))))
  /\ (forall st t,
        store_get (canon t) (TEAM_RATINGS st) = None ->
        snd (get_team_rating st t) = mkRating 25 (25 # 3)
        /\ store_get (canon t) (TEAM_RATINGS (fst (get_team_rating st t)))
           = Some (mkRating 25 (25 # 3)))
  /\ (forall st teams1 teams2 t,
        teams1 <> [] -> teams2 <> [] -> In t (teams1 ++ teams2) ->
        store_get (canon t) (TEAM_RATINGS st) = None ->
        store_get (canon t)
          (TEAM_RATINGS
             (fst (predict_match cdf sqrt round2 st
                     (Some teams1) (Some teams2))))
        = Some (mkRating 25 (25 # 3)))
  /\ (r_mu prior == env_mu (env init_state)
      /\ r_sigma prior == env_sigma (env init_state)).
Proof.
  cbv zeta.
  assert (Fresh : forall st t,
            store_get (canon t) (TEAM_RATINGS st) = None ->
            snd (get_team_rating st t) = mkRating 25 (25 # 3)
            /\ store_get (canon t) (TEAM_RATINGS (fst (get_team_rating st t)))
               = Some (mkRating 25 (25 # 3))).
  { intros st t Hnone. rewrite (get_team_rating_fresh st t Hnone).
    cbn [fst snd set_ratings TEAM_RATINGS].
    split; [reflexivity | apply store_get_set_same]. }
  assert (Predicted : forall st teams1 teams2 t,
            teams1 <> [] -> teams2 <> [] -> In t (teams1 ++ teams2) ->
            store_get (canon t) (TEAM_RATINGS st) = None ->
            store_get (canon t)
              (TEAM_RATINGS
                 (fst (predict_match cdf sqrt round2 st
                         (Some teams1) (Some teams2))))
            = Some (mkRating 25 (25 # 3))).
  { intros st teams1 teams2 t H1 H2 Hin Hnone.
    rewrite predict_match_state by assumption.
    now apply get_team_ratings_creates. }
  split; [|split; [exact Fresh | split; [exact Predicted|]]].
  - intros Hne Hrefs.
    pose proof (run_keys_from rate cdf sqrt round2 float_of_str ops []
                  init_state) as KF.
    cbn [app] in KF.
    assert (K0 : keys_from [] (TEAM_RATINGS init_state)) by (intros k []).
    specialize (KF K0).
    set (st0 := run rate cdf sqrt round2 float_of_str init_state ops) in *.
    assert (N : store_get (canon team) (TEAM_RATINGS st0) = None).
    { apply store_get_None. intros Hin.
      destruct (KF _ Hin) as (t & Ht & E).
      rewrite canon_idem in E. apply (Hrefs t Ht). now symmetry. }
    split.
    { unfold predict_team.
      destruct team as [|c team]; [congruence|].
      cbn [opt_str_truthy str_truthy negb]. now rewrite N. }
    split; [exact (proj1 (Fresh st0 team N))|].
    split; [exact (proj2 (Fresh st0 team N))|].
    intros teams1 teams2 H1 H2 Hin. now apply Predicted.
  - split; reflexivity.
Qed.

End FirstReference.

Lemma first_reference_gets_fixed_prior_witness :
  let ops := [OpPush [mixed_case_push];
              OpLoad (mkLoadBody None) (File one_team_snapshot);
              OpLoad (mkLoadBody None) (File hot_snapshot);
              OpPredictMatch (Some ["frc3"]) (Some ["frc4"])] in
  let st0 :=
    run demo_rate demo_cdf demo_sqrt demo_round2 demo_float init_state ops in
  "frc8" <> ""
  /\ env st0 = mkEnv 30 10 5 (1 # 10) 0
  /\ predict_team demo_round2 st0 (Some "frc8") = (st0, R404)
  /\ snd (get_team_rating st0 "frc8") = mkRating 25 (25 # 3)
  /\ store_get (canon " Frc8 ") (TEAM_RATINGS st0) = None
  /\ store_get "frc8"
       (TEAM_RATINGS
          (fst (predict_match demo_cdf demo_sqrt demo_round2 st0
                  (Some [" Frc8 "]) (Some ["frc1"]))))
     = Some (mkRating 25 (25 # 3)).
Proof.
  cbv zeta.
  pose proof (first_reference_gets_fixed_prior demo_rate demo_cdf demo_sqrt
                demo_round2 demo_float
                [OpPush [mixed_case_push];
                 OpLoad (mkLoadBody None) (File one_team_snapshot);
                 OpLoad (mkLoadBody None) (File hot_snapshot);
                 OpPredictMatch (Some ["frc3"]) (Some ["frc4"])] "frc8")
    as (L & _ & P & _).
  assert (Hne : "frc8" <> "") by discriminate.
  assert (N : store_get (canon " Frc8 ")
                (TEAM_RATINGS
                   (run demo_rate demo_cdf demo_sqrt demo_round2 demo_float
                      init_state
                      [OpPush [mixed_case_push];
                       OpLoad (mkLoadBody None) (File one_team_snapshot);
                       OpLoad (mkLoadBody None) (File hot_snapshot);
                       OpPredictMatch (Some ["frc3"]) (Some ["frc4"])]))
              = None) by reflexivity.
  assert (Hrefs : forall t,
            In t (flat_map op_refs
                    [OpPush [mixed_case_push];
                     OpLoad (mkLoadBody None) (File one_team_snapshot);
                     OpLoad (mkLoadBody None) (File hot_snapshot);
                     OpPredictMatch (Some ["frc3"]) (Some ["frc4"])]) ->
            canon t <> canon "frc8").
  { intros t Ht. cbn in Ht.
    destruct Ht as [<-|[<-|[<-|[<-|[<-|[]]]]]]; discriminate. }
  destruct (L Hne Hrefs) as (L1 & L2 & _ & _).
  split; [exact Hne|].
  split; [reflexivity|].
  split; [exact L1|].
  split; [exact L2|].
  split; [exact N|].
  apply (P _ [" Frc8 "] ["frc1"] " Frc8 ");
    [discriminate | discriminate | cbn; auto | exact N].
Defined.

(** C3 as stated fails in two ways.  Once the environment has been
    replaced (a snapshot with prior (30, 10) is loaded), the first reference
    of a team still enters (25, 25/3).  And a team that no update or
    prediction has referenced is found by the lookup once an imported
    snapshot lists it, and its first read-or-create returns the belief of
    the snapshot, not a prior. *)
Lemma first_reference_ignores_active_environment :
  (let st :=
     fst (load_data_from_json demo_float init_state (mkLoadBody None)
            (File hot_snapshot)) in
   let r := snd (get_team_rating st "frc1") in
   store_get (canon "frc1") (TEAM_RATINGS st) = None
   /\ env_mu (env st) == 30
   /\ env_sigma (env st) == 10
   /\ r = mkRating 25 (25 # 3)
   /\ ~ (r_mu r == env_mu (env st) /\ r_sigma r == env_sigma (env st)))
  /\ (let st :=
        fst (load_data_from_json demo_float init_state (mkLoadBody None)
               (File one_team_snapshot)) in
      predict_team demo_round2 st (Some "frc9")
      = (st, R200 (mkView "frc9" 31 4 (31 - 3 * 4)
                     (team_confidence_from_sigma 4 env0)))
      /\ get_team_rating st "frc9" = (st, mkRating 31 4)
      /\ ~ (31 == env_mu (env st))).
Proof.
  cbv zeta. split.
  - split; [reflexivity|]. split; [reflexivity|]. split; [reflexivity|].
    split; [reflexivity|].
    intros [H _]. vm_compute in H. discriminate H.
  - split; [reflexivity|]. split; [reflexivity|].
    intros H. vm_compute in H. discriminate H.
Qed.

(** ** The rebuild and provider failures *)

Section Rebuild.

Variable rate :
  Env -> list Rating -> list Rating -> list Z ->
  option (list Rating * list Rating).


(** The replay skips a match without alliances, without a score or with a
    negative score: the list acts as the list without them. *)
Lemma replay_filter (req : update_request) (matches : list tba_match)
  (st : State) :
  replay rate req st matches
  = replay rate req st (filter (fun m => negb (replay_skips m)) matches).
Proof.
  revert st. induction matches as [|m rest IH]; intros st; [reflexivity|].
  cbn [filter].
  destruct (replay_skips m) eqn:RS; cbn [negb replay];
    unfold replay_skips, score_unplayed in RS; revert RS;
    destruct (alliances m) as [[[red|] [blue|]]|];
    cbn [or_empty_alliance score];
    repeat match goal with
           | |- context [score ?a] => destruct (score a)
           end;
    cbn [orb]; intros RS; try discriminate RS; try apply IH;
    rewrite RS; try apply IH;
    (destruct (rate_and_store rate st _ _ _) as [st' []];
     [apply IH | reflexivity]).
Qed.


End Rebuild.



(** ** The match sequencer of the season variant *)

Lemma key_leb_composite (a b : YearVariant.sort_key) :
  YearVariant.key_leb a b = true <-> composite_le a b.
Proof.
  destruct a as [[[a1 a2] a3] a4], b as [[[b1 b2] b3] b4].
  unfold YearVariant.key_leb, composite_le.
  destruct (a1 <? b1)%Z eqn:E1; [split; [lia | reflexivity]|].
  destruct (b1 <? a1)%Z eqn:F1; [split; [discriminate | lia]|].
  destruct (a2 <? b2)%Z eqn:E2; [split; [lia | reflexivity]|].
  destruct (b2 <? a2)%Z eqn:F2; [split; [discriminate | lia]|].
  destruct (a3 <? b3)%Z eqn:E3; [split; [lia | reflexivity]|].
  destruct (b3 <? a3)%Z eqn:F3; [split; [discriminate | lia]|].
  rewrite Z.leb_le. lia.
Qed.

Lemma composite_le_total (a b : YearVariant.sort_key) :
  composite_le a b \/ composite_le b a.
Proof.
  destruct a as [[[a1 a2] a3] a4], b as [[[b1 b2] b3] b4].
  unfold composite_le. lia.
Qed.

Lemma composite_le_trans (a b c : YearVariant.sort_key) :
  composite_le a b -> composite_le b c -> composite_le a c.
Proof.
  destruct a as [[[a1 a2] a3] a4], b as [[[b1 b2] b3] b4],
    c as [[[c1 c2] c3] c4].
  unfold composite_le. lia.
Qed.

Lemma key_leb_total (a b : YearVariant.sort_key) :
  YearVariant.key_leb a b = true \/ YearVariant.key_leb b a = true.
Proof. rewrite !key_leb_composite. apply composite_le_total. Qed.

Lemma key_leb_trans (a b c : YearVariant.sort_key) :
  YearVariant.key_leb a b = true -> YearVariant.key_leb b c = true ->
  YearVariant.key_leb a c = true.
Proof. rewrite !key_leb_composite. apply composite_le_trans. Qed.

Lemma key_eqb_leb (a b : YearVariant.sort_key) :
  YearVariant.key_eqb a b = true -> YearVariant.key_leb a b = true.
Proof.
  destruct a as [[[a1 a2] a3] a4], b as [[[b1 b2] b3] b4].
  intros H. apply key_leb_composite. unfold composite_le.
  unfold YearVariant.key_eqb in H. lia.
Qed.

Lemma key_eqb_eq (a b : YearVariant.sort_key) :
  YearVariant.key_eqb a b = true <-> a = b.
Proof.
  destruct a as [[[a1 a2] a3] a4], b as [[[b1 b2] b3] b4].
  unfold YearVariant.key_eqb. split.
  - intros H. repeat f_equal; lia.
  - intros H. inversion H; subst. rewrite !Z.eqb_refl. reflexivity.
Qed.

Lemma comp_level_order_unranked (cl : string) :
  ranked_phase cl = false ->
  YearVariant.comp_level_order (Some cl) = 9%Z.
Proof.
  unfold ranked_phase, YearVariant.comp_level_order. cbn [existsb].
  destruct (String.eqb (lower cl) "pr"); [discriminate|].
  destruct (String.eqb (lower cl) "qm"); [discriminate|].
  destruct (String.eqb (lower cl) "ef"); [discriminate|].
  destruct (String.eqb (lower cl) "qf"); [discriminate|].
  destruct (String.eqb (lower cl) "sf"); [discriminate|].
  destruct (String.eqb (lower cl) "f"); [discriminate|].
  reflexivity.
Qed.

Lemma comp_level_order_ranked (cl : string) :
  ranked_phase cl = true ->
  (0 <= YearVariant.comp_level_order (Some cl) <= 5)%Z.
Proof.
  unfold ranked_phase, YearVariant.comp_level_order. cbn [existsb].
  destruct (String.eqb (lower cl) "pr"); [lia|].
  destruct (String.eqb (lower cl) "qm"); [lia|].
  destruct (String.eqb (lower cl) "ef"); [lia|].
  destruct (String.eqb (lower cl) "qf"); [lia|].
  destruct (String.eqb (lower cl) "sf"); [lia|].
  destruct (String.eqb (lower cl) "f"); [lia|].
  discriminate.
Qed.

Section Sequencer.

Variable rate :
  list Rating -> list Rating -> list Z -> option (list Rating * list Rating).

Lemma update_skips_unplayed (s : store) (m : tba_match) :
  YearVariant.played m = false ->
  YearVariant.update_from_one_match rate s
    (team_keys (YearVariant.red_of m)) (team_keys (YearVariant.blue_of m))
    (score (YearVariant.red_of m)) (score (YearVariant.blue_of m))
  = (s, true).
Proof.
  unfold YearVariant.played, YearVariant.update_from_one_match.
  intros H.
  destruct (score (YearVariant.red_of m)); [|reflexivity].
  destruct (score (YearVariant.blue_of m)); [|reflexivity].
  now rewrite H.
Qed.

Lemma process_played_only (ms : list tba_match) (s : store) :
  YearVariant.process rate s ms
  = YearVariant.process rate s (filter YearVariant.played ms).
Proof.
  revert s. induction ms as [|m rest IH]; intros s; [reflexivity|].
  cbn [filter]. destruct (YearVariant.played m) eqn:E.
  - cbn [YearVariant.process].
    destruct (YearVariant.update_from_one_match rate s _ _ _ _) as [s' []];
      [apply IH | reflexivity].
  - cbn [YearVariant.process]. rewrite update_skips_unplayed by exact E.
    apply IH.
Qed.

(** The season variant: the records of a list that get applied are those
    with two valid scores, in the order of the composite key (timestamp,
    phase rank, set number, match number, each ascending), the phase ranks
    being pr 0 < qm 1 < ef 2 < qf 3 < sf 4 < f 5 and 9 for every other phase;
    the order is stable, records with equal keys keeping their input
    order. *)
Lemma season_sequencer_order (matches : list tba_match) (s : store) :
  YearVariant.process_in_order rate s matches
  = YearVariant.process rate s (applied_sequence matches)
  /\ Permutation (applied_sequence matches)
       (filter YearVariant.played matches)
  /\ StronglySorted
       (fun a b => composite_le (YearVariant.key a) (YearVariant.key b))
       (applied_sequence matches)
  /\ (forall k,
        filter (fun m => YearVariant.key_eqb (YearVariant.key m) k)
          (applied_sequence matches)
        = filter (fun m => YearVariant.key_eqb (YearVariant.key m) k)
            (filter YearVariant.played matches))
  /\ (List.map (fun cl => YearVariant.comp_level_order (Some cl))
        ["pr"; "qm"; "ef"; "qf"; "sf"; "f"]
      = [0; 1; 2; 3; 4; 5]%Z
      /\ YearVariant.comp_level_order None = 9%Z
      /\ forall cl,
           if ranked_phase cl
           then (YearVariant.comp_level_order (Some cl) < 9)%Z
           else YearVariant.comp_level_order (Some cl) = 9%Z).
Proof.
  unfold applied_sequence, YearVariant.process_in_order,
    YearVariant.sort_matches_for_processing.
  split; [apply process_played_only|].
  split.
  { (* a permutation of the played records *)
    assert (F : forall l1 l2 : list tba_match,
               Permutation l1 l2 ->
               Permutation (filter YearVariant.played l1)
                 (filter YearVariant.played l2)).
    { induction 1 as [|x l1 l2 Hp IH|x y l|l1 l2 l3 H1 IH1 H2 IH2];
        cbn [filter].
      - constructor.
      - destruct (YearVariant.played x); [now constructor | exact IH].
      - destruct (YearVariant.played x), (YearVariant.played y);
          try apply Permutation_refl; apply perm_swap.
      - eapply Permutation_trans; eassumption. }
    apply F, py_sorted_perm. }
  split.
  { apply StronglySorted_filter.
    pose proof (py_sorted_sorted YearVariant.key_leb YearVariant.key
                  key_leb_total key_leb_trans matches) as S.
    induction S as [|x l Hs IH Hall]; constructor; [exact IH|].
    eapply Forall_impl; [|exact Hall].
    intros a Ha. now apply key_leb_composite. }
  split.
  { intros k.
    set (p := fun m => YearVariant.key_eqb (YearVariant.key m) k).
    assert (C : forall l : list tba_match,
               filter p (filter YearVariant.played l)
               = filter YearVariant.played (filter p l)).
    { induction l as [|x l IH]; [reflexivity|]. cbn [filter].
      destruct (YearVariant.played x) eqn:Ex, (p x) eqn:Px; cbn [filter];
        rewrite ?Ex, ?Px, IH; reflexivity. }
    rewrite !C. f_equal.
    apply py_sorted_stable. intros a b Ha Hb. unfold p in Ha, Hb.
    apply key_eqb_eq in Ha, Hb. apply key_eqb_leb, key_eqb_eq. congruence. }
  split; [reflexivity|]. split; [reflexivity|].
  intros cl. destruct (ranked_phase cl) eqn:E.
  - pose proof (comp_level_order_ranked cl E). lia.
  - now apply comp_level_order_unranked.
Qed.

End Sequencer.

Lemma filter_perm {A : Type} (p : A -> bool) (l1 l2 : list A) :
  Permutation l1 l2 -> Permutation (filter p l1) (filter p l2).
Proof.
  induction 1 as [|x l1 l2 Hp IH|x y l|l1 l2 l3 H1 IH1 H2 IH2]; cbn [filter].
  - constructor.
  - destruct (p x); [now constructor | exact IH].
  - destruct (p x), (p y); try apply Permutation_refl; apply perm_swap.
  - eapply Permutation_trans; eassumption.
Qed.

Lemma filter_comm {A : Type} (p q : A -> bool) (l : list A) :
  filter p (filter q l) = filter q (filter p l).
Proof.
  induction l as [|x l IH]; [reflexivity|]. cbn [filter].
  destruct (q x) eqn:Qx, (p x) eqn:Px; cbn [filter];
    rewrite ?Qx, ?Px, IH; reflexivity.
Qed.

Section ReplayOrder.

Variable rate :
  Env -> list Rating -> list Rating -> list Z ->
  option (list Rating * list Rating).
Variable rate_global :
  list Rating -> list Rating -> list Z -> option (list Rating * list Rating).

(** C5, as the code has it.  The rebuild of the current service applies the
    records it does not skip (alliances present, both scores present and not
    negative) in ascending order of the timestamp alone ([actual_time], else
    [time], else 0): phase, set number and match number play no part.  The
    sequencer of the season variant applies the records with two valid
    scores of the list it is given in the order of the composite key
    (timestamp, phase rank with pr < qm < ef < qf < sf < f and every other
    phase last, set number, match number, each ascending).  Both orders are
    stable: records with equal keys are applied in input order, so the same
    input list always gives the same order. *)
Theorem records_applied_in_sort_order (matches : list tba_match)
  (req : update_request) (st : State) (s : store) :
  (let order := replayed (py_sorted Z.leb sort_key_v3 matches) in
   rebuild_from rate req st matches
   = (match replay rate req (set_ratings st []) order with
      | (st', true) => (st', R200 (List.length (TEAM_RATINGS st')))
      | (st', false) => (st', R500)
      end)
   /\ Permutation order (replayed matches)
   /\ StronglySorted (fun a b => (sort_key_v3 a <= sort_key_v3 b)%Z) order
   /\ (forall ts,
         filter (fun m => (sort_key_v3 m =? ts)%Z) order
         = filter (fun m => (sort_key_v3 m =? ts)%Z) (replayed matches))
   /\ (forall m,
         sort_key_v3 m
         = match actual_time m, time m with
           | Some a, Some t =>
               if (a =? 0)%Z then t else a
           | Some a, None => a
           | None, Some t => t
           | None, None => 0%Z
           end))
  /\ (let order := applied_sequence matches in
      YearVariant.process_in_order rate_global s matches
      = YearVariant.process rate_global s order
      /\ Permutation order (filter YearVariant.played matches)
      /\ StronglySorted
           (fun a b => composite_le (YearVariant.key a) (YearVariant.key b))
           order
      /\ (forall k,
            filter (fun m => YearVariant.key_eqb (YearVariant.key m) k) order
            = filter (fun m => YearVariant.key_eqb (YearVariant.key m) k)
                (filter YearVariant.played matches))
      /\ (List.map (fun cl => YearVariant.comp_level_order (Some cl))
            ["pr"; "qm"; "ef"; "qf"; "sf"; "f"]
          = [0; 1; 2; 3; 4; 5]%Z
          /\ YearVariant.comp_level_order None = 9%Z
          /\ forall cl,
               if ranked_phase cl
               then (YearVariant.comp_level_order (Some cl) < 9)%Z
               else YearVariant.comp_level_order (Some cl) = 9%Z)).
Proof.
  cbv zeta. split; [|apply season_sequencer_order].
  assert (Tot : forall a b : Z, (a <=? b)%Z = true \/ (b <=? a)%Z = true)
    by (intros a b; lia).
  assert (Tr : forall a b c : Z,
             (a <=? b)%Z = true -> (b <=? c)%Z = true -> (a <=? c)%Z = true)
    by (intros a b c; lia).
  split.
  { unfold rebuild_from, replayed. now rewrite <- replay_filter. }
  split; [apply filter_perm, py_sorted_perm|].
  split.
  { apply StronglySorted_filter.
    pose proof (py_sorted_sorted Z.leb sort_key_v3 Tot Tr matches) as S.
    induction S as [|x l Hs IH Hall]; constructor; [exact IH|].
    eapply Forall_impl; [|exact Hall]. intros a Ha. now apply Z.leb_le. }
  split.
  { intros ts. unfold replayed. rewrite !(filter_comm _ (fun m => negb _)).
    f_equal. apply py_sorted_stable. intros a b Ha Hb. lia. }
  intros m. unfold sort_key_v3, z_or.
  destruct (actual_time m) as [a|], (time m) as [t|]; try reflexivity.
  - destruct (a =? 0)%Z; [|reflexivity]. destruct (t =? 0)%Z eqn:E;
      [|reflexivity]. apply Z.eqb_eq in E. now subst.
  - destruct (a =? 0)%Z eqn:E; [|reflexivity]. apply Z.eqb_eq in E. now subst.
  - destruct (t =? 0)%Z eqn:E; [|reflexivity]. apply Z.eqb_eq in E. now subst.
Qed.

End ReplayOrder.

(** C5 as stated fails on the current service: a final and a qualification
    match with the same timestamp, the final fetched first.  Both are valid;
    the rebuild replays the final first (its teams are the first entered in
    the table), although the composite key puts the qualification match
    before the final. *)
Lemma rebuild_replays_final_before_qualification :
  let order := py_sorted Z.leb sort_key_v3 played_final_then_qual in
  Forall (fun m => replay_skips m = false) played_final_then_qual
  /\ List.map comp_level order = [Some "f"; Some "qm"]
  /\ List.map YearVariant.key order
     = [(100, 5, 1, 1)%Z; (100, 1, 1, 7)%Z]
  /\ ~ StronglySorted
        (fun a b => composite_le (YearVariant.key a) (YearVariant.key b))
        order
  /\ exists st',
       rebuild_from demo_rate (mkUpdate (Some "2025nyrr") None) init_state
         played_final_then_qual
       = (st', R200 4%nat)
       /\ keys (TEAM_RATINGS st') = ["frc3"; "frc4"; "frc1"; "frc2"].
Proof.
  cbv zeta.
  split; [repeat constructor|].
  split; [reflexivity|].
  split; [reflexivity|].
  split.
  - intros S.
    assert (E : py_sorted Z.leb sort_key_v3 played_final_then_qual
                = played_final_then_qual) by reflexivity.
    rewrite E in S. unfold played_final_then_qual in S.
    inversion S as [|a l _ F]; subst.
    inversion F as [|b l' C _]; subst.
    assert (C' : composite_le (100, 5, 1, 1)%Z (100, 1, 1, 7)%Z) by exact C.
    unfold composite_le in C'. lia.
  - eexists. split; reflexivity.
Qed.

(** ** The snapshot codec *)

Lemma string_leb_trans (a b c : string) :
  String.leb a b = true -> String.leb b c = true -> String.leb a c = true.
Proof.
  unfold String.leb.
  change String.compare with String_as_OT.compare.
  destruct (String_as_OT.compare_spec a b) as [->|Hab|Hab]; try discriminate;
    intros _; [tauto|].
  destruct (String_as_OT.compare_spec b c) as [->|Hbc|Hbc]; try discriminate;
    intros _.
  - unfold String_as_OT.lt in Hab. now rewrite Hab.
  - assert (H : String_as_OT.lt a c) by (etransitivity; eassumption).
    unfold String_as_OT.lt in H. now rewrite H.
Qed.

Lemma store_set_fresh (k : string) (v : Rating) (s : store) :
  ~ In k (keys s) -> store_set k v s = s ++ [(k, v)].
Proof.
  induction s as [|[k' v'] s IH]; cbn; intros H; [reflexivity|].
  destruct (String.eqb k k') eqn:E.
  - apply String.eqb_eq in E. subst. exfalso. auto.
  - rewrite IH; auto.
Qed.

Lemma same_table_perm (l1 l2 : store) :
  Permutation l1 l2 -> NoDup (keys l1) -> same_table l1 l2.
Proof.
  induction 1 as [|[k v] l1 l2 Hp IH|[k1 v1] [k2 v2] l|l1 l2 l3 H1 IH1 H2 IH2];
    intros Hnd q.
  - reflexivity.
  - cbn. inversion Hnd; subst. now rewrite IH.
  - cbn. cbn in Hnd. inversion Hnd as [|? ? Hnin _]; subst.
    destruct (String.eqb q k2) eqn:E2, (String.eqb q k1) eqn:E1;
      try reflexivity.
    apply String.eqb_eq in E1, E2. subst. exfalso. apply Hnin. now left.
  - rewrite IH1 by assumption. apply IH2.
    unfold keys in *. eapply Permutation_NoDup; [|exact Hnd].
    now apply Permutation_map.
Qed.

Lemma same_table_store_set (k : string) (v : Rating) (s1 s2 : store) :
  same_table s1 s2 -> same_table (store_set k v s1) (store_set k v s2).
Proof.
  intros H q. destruct (string_dec k q) as [->|Hne].
  - now rewrite !store_get_set_same.
  - rewrite !store_get_set_other by exact Hne. apply H.
Qed.

(** Reading ratings from two tables that answer alike gives the same
    ratings, and the tables still answer alike. *)
Lemma get_team_ratings_same_table (teams : list string) (st1 st2 : State) :
  same_table (TEAM_RATINGS st1) (TEAM_RATINGS st2) ->
  snd (get_team_ratings st1 teams) = snd (get_team_ratings st2 teams)
  /\ same_table (TEAM_RATINGS (fst (get_team_ratings st1 teams)))
       (TEAM_RATINGS (fst (get_team_ratings st2 teams))).
Proof.
  revert st1 st2. induction teams as [|t ts IH]; intros st1 st2 H.
  - cbn. auto.
  - cbn [get_team_ratings].
    assert (S : snd (get_team_rating st1 t) = snd (get_team_rating st2 t)
                /\ same_table (TEAM_RATINGS (fst (get_team_rating st1 t)))
                     (TEAM_RATINGS (fst (get_team_rating st2 t)))).
    { unfold get_team_rating. rewrite <- (H (canon t)).
      destruct (store_get (canon t) (TEAM_RATINGS st1)); cbn; [auto|].
      split; [reflexivity | now apply same_table_store_set]. }
    destruct (get_team_rating st1 t) as [a1 r1],
      (get_team_rating st2 t) as [a2 r2].
    cbn [fst snd] in S. destruct S as [-> S].
    specialize (IH a1 a2 S).
    destruct (get_team_ratings a1 ts) as [b1 rs1],
      (get_team_ratings a2 ts) as [b2 rs2].
    cbn [fst snd] in *. destruct IH as [-> IH]. auto.
Qed.

(** A positive sigma builds a rating and is read back as it is. *)
Lemma rating_raises_positive (s : Q) : 0 < s -> rating_raises s = false.
Proof.
  intros H. unfold rating_raises.
  destruct (Qeq_bool s 0) eqn:E; [|reflexivity].
  apply Qeq_bool_iff in E. lra.
Qed.

Lemma Qabs_positive (s : Q) : 0 < s -> Qabs s = s.
Proof.
  destruct s as [n d]. unfold Qlt. cbn. intros H.
  rewrite Z.abs_eq by lia. reflexivity.
Qed.

Lemma rating_raises_nonzero (s : Q) : rating_raises s = false -> 0 < Qabs s.
Proof.
  unfold rating_raises. intros E.
  destruct (Qlt_le_dec 0 (Qabs s)) as [H|H]; [exact H|].
  exfalso. pose proof (Qabs_nonneg s) as N.
  assert (Z0 : Qabs s == 0) by lra.
  assert (S0 : s == 0).
  { pose proof (Qle_Qabs s) as L1. pose proof (Qle_Qabs (- s)) as L2.
    rewrite Qabs_opp in L2. lra. }
  apply Qeq_bool_iff in S0. congruence.
Qed.

Section Codec.

Variable cdf : Q -> Q.
Variable sqrt : Q -> Q.
Variable round2 : Q -> Q.
Variable float_of_str : string -> option Q.

Lemma predict_pair_same_table (st1 st2 : State) (teams1 teams2 : list string) :
  env st1 = env st2 ->
  same_table (TEAM_RATINGS st1) (TEAM_RATINGS st2) ->
  snd (predict_pair cdf sqrt st1 teams1 teams2)
  = snd (predict_pair cdf sqrt st2 teams1 teams2).
Proof.
  intros He Hs. unfold predict_pair.
  pose proof (get_team_ratings_same_table teams1 st1 st2 Hs) as [R1 S1].
  pose proof (get_team_ratings_frame teams1 st1) as (F1 & _).
  pose proof (get_team_ratings_frame teams1 st2) as (F2 & _).
  destruct (get_team_ratings st1 teams1) as [a1 r1],
    (get_team_ratings st2 teams1) as [a2 r2].
  cbn [fst snd] in *. subst r2.
  pose proof (get_team_ratings_same_table teams2 a1 a2 S1) as [R2 S2].
  pose proof (get_team_ratings_frame teams2 a1) as (G1 & _).
  pose proof (get_team_ratings_frame teams2 a2) as (G2 & _).
  destruct (get_team_ratings a1 teams2) as [b1 q1],
    (get_team_ratings a2 teams2) as [b2 q2].
  cbn [fst snd] in *. subst q2.
  replace (env b2) with (env b1) by congruence. reflexivity.
Qed.

Lemma predict_team_same_table (st1 st2 : State) (team : option string) :
  env st1 = env st2 ->
  same_table (TEAM_RATINGS st1) (TEAM_RATINGS st2) ->
  snd (predict_team round2 st1 team) = snd (predict_team round2 st2 team).
Proof.
  intros He Hs. unfold predict_team.
  destruct (negb (opt_str_truthy team)); [reflexivity|].
  rewrite <- Hs, He.
  destruct (store_get _ (TEAM_RATINGS st1)); reflexivity.
Qed.

(** Entries the import skips leave no trace. *)
Lemma load_entries_skip (e : Env) (s : store) (entry : team_entry)
  (rest : list team_entry) :
  malformed_entry entry = true ->
  load_entries float_of_str e s (entry :: rest)
  = load_entries float_of_str e s rest.
Proof.
  unfold malformed_entry. cbn [load_entries].
  destruct (e_team_key entry) as [[k|]|]; cbn [orb]; try reflexivity.
  intros H. now rewrite H.
Qed.

Lemma load_entries_filter (e : Env) (entries : list team_entry) (s : store) :
  load_entries float_of_str e s entries
  = load_entries float_of_str e s
      (filter (fun entry => negb (malformed_entry entry)) entries).
Proof.
  revert s. induction entries as [|entry rest IH]; intros s; [reflexivity|].
  cbn [filter]. destruct (malformed_entry entry) eqn:M; cbn [negb].
  - rewrite load_entries_skip by exact M. apply IH.
  - unfold malformed_entry in M.
    destruct entry as [[[k|]|] mu sigma c p]; cbn in M; try discriminate M.
    cbn [load_entries e_team_key e_mu e_sigma].
    apply orb_false_iff in M. destruct M as [M Hs].
    apply orb_false_iff in M. destruct M as [Hk Hm].
    rewrite Hk, Hm, Hs. cbn [orb].
    destruct mu as [mu|]; [|discriminate Hm].
    destruct sigma as [sigma|]; [|discriminate Hs].
    destruct (py_float float_of_str mu); [|reflexivity].
    destruct (py_float float_of_str sigma); [|reflexivity].
    destruct (rating_raises _); [reflexivity|].
    apply IH.
Qed.

(** Importing what the export wrote enters the exported pairs in file
    order, when every key is canonical and not blank and every sigma is
    positive. *)
Lemma load_entries_exported (e e' : Env) (l : store) (s : store) :
  all_canonical l -> ~ In "" (keys l) -> positive_sigmas l ->
  load_entries float_of_str e s
    (List.map (fun kv => _serialize_team_entry round2 e' (fst kv) (snd kv)) l)
  = (fold_left (fun acc kv => store_set (fst kv) (snd kv) acc) l s, true).
Proof.
  revert s. induction l as [|[k r] l IH]; intros s Hc Hb Hp; [reflexivity|].
  cbn [List.map fold_left fst snd load_entries _serialize_team_entry
         e_team_key e_mu e_sigma is_none py_float].
  assert (Ek : canon k = k) by (apply Hc; now left).
  rewrite Ek.
  assert (Tk : str_truthy k = true).
  { destruct k; [|reflexivity]. exfalso. apply Hb. now left. }
  rewrite Tk. cbn [negb orb].
  assert (Ps : 0 < r_sigma r) by (apply (Hp k); now left).
  rewrite (rating_raises_positive _ Ps).
  unfold create_rating. rewrite (Qabs_positive _ Ps).
  destruct r as [m sg]. cbn [r_mu r_sigma].
  apply IH.
  - intros k' Hk'. apply Hc. now right.
  - intros H. apply Hb. now right.
  - intros k' r' H. apply (Hp k'). now right.
Qed.

End Codec.

Lemma fold_store_set_fresh (l s : store) :
  NoDup (keys (s ++ l)) ->
  fold_left (fun acc kv => store_set (fst kv) (snd kv) acc) l s = s ++ l.
Proof.
  revert s. induction l as [|[k r] l IH]; intros s Hnd.
  - cbn. now rewrite app_nil_r.
  - cbn [fold_left fst snd].
    assert (Hnin : ~ In k (keys s)).
    { unfold keys in *. rewrite map_app in Hnd. cbn in Hnd.
      apply NoDup_remove_2 in Hnd. intros H. apply Hnd.
      apply in_or_app. now left. }
    rewrite (store_set_fresh k r s Hnin).
    rewrite IH; rewrite <- app_assoc; [reflexivity | exact Hnd].
Qed.

Section RoundTrip.

Variable cdf : Q -> Q.
Variable sqrt : Q -> Q.
Variable round2 : Q -> Q.
Variable float_of_str : string -> option Q.

Lemma load_entries_env (e e' : Env) (entries : list team_entry) (s : store) :
  load_entries float_of_str e s entries
  = load_entries float_of_str e' s entries.
Proof.
  revert s. induction entries as [|entry rest IH]; intros s; [reflexivity|].
  cbn [load_entries].
  destruct (e_team_key entry) as [[k|]|]; try apply IH;
    (destruct (negb (str_truthy _) || is_none (e_mu entry)
               || is_none (e_sigma entry)); [apply IH|]);
    (destruct (e_mu entry) as [mu|]; [|apply IH]);
    (destruct (e_sigma entry) as [sigma|]; [|apply IH]);
    (destruct (py_float float_of_str mu); [|reflexivity]);
    (destruct (py_float float_of_str sigma); [|reflexivity]);
    (destruct (rating_raises _); [reflexivity|]);
    apply IH.
Qed.

(** Equal tables and equal predictions are within any tolerance. *)
Lemma same_table_within (tol : Q) (s s' : store) :
  0 <= tol -> same_table s' s -> beliefs_within tol s s'.
Proof.
  intros Ht H k. rewrite (H k).
  destruct (store_get k s) as [r|]; [|exact I].
  assert (Z : forall x : Q, Qabs (x - x) <= tol).
  { intros x. setoid_replace (x - x) with 0 by ring. exact Ht. }
  split; apply Z.
Qed.

Lemma same_prediction_within (tol : Q) (p p' : prediction) :
  0 <= tol -> p' = p -> predictions_within tol p p'.
Proof.
  intros Ht ->.
  assert (Z : forall x : Q, Qabs (x - x) <= tol).
  { intros x. setoid_replace (x - x) with 0 by ring. exact Ht. }
  split; apply Z.
Qed.

(** C8, as the code has it: for a state whose table holds only canonical,
    non-blank keys (and beliefs with a positive sigma, as the data model
    requires), importing the exported snapshot (into any state, with the
    environment taken from the snapshot or already equal) gives back the
    environment, the session context and a table with the same teams whose
    mu and sigma are within 1e-9 of those before, and every prediction is
    within 1e-9 of the one before; over exact arithmetic there is no
    difference at all: every lookup, prediction and team view is the same.
    The export lists the teams sorted by key; the imported table depends on
    the snapshot alone, and entries without a key, with a null or blank key,
    or without mu or sigma are skipped. *)
Theorem snapshot_round_trip (st st0 : State) (flag : bool) :
  NoDup (keys (TEAM_RATINGS st)) ->
  all_canonical (TEAM_RATINGS st) ->
  ~ In "" (keys (TEAM_RATINGS st)) ->
  positive_sigmas (TEAM_RATINGS st) ->
  flag = true \/ env st0 = env st ->
  let p := _build_export_payload round2 st in
  let sorted := py_sorted String.leb fst (TEAM_RATINGS st) in
  let st' := mkState (env st) sorted (LAST_EVENT_KEY st) (LAST_YEAR st) in
  entry_keys p = List.map (fun kv => Some (Some (fst kv))) sorted
  /\ StronglySorted (fun a b => String.leb (fst a) (fst b) = true) sorted
  /\ Permutation sorted (TEAM_RATINGS st)
  /\ round_trip round2 float_of_str st st0 flag
     = (st', Done (List.length (TEAM_RATINGS st)))
  /\ beliefs_within tolerance (TEAM_RATINGS st) (TEAM_RATINGS st')
  /\ (forall teams1 teams2,
        predictions_within tolerance
          (snd (predict_pair cdf sqrt st teams1 teams2))
          (snd (predict_pair cdf sqrt st' teams1 teams2)))
  /\ same_table (TEAM_RATINGS st') (TEAM_RATINGS st)
  /\ (forall teams1 teams2,
        snd (predict_pair cdf sqrt st' teams1 teams2)
        = snd (predict_pair cdf sqrt st teams1 teams2))
  /\ (forall team,
        snd (predict_team round2 st' team) = snd (predict_team round2 st team))
  /\ (forall st1 p0 flag0,
        TEAM_RATINGS (fst (_apply_json_to_memory float_of_str st0 p0 flag0))
        = TEAM_RATINGS (fst (_apply_json_to_memory float_of_str st1 p0 flag0)))
  /\ (forall e s entries,
        load_entries float_of_str e s entries
        = load_entries float_of_str e s
            (filter (fun entry => negb (malformed_entry entry)) entries)).
Proof.
  intros Hnd Hc Hb Hp Hflag. cbv zeta.
  set (sorted := py_sorted String.leb fst (TEAM_RATINGS st)).
  assert (Hperm : Permutation sorted (TEAM_RATINGS st))
    by apply py_sorted_perm.
  assert (Hkeys : Permutation (keys sorted) (keys (TEAM_RATINGS st)))
    by (unfold keys; now apply Permutation_map).
  assert (Hnd' : NoDup (keys sorted)).
  { eapply Permutation_NoDup; [apply Permutation_sym, Hkeys | exact Hnd]. }
  assert (Hsame : same_table sorted (TEAM_RATINGS st))
    by (apply same_table_perm; assumption).
  split.
  { unfold entry_keys, _build_export_payload. cbn [teams].
    rewrite map_map. reflexivity. }
  split.
  { apply py_sorted_sorted; [apply String.leb_total | apply string_leb_trans]. }
  split; [exact Hperm|].
  split.
  { unfold round_trip, _apply_json_to_memory.
    assert (He : (if flag
                  then env_from_json float_of_str (env st0)
                         (meta_env_of (_build_export_payload round2 st))
                  else env st0) = env st).
    { destruct flag.
      - destruct st as [e s ek y]. cbn [env]. destruct e. reflexivity.
      - destruct Hflag as [H|H]; [discriminate | exact H]. }
    rewrite He.
    unfold _build_export_payload at 1. cbn [teams].
    fold sorted.
    rewrite (load_entries_exported round2 float_of_str (env st) (env st)
               sorted []).
    - rewrite fold_store_set_fresh by exact Hnd'. cbn [app].
      cbn [_build_export_payload ctx_event_key ctx_year].
      rewrite (Permutation_length Hperm). reflexivity.
    - intros k Hk. apply Hc. eapply Permutation_in; [exact Hkeys | exact Hk].
    - intros H. apply Hb. eapply Permutation_in; [exact Hkeys | exact H].
    - intros k r H. apply (Hp k). eapply Permutation_in; [exact Hperm | exact H]. }
  assert (Htol : 0 <= tolerance) by (unfold tolerance; lra).
  split; [apply same_table_within; [exact Htol | exact Hsame]|].
  split.
  { intros teams1 teams2. apply same_prediction_within; [exact Htol|].
    apply predict_pair_same_table; [reflexivity | exact Hsame]. }
  split; [exact Hsame|].
  split.
  { intros teams1 teams2. apply predict_pair_same_table; [reflexivity|].
    exact Hsame. }
  split.
  { intros team. apply predict_team_same_table; [reflexivity | exact Hsame]. }
  split.
  { intros st1 p0 flag0. unfold _apply_json_to_memory.
    rewrite (load_entries_env
               (if flag0
                then env_from_json float_of_str (env st0) (meta_env_of p0)
                else env st0)
               (if flag0
                then env_from_json float_of_str (env st1) (meta_env_of p0)
                else env st1)).
    destruct (load_entries float_of_str _ [] (teams p0)) as [s []];
      reflexivity. }
  intros e s entries. apply load_entries_filter.
Qed.

End RoundTrip.

Lemma snapshot_round_trip_witness :
  TEAM_RATINGS played_state
  = [("frc2", mkRating (25 + 1) (25 # 3));
     ("frc1", mkRating (25 + - (1)) (25 # 3))]
  /\ round_trip demo_round2 demo_float played_state init_state true
     = (mkState env0
          [("frc1", mkRating (25 + - (1)) (25 # 3));
           ("frc2", mkRating (25 + 1) (25 # 3))]
          None None,
        Done 2%nat).
Proof.
  split; [reflexivity|].
  assert (K : keys (TEAM_RATINGS played_state) = ["frc2"; "frc1"])
    by reflexivity.
  assert (Hnd : NoDup (keys (TEAM_RATINGS played_state))).
  { rewrite K.
    apply NoDup_cons; [intros [H|[]]; discriminate H|].
    apply NoDup_cons; [intros [] | apply NoDup_nil]. }
  assert (Hc : all_canonical (TEAM_RATINGS played_state)).
  { intros k Hk. rewrite K in Hk. destruct Hk as [<-|[<-|[]]]; reflexivity. }
  assert (Hb : ~ In "" (keys (TEAM_RATINGS played_state))).
  { rewrite K. intros [H|[H|[]]]; discriminate H. }
  assert (Hp : positive_sigmas (TEAM_RATINGS played_state)).
  { intros k r [H|[H|[]]]; inversion H; reflexivity. }
  exact (proj1 (proj2 (proj2 (proj2
           (snapshot_round_trip demo_cdf demo_sqrt demo_round2 demo_float
              played_state init_state true Hnd Hc Hb Hp
              (or_introl eq_refl)))))).
Defined.

(** C8 as stated fails on states the service reaches.  A prediction that
    names a blank team key enters the key "" in the table; the export writes
    it and the import skips it, so the team view found before is "not found"
    after.  A pushed result with the key "FRC1" leaves "FRC1" (updated) and
    "frc1" (prior) in the table; the import folds both onto "frc1" and the
    later entry, the prior, wins: the updated belief is gone.  An import
    that keeps the environment of the importing engine gives back the
    beliefs but not the predictions, which depend on beta.  And the import
    is not atomic: an entry that cannot be read stops it with the entries
    before it loaded. *)
Lemma round_trip_loses_entries :
  (let st' :=
     fst (round_trip demo_round2 demo_float blank_key_state
            blank_key_state true) in
   keys (TEAM_RATINGS blank_key_state) = [""; "frc1"]
   /\ keys (TEAM_RATINGS st') = ["frc1"]
   /\ (exists v, snd (predict_team demo_round2 blank_key_state (Some " "))
                 = R200 v)
   /\ snd (predict_team demo_round2 st' (Some " ")) = R404)
  /\ (let st' :=
        fst (round_trip demo_round2 demo_float mixed_case_state
               mixed_case_state true) in
      store_get "FRC1" (TEAM_RATINGS mixed_case_state)
      = Some (mkRating (25 + 1) (25 # 3))
      /\ store_get "frc1" (TEAM_RATINGS mixed_case_state) = Some prior
      /\ store_get "FRC1" (TEAM_RATINGS st') = None
      /\ store_get "frc1" (TEAM_RATINGS st') = Some prior)
  /\ (let st' :=
        fst (round_trip demo_round2 demo_float hot_state init_state false) in
      TEAM_RATINGS st' = TEAM_RATINGS hot_state
      /\ env st' = env0
      /\ ~ team1_win_prob
             (snd (predict_pair demo_cdf demo_sqrt st' ["frc1"] ["frc2"]))
           == team1_win_prob
                (snd (predict_pair demo_cdf demo_sqrt hot_state
                        ["frc1"] ["frc2"])))
  /\ load_data_from_json demo_float earlier_state (mkLoadBody None)
       (File broken_snapshot)
     = (mkState env0 [("frc1", mkRating 27 7)] (Some "2024nyrr") None, R500).
Proof.
  split; [|split; [|split]].
  - cbv zeta. split; [reflexivity|]. split; [reflexivity|].
    split; [eexists; reflexivity | reflexivity].
  - cbv zeta. repeat split; reflexivity.
  - cbv zeta. split; [reflexivity|]. split; [reflexivity|].
    intros H. vm_compute in H. discriminate H.
  - reflexivity.
Qed.

(** ** The environment on import *)

Section ImportFlag.

Variable round2 : Q -> Q.
Variable float_of_str : string -> option Q.

Lemma apply_json_env (st : State) (p : payload) (flag : bool) :
  env (fst (_apply_json_to_memory float_of_str st p flag))
  = if flag then env_from_json float_of_str (env st) (meta_env_of p)
    else env st.
Proof.
  unfold _apply_json_to_memory.
  destruct (load_entries float_of_str _ [] (teams p)) as [s []]; reflexivity.
Qed.

Lemma load_data_env (st : State) (body : load_body) (p : payload) :
  env (fst (load_data_from_json float_of_str st body (File p)))
  = env (fst (_apply_json_to_memory float_of_str st p
                match use_env_from_json_field body with
                | None => true
                | Some v => py_bool v
                end)).
Proof.
  unfold load_data_from_json.
  destruct (_apply_json_to_memory float_of_str st p _) as [st' []];
    reflexivity.
Qed.

(** The environment rebuilt from a snapshot keeps the current value of
    every parameter the snapshot omits. *)
Lemma env_from_json_omitted (e : Env) (m : meta_env) :
  let e' := env_from_json float_of_str e m in
  (j_mu m = None -> env_mu e' = env_mu e)
  /\ (j_sigma m = None -> env_sigma e' = env_sigma e)
  /\ (j_beta m = None -> env_beta e' = env_beta e)
  /\ (j_tau m = None -> env_tau e' = env_tau e)
  /\ (j_draw_probability m = None ->
      env_draw_probability e' = env_draw_probability e).
Proof.
  cbv zeta. unfold env_from_json.
  destruct (env_field float_of_str (j_mu m) (env_mu e)) as [a|] eqn:E1;
    [|repeat split; reflexivity].
  destruct (env_field float_of_str (j_sigma m) (env_sigma e)) as [b|] eqn:E2;
    [|repeat split; reflexivity].
  destruct (env_field float_of_str (j_beta m) (env_beta e)) as [c|] eqn:E3;
    [|repeat split; reflexivity].
  destruct (env_field float_of_str (j_tau m) (env_tau e)) as [d|] eqn:E4;
    [|repeat split; reflexivity].
  destruct (env_field float_of_str (j_draw_probability m)
              (env_draw_probability e)) as [f|] eqn:E5;
    [|repeat split; reflexivity].
  cbn [env_mu env_sigma env_beta env_tau env_draw_probability].
  repeat split; intros H; rewrite H in *; cbn [env_field] in *; congruence.
Qed.

(** C10, as the code has it: [load_data] without the flag defaults it to
    true, and the active environment becomes the one rebuilt from the
    snapshot.  Each of the five parameters is read with [float]: a number
    as itself, [true] and [false] as 1 and 0, a string as [float] parses it;
    a parameter the snapshot omits keeps its current value.  When [float]
    rejects a parameter that is present ([null], a string it cannot parse)
    the whole environment is left as it was.  A flag that is supplied is
    read by truthiness: [false], [null], [0] and the empty string all keep
    the current environment.  The import that [recalculate] performs passes
    no flag and always keeps the current environment. *)
Theorem load_data_env_flag (st : State) (p : payload) :
  let m := meta_env_of p in
  let e := env st in
  let e' := env_from_json float_of_str e m in
  env (fst (load_data_from_json float_of_str st (mkLoadBody None) (File p)))
  = e'
  /\ (forall v,
        env (fst (load_data_from_json float_of_str st (mkLoadBody (Some v))
                    (File p)))
        = if py_bool v then e' else e)
  /\ (py_bool (JBool false) = false /\ py_bool JNull = false
      /\ py_bool (JNum 0) = false /\ py_bool (JStr "") = false
      /\ py_bool (JBool true) = true)
  /\ (forall mu sigma beta tau draw_probability,
        env_field float_of_str (j_mu m) (env_mu e) = Some mu ->
        env_field float_of_str (j_sigma m) (env_sigma e) = Some sigma ->
        env_field float_of_str (j_beta m) (env_beta e) = Some beta ->
        env_field float_of_str (j_tau m) (env_tau e) = Some tau ->
        env_field float_of_str (j_draw_probability m) (env_draw_probability e)
        = Some draw_probability ->
        e' = mkEnv mu sigma beta tau draw_probability)
  /\ (env_field float_of_str (j_mu m) (env_mu e) = None
      \/ env_field float_of_str (j_sigma m) (env_sigma e) = None
      \/ env_field float_of_str (j_beta m) (env_beta e) = None
      \/ env_field float_of_str (j_tau m) (env_tau e) = None
      \/ env_field float_of_str (j_draw_probability m)
           (env_draw_probability e) = None ->
      e' = e)
  /\ (forall current v,
        env_field float_of_str None current = Some current
        /\ env_field float_of_str (Some v) current = py_float float_of_str v)
  /\ (py_float float_of_str JNull = None
      /\ (forall q, py_float float_of_str (JNum q) = Some q)
      /\ py_float float_of_str (JBool true) = Some 1
      /\ py_float float_of_str (JBool false) = Some 0
      /\ (forall s, py_float float_of_str (JStr s) = float_of_str s))
  /\ ((j_mu m = None -> env_mu e' = env_mu e)
      /\ (j_sigma m = None -> env_sigma e' = env_sigma e)
      /\ (j_beta m = None -> env_beta e' = env_beta e)
      /\ (j_tau m = None -> env_tau e' = env_tau e)
      /\ (j_draw_probability m = None ->
          env_draw_probability e' = env_draw_probability e))
  /\ env (fst (fst (recalculate_values round2 float_of_str st true (File p))))
     = e.
Proof.
  cbv zeta.
  split; [now rewrite load_data_env, apply_json_env|].
  split; [intros v; now rewrite load_data_env, apply_json_env|].
  split; [repeat split; reflexivity|].
  split.
  { intros mu sigma beta tau dp E1 E2 E3 E4 E5. unfold env_from_json.
    now rewrite E1, E2, E3, E4, E5. }
  split.
  { unfold env_from_json.
    intros [H|[H|[H|[H|H]]]]; rewrite H;
      repeat match goal with
             | |- context [match ?o with Some _ => _ | None => _ end] =>
                 destruct o
             end; reflexivity. }
  split; [intros current v; split; reflexivity|].
  split; [repeat split; reflexivity|].
  split; [apply env_from_json_omitted|].
  unfold recalculate_values.
  pose proof (apply_json_env st p false) as E.
  destruct (_apply_json_to_memory float_of_str st p false) as [st' []];
    exact E.
Qed.

End ImportFlag.

Lemma load_data_env_flag_witness :
  env_field demo_float (j_mu (meta_env_of mixed_snapshot)) (env_mu env0)
  = Some 1
  /\ env_field demo_float (j_sigma (meta_env_of mixed_snapshot))
       (env_sigma env0) = Some 10
  /\ env_field demo_float (j_beta (meta_env_of mixed_snapshot))
       (env_beta env0) = Some (25 # 6)
  /\ env (fst (load_data_from_json demo_float init_state (mkLoadBody None)
                 (File mixed_snapshot)))
     = mkEnv 1 10 (25 # 6) (25 # 300) 0
  /\ env_field demo_float (j_mu (meta_env_of null_snapshot)) (env_mu env0)
     = None
  /\ env (fst (load_data_from_json demo_float init_state (mkLoadBody None)
                 (File null_snapshot)))
     = env0
  /\ env (fst (load_data_from_json demo_float init_state
                 (mkLoadBody (Some (JBool false))) (File hot_snapshot)))
     = env0.
Proof.
  destruct (load_data_env_flag demo_round2 demo_float init_state
              mixed_snapshot) as (H1 & _ & _ & H4 & _).
  destruct (load_data_env_flag demo_round2 demo_float init_state
              null_snapshot) as (N1 & _ & _ & _ & N5 & _).
  destruct (load_data_env_flag demo_round2 demo_float init_state hot_snapshot)
    as (_ & H2 & _).
  assert (E1 : env_field demo_float (j_mu (meta_env_of mixed_snapshot))
                 (env_mu env0) = Some 1) by reflexivity.
  assert (E2 : env_field demo_float (j_sigma (meta_env_of mixed_snapshot))
                 (env_sigma env0) = Some 10) by reflexivity.
  assert (E3 : env_field demo_float (j_beta (meta_env_of mixed_snapshot))
                 (env_beta env0) = Some (25 # 6)) by reflexivity.
  assert (E0 : env_field demo_float (j_mu (meta_env_of null_snapshot))
                 (env_mu env0) = None) by reflexivity.
  split; [exact E1|]. split; [exact E2|]. split; [exact E3|].
  split.
  { rewrite H1. apply (H4 1 10 (25 # 6) (25 # 300) 0); reflexivity. }
  split; [exact E0|].
  split.
  { rewrite N1. apply N5. left. exact E0. }
  rewrite (H2 (JBool false)). reflexivity.
Defined.

(** C10 as stated fails: the import that [recalculate] performs is given no
    flag and keeps the current environment; and [load_data] keeps it for a
    flag of [0] or [null], neither of which is an explicit [false]. *)
Lemma import_keeps_env_without_explicit_false :
  env_mu (snapshot_env hot_snapshot) = 30
  /\ env (fst (fst (recalculate_values demo_round2 demo_float init_state true
                      (File hot_snapshot)))) = env0
  /\ env (fst (load_data_from_json demo_float init_state
                 (mkLoadBody (Some (JNum 0))) (File hot_snapshot))) = env0
  /\ env (fst (load_data_from_json demo_float init_state
                 (mkLoadBody (Some JNull)) (File hot_snapshot))) = env0
  /\ JNum 0 <> JBool false /\ JNull <> JBool false.
Proof. repeat split; try reflexivity; discriminate. Qed.

(** ** Remarks *)

(** The rebuild of the current service sorts by time alone: it keeps the
    input order of matches with equal times, where the sequencer of the
    season variant puts the qualification match first. *)
Lemma rebuild_sorts_by_time_only :
  List.map comp_level (py_sorted Z.leb sort_key_v3 final_then_qual)
  = [Some "f"; Some "qm"]
  /\ List.map comp_level
       (YearVariant.sort_matches_for_processing final_then_qual)
     = [Some "qm"; Some "f"].
Proof. split; reflexivity. Qed.

(** Reading or creating a rating keeps a canonical table canonical. *)
Lemma get_team_rating_canonical (st : State) (t : string) :
  all_canonical (TEAM_RATINGS st) ->
  all_canonical (TEAM_RATINGS (fst (get_team_rating st t))).
Proof.
  intros H k Hk. apply get_team_rating_keys in Hk.
  destruct Hk as [->|Hk]; [apply canon_idem | now apply H].
Qed.

(** A canonical table with distinct keys has one entry per team. *)
Lemma canonical_is_unique (s : store) :
  all_canonical s -> canonical_unique s.
Proof.
  intros H k1 k2 H1 H2 E. rewrite <- (H k1 H1), <- (H k2 H2). exact E.
Qed.

(** The import enters canonical keys only. *)
Lemma load_entries_canonical (float_of_str : string -> option Q) (e : Env)
  (entries : list team_entry) (s : store) :
  all_canonical s ->
  all_canonical (fst (load_entries float_of_str e s entries)).
Proof.
  revert s. induction entries as [|entry rest IH]; intros s H; [exact H|].
  cbn [load_entries].
  assert (Step : forall key_raw : option (option string),
    all_canonical (fst
      (if negb (str_truthy
                  (canon match key_raw with Some (Some k) => k | _ => "" end))
          || is_none (e_mu entry) || is_none (e_sigma entry)
       then load_entries float_of_str e s rest
       else
         match e_mu entry, e_sigma entry with
         | Some mu, Some sigma =>
             match py_float float_of_str mu, py_float float_of_str sigma with
             | Some m, Some sg =>
                 if rating_raises sg then (s, false)
                 else
                   load_entries float_of_str e
                     (store_set
                        (canon
                           match key_raw with Some (Some k) => k | _ => "" end)
                        (create_rating e m sg) s) rest
             | _, _ => (s, false)
             end
         | _, _ => load_entries float_of_str e s rest
         end))).
  { intros key_raw.
    destruct (negb _ || is_none (e_mu entry) || is_none (e_sigma entry));
      [now apply IH|].
    destruct (e_mu entry) as [mu|]; [|now apply IH].
    destruct (e_sigma entry) as [sigma|]; [|now apply IH].
    destruct (py_float float_of_str mu); [|exact H].
    destruct (py_float float_of_str sigma); [|exact H].
    destruct (rating_raises _); [exact H|].
    apply IH. intros k Hk. apply keys_store_set in Hk.
    destruct Hk as [->|Hk]; [apply canon_idem | now apply H]. }
  destruct (e_team_key entry) as [[k|]|];
    [exact (Step (Some (Some k))) | now apply IH | exact (Step None)].
Qed.

(** * Further properties of the service *)

(** ** Reading a team back *)

Section ReadBack.

Variable round2 : Q -> Q.

(** A team entered by [get_team_rating] is found by [predict_team] under any
    spelling with the same canonical key, with the rating that was returned,
    and reading it again returns that rating and changes nothing. *)
Theorem rating_read_back (st : State) (t t' : string) :
  t' <> "" -> canon t' = canon t ->
  let st1 := fst (get_team_rating st t) in
  let r := snd (get_team_rating st t) in
  predict_team round2 st1 (Some t')
  = (st1, R200 (mkView (canon t) (r_mu r) (r_sigma r)
                  (r_mu r - 3 * r_sigma r)
                  (round2 (team_confidence_from_sigma (r_sigma r) (env st1)))))
  /\ get_team_rating st1 t' = (st1, r).
Proof.
  intros Hne Hc. cbv zeta.
  pose proof (get_team_rating_reads st t) as R.
  destruct (get_team_rating st t) as [st1 r]. cbn [fst snd] in *.
  split.
  - unfold predict_team. destruct t' as [|c t']; [congruence|].
    cbn [opt_str_truthy str_truthy negb]. rewrite Hc, R. reflexivity.
  - unfold get_team_rating. rewrite Hc, R. reflexivity.
Qed.

End ReadBack.

Lemma rating_read_back_witness :
  let st1 := fst (get_team_rating init_state "FRC1") in
  " frc1 " <> "" /\ canon " frc1 " = canon "FRC1"
  /\ snd (predict_team demo_round2 st1 (Some " frc1 "))
     = R200 (mkView "frc1" 25 (25 # 3) (25 - 3 * (25 # 3))
               (team_confidence_from_sigma (25 # 3) env0))
  /\ get_team_rating st1 " frc1 " = (st1, prior).
Proof.
  cbv zeta.
  assert (H1 : " frc1 " <> "") by discriminate.
  assert (H2 : canon " frc1 " = canon "FRC1") by reflexivity.
  destruct (rating_read_back demo_round2 init_state "FRC1" " frc1 " H1 H2)
    as [P G].
  split; [exact H1|]. split; [exact H2|].
  split; [rewrite P; reflexivity | exact G].
Defined.

(** ** Predictions only add priors *)

Lemma extends_refl (s : store) : extends_by_priors s s.
Proof. intros k. now left. Qed.

Lemma extends_trans (s1 s2 s3 : store) :
  extends_by_priors s1 s2 -> extends_by_priors s2 s3 ->
  extends_by_priors s1 s3.
Proof.
  intros H12 H23 k.
  destruct (H23 k) as [E|[N P]].
  - rewrite E. apply H12.
  - right. split; [|exact P].
    destruct (H12 k) as [E|[N' _]]; congruence.
Qed.

Lemma get_team_rating_extends (st : State) (t : string) :
  extends_by_priors (TEAM_RATINGS st)
    (TEAM_RATINGS (fst (get_team_rating st t))).
Proof.
  unfold get_team_rating.
  destruct (store_get (canon t) (TEAM_RATINGS st)) eqn:E; cbn [fst];
    [apply extends_refl|].
  cbn [set_ratings TEAM_RATINGS]. intros k.
  destruct (string_dec (canon t) k) as [<-|Hne].
  - right. split; [exact E | apply store_get_set_same].
  - left. now apply store_get_set_other.
Qed.

Lemma get_team_ratings_extends (teams : list string) (st : State) :
  extends_by_priors (TEAM_RATINGS st)
    (TEAM_RATINGS (fst (get_team_ratings st teams))).
Proof.
  revert st. induction teams as [|t ts IH]; intros st; [apply extends_refl|].
  cbn [get_team_ratings].
  pose proof (get_team_rating_extends st t) as E1.
  destruct (get_team_rating st t) as [st1 r]. cbn [fst] in E1.
  specialize (IH st1).
  destruct (get_team_ratings st1 ts) as [st2 rs]. cbn [fst] in *.
  eapply extends_trans; eassumption.
Qed.

(** Reading from a table and from its extension by priors gives the same
    ratings, and the extension relation is kept. *)
Lemma get_team_ratings_under_extension (teams : list string) (st st' : State) :
  extends_by_priors (TEAM_RATINGS st) (TEAM_RATINGS st') ->
  snd (get_team_ratings st' teams) = snd (get_team_ratings st teams)
  /\ extends_by_priors (TEAM_RATINGS (fst (get_team_ratings st teams)))
       (TEAM_RATINGS (fst (get_team_ratings st' teams))).
Proof.
  revert st st'. induction teams as [|t ts IH]; intros st st' H.
  - cbn. auto.
  - cbn [get_team_ratings].
    assert (S : snd (get_team_rating st' t) = snd (get_team_rating st t)
                /\ extends_by_priors
                     (TEAM_RATINGS (fst (get_team_rating st t)))
                     (TEAM_RATINGS (fst (get_team_rating st' t)))).
    { unfold get_team_rating.
      destruct (H (canon t)) as [E|[N P]].
      - rewrite E.
        destruct (store_get (canon t) (TEAM_RATINGS st)); cbn [fst snd];
          [auto|].
        split; [reflexivity|]. cbn [set_ratings TEAM_RATINGS]. intros k.
        destruct (string_dec (canon t) k) as [<-|Hne].
        + left. now rewrite !store_get_set_same.
        + rewrite !store_get_set_other by exact Hne. apply H.
      - rewrite N, P. cbn [fst snd]. split; [reflexivity|].
        cbn [set_ratings TEAM_RATINGS]. intros k.
        destruct (string_dec (canon t) k) as [<-|Hne].
        + left. rewrite store_get_set_same. exact P.
        + rewrite store_get_set_other by exact Hne. apply H. }
    destruct (get_team_rating st t) as [a r], (get_team_rating st' t) as [a' r'].
    cbn [fst snd] in S. destruct S as [-> S].
    specialize (IH a a' S).
    destruct (get_team_ratings a ts) as [b rs],
      (get_team_ratings a' ts) as [b' rs'].
    cbn [fst snd] in *. destruct IH as [-> IH]. auto.
Qed.

Section PredictionsAddPriors.

Variable cdf : Q -> Q.
Variable sqrt : Q -> Q.
Variable round2 : Q -> Q.

Lemma predict_pair_frame (st : State) (teams1 teams2 : list string) :
  let st' := fst (predict_pair cdf sqrt st teams1 teams2) in
  env st' = env st /\ LAST_EVENT_KEY st' = LAST_EVENT_KEY st
  /\ LAST_YEAR st' = LAST_YEAR st
  /\ extends_by_priors (TEAM_RATINGS st) (TEAM_RATINGS st').
Proof.
  cbv zeta. rewrite predict_pair_state.
  pose proof (get_team_ratings_frame (teams1 ++ teams2) st) as (E & K & Y).
  repeat split; try assumption. apply get_team_ratings_extends.
Qed.

Lemma predict_pair_under_extension (st st' : State)
  (teams1 teams2 : list string) :
  env st' = env st ->
  extends_by_priors (TEAM_RATINGS st) (TEAM_RATINGS st') ->
  snd (predict_pair cdf sqrt st' teams1 teams2)
  = snd (predict_pair cdf sqrt st teams1 teams2).
Proof.
  intros He Hx. unfold predict_pair.
  pose proof (get_team_ratings_under_extension teams1 st st' Hx) as [R1 X1].
  pose proof (get_team_ratings_frame teams1 st) as (F1 & _).
  pose proof (get_team_ratings_frame teams1 st') as (F1' & _).
  destruct (get_team_ratings st teams1) as [a r1],
    (get_team_ratings st' teams1) as [a' r1'].
  cbn [fst snd] in *. subst r1'.
  pose proof (get_team_ratings_under_extension teams2 a a' X1) as [R2 X2].
  pose proof (get_team_ratings_frame teams2 a) as (F2 & _).
  pose proof (get_team_ratings_frame teams2 a') as (F2' & _).
  destruct (get_team_ratings a teams2) as [b r2],
    (get_team_ratings a' teams2) as [b' r2'].
  cbn [fst snd] in *. subst r2'.
  replace (env b') with (env b) by congruence. reflexivity.
Qed.

(** A prediction changes neither the environment nor the session context
    nor any belief already in the table: every key answers as before, or was
    absent and now holds the prior.  With an empty or missing alliance it
    answers 400 and changes nothing at all. *)
Theorem predict_match_only_adds_priors (st : State)
  (teams1 teams2 : option (list string)) :
  let st' := fst (predict_match cdf sqrt round2 st teams1 teams2) in
  env st' = env st /\ LAST_EVENT_KEY st' = LAST_EVENT_KEY st
  /\ LAST_YEAR st' = LAST_YEAR st
  /\ extends_by_priors (TEAM_RATINGS st) (TEAM_RATINGS st')
  /\ (forall k r,
        store_get k (TEAM_RATINGS st) = Some r ->
        store_get k (TEAM_RATINGS st') = Some r)
  /\ (list_truthy teams1 && list_truthy teams2 = false ->
      predict_match cdf sqrt round2 st teams1 teams2 = (st, R400)).
Proof.
  cbv zeta.
  assert (F : let st' := fst (predict_match cdf sqrt round2 st teams1 teams2) in
              env st' = env st /\ LAST_EVENT_KEY st' = LAST_EVENT_KEY st
              /\ LAST_YEAR st' = LAST_YEAR st
              /\ extends_by_priors (TEAM_RATINGS st) (TEAM_RATINGS st')).
  { cbv zeta. unfold predict_match.
    destruct (negb (list_truthy teams1) || negb (list_truthy teams2)).
    - cbn [fst]. repeat split. apply extends_refl.
    - pose proof (predict_pair_frame st (or_nil teams1) (or_nil teams2)) as F.
      destruct (predict_pair cdf sqrt st (or_nil teams1) (or_nil teams2)).
      exact F. }
  destruct F as (E & K & Y & X).
  repeat split; try assumption.
  - intros k r H. destruct (X k) as [Ek|[N _]]; congruence.
  - intros H. unfold predict_match.
    destruct (list_truthy teams1), (list_truthy teams2);
      try discriminate H; reflexivity.
Qed.

(** Each answer of a batch is the answer the same matchup gets on its own
    from the state before the batch: the priors entered for earlier items do
    not change later answers. *)
Theorem predict_batch_items_independent
  (data : list (option (list string) * option (list string))) (st : State) :
  snd (predict_batch cdf sqrt st data)
  = List.map (predict_item cdf sqrt st) data.
Proof.
  assert (G : forall data st st',
             env st' = env st ->
             extends_by_priors (TEAM_RATINGS st) (TEAM_RATINGS st') ->
             snd (predict_batch cdf sqrt st' data)
             = List.map (predict_item cdf sqrt st) data).
  { clear data st. induction data as [|[teams1 teams2] rest IH];
      intros st st' He Hx; [reflexivity|].
    cbn [predict_batch List.map]. unfold predict_item at 1. cbn [fst snd].
    destruct (negb (list_truthy teams1) || negb (list_truthy teams2)).
    - specialize (IH st st' He Hx).
      destruct (predict_batch cdf sqrt st' rest) as [st2 results].
      cbn [snd] in *. now rewrite IH.
    - pose proof (predict_pair_under_extension st st' (or_nil teams1)
                    (or_nil teams2) He Hx) as P.
      pose proof (predict_pair_frame st' (or_nil teams1) (or_nil teams2))
        as (E1 & _ & _ & X1).
      destruct (predict_pair cdf sqrt st' (or_nil teams1) (or_nil teams2))
        as [st1 p]. cbn [fst snd] in *.
      assert (He1 : env st1 = env st) by congruence.
      assert (Hx1 : extends_by_priors (TEAM_RATINGS st) (TEAM_RATINGS st1))
        by (eapply extends_trans; eassumption).
      specialize (IH st st1 He1 Hx1).
      destruct (predict_batch cdf sqrt st1 rest) as [st2 results].
      cbn [snd] in *. rewrite IH, P. reflexivity. }
  apply G; [reflexivity | apply extends_refl].
Qed.

End PredictionsAddPriors.

Lemma predict_match_only_adds_priors_witness :
  list_truthy (Some ["frc1"]) && list_truthy (@None (list string)) = false
  /\ predict_match demo_cdf demo_sqrt demo_round2 played_state
       (Some ["frc1"]) None
     = (played_state, R400)
  /\ store_get "frc2"
       (TEAM_RATINGS
          (fst (predict_match demo_cdf demo_sqrt demo_round2 played_state
                  (Some ["frc2"]) (Some ["frc9"]))))
     = Some (mkRating (25 + 1) (25 # 3)).
Proof.
  split; [reflexivity|].
  split.
  - apply (predict_match_only_adds_priors demo_cdf demo_sqrt demo_round2
             played_state (Some ["frc1"]) None).
    reflexivity.
  - apply (predict_match_only_adds_priors demo_cdf demo_sqrt demo_round2
             played_state (Some ["frc2"]) (Some ["frc9"])).
    reflexivity.
Defined.

(** ** Entries under keys that are not canonical *)

Lemma get_team_ratings_agree (teams : list string) (st1 st2 : State) :
  agree_on_canonical (TEAM_RATINGS st1) (TEAM_RATINGS st2) ->
  snd (get_team_ratings st1 teams) = snd (get_team_ratings st2 teams)
  /\ agree_on_canonical (TEAM_RATINGS (fst (get_team_ratings st1 teams)))
       (TEAM_RATINGS (fst (get_team_ratings st2 teams))).
Proof.
  revert st1 st2. induction teams as [|t ts IH]; intros st1 st2 H.
  - cbn. auto.
  - cbn [get_team_ratings].
    assert (S : snd (get_team_rating st1 t) = snd (get_team_rating st2 t)
                /\ agree_on_canonical
                     (TEAM_RATINGS (fst (get_team_rating st1 t)))
                     (TEAM_RATINGS (fst (get_team_rating st2 t)))).
    { unfold get_team_rating. rewrite <- (H (canon t) (canon_idem t)).
      destruct (store_get (canon t) (TEAM_RATINGS st1)); cbn [fst snd];
        [auto|].
      split; [reflexivity|]. cbn [set_ratings TEAM_RATINGS]. intros q Hq.
      destruct (string_dec (canon t) q) as [<-|Hne].
      - now rewrite !store_get_set_same.
      - rewrite !store_get_set_other by exact Hne. now apply H. }
    destruct (get_team_rating st1 t) as [a1 r1],
      (get_team_rating st2 t) as [a2 r2].
    cbn [fst snd] in S. destruct S as [-> S].
    specialize (IH a1 a2 S).
    destruct (get_team_ratings a1 ts) as [b1 rs1],
      (get_team_ratings a2 ts) as [b2 rs2].
    cbn [fst snd] in *. destruct IH as [-> IH]. auto.
Qed.

Section HiddenEntries.

Variable cdf : Q -> Q.
Variable sqrt : Q -> Q.
Variable round2 : Q -> Q.

Lemma predict_match_answer (st : State) (teams1 teams2 : option (list string)) :
  snd (predict_match cdf sqrt round2 st teams1 teams2)
  = if negb (list_truthy teams1) || negb (list_truthy teams2) then R400
    else
      let p := snd (predict_pair cdf sqrt st (or_nil teams1) (or_nil teams2)) in
      R200 (p, round2 (Qabs (2 * team1_win_prob p - 1) * 100)).
Proof.
  unfold predict_match.
  destruct (negb (list_truthy teams1) || negb (list_truthy teams2));
    [reflexivity|].
  destruct (predict_pair cdf sqrt st (or_nil teams1) (or_nil teams2)).
  reflexivity.
Qed.

(** A rating stored under a key that is not in canonical form is never
    read: team lookups and predictions answer as if the entry were not
    there.  This is what becomes of a result pushed for "FRC1". *)
Theorem noncanonical_entry_is_never_read (st : State) (k : string)
  (v : Rating) :
  canon k <> k ->
  let st' := set_ratings st (store_set k v (TEAM_RATINGS st)) in
  (forall team,
     snd (predict_team round2 st' team) = snd (predict_team round2 st team))
  /\ (forall teams1 teams2,
        snd (predict_match cdf sqrt round2 st' teams1 teams2)
        = snd (predict_match cdf sqrt round2 st teams1 teams2)).
Proof.
  intros Hk. cbv zeta.
  assert (A : agree_on_canonical (store_set k v (TEAM_RATINGS st))
                (TEAM_RATINGS st)).
  { intros q Hq. apply store_get_set_other. intros ->. now apply Hk. }
  split.
  - intros team. unfold predict_team.
    destruct (negb (opt_str_truthy team)); [reflexivity|].
    cbn [set_ratings TEAM_RATINGS env].
    rewrite (A _ (canon_idem _)).
    destruct (store_get _ (TEAM_RATINGS st)); reflexivity.
  - intros teams1 teams2. rewrite !predict_match_answer.
    destruct (negb (list_truthy teams1) || negb (list_truthy teams2));
      [reflexivity|].
    cbv zeta.
    assert (P : snd (predict_pair cdf sqrt
                       (set_ratings st (store_set k v (TEAM_RATINGS st)))
                       (or_nil teams1) (or_nil teams2))
                = snd (predict_pair cdf sqrt st (or_nil teams1)
                         (or_nil teams2))).
    { unfold predict_pair.
      pose proof (get_team_ratings_agree (or_nil teams1)
                    (set_ratings st (store_set k v (TEAM_RATINGS st))) st A)
        as [R1 A1].
      pose proof (get_team_ratings_frame (or_nil teams1)
                    (set_ratings st (store_set k v (TEAM_RATINGS st))))
        as (F1 & _).
      pose proof (get_team_ratings_frame (or_nil teams1) st) as (F1' & _).
      destruct (get_team_ratings (set_ratings st _) (or_nil teams1))
        as [a r1], (get_team_ratings st (or_nil teams1)) as [a' r1'].
      cbn [fst snd] in *. subst r1'.
      pose proof (get_team_ratings_agree (or_nil teams2) a a' A1) as [R2 A2].
      pose proof (get_team_ratings_frame (or_nil teams2) a) as (F2 & _).
      pose proof (get_team_ratings_frame (or_nil teams2) a') as (F2' & _).
      destruct (get_team_ratings a (or_nil teams2)) as [b r2],
        (get_team_ratings a' (or_nil teams2)) as [b' r2'].
      cbn [fst snd] in *. subst r2'.
      replace (env b) with (env b') by (cbn in F1; congruence).
      reflexivity. }
    now rewrite P.
Qed.

End HiddenEntries.

Lemma noncanonical_entry_is_never_read_witness :
  canon "FRC1" <> "FRC1"
  /\ snd (predict_team demo_round2
            (set_ratings played_state
               (store_set "FRC1" (mkRating 40 1) (TEAM_RATINGS played_state)))
            (Some "FRC1"))
     = snd (predict_team demo_round2 played_state (Some "FRC1")).
Proof.
  assert (H : canon "FRC1" <> "FRC1") by discriminate.
  split; [exact H|].
  apply (noncanonical_entry_is_never_read demo_cdf demo_sqrt demo_round2
           played_state "FRC1" (mkRating 40 1) H).
Defined.

(** ** Pushing results *)

Section PushMore.

Variable rate :
  Env -> list Rating -> list Rating -> list Z ->
  option (list Rating * list Rating).

Lemma rate_and_store_frame (st : State) (teams1 teams2 : list string)
  (ranks : list Z) :
  let st' := fst (rate_and_store rate st teams1 teams2 ranks) in
  env st' = env st /\ LAST_EVENT_KEY st' = LAST_EVENT_KEY st
  /\ LAST_YEAR st' = LAST_YEAR st.
Proof.
  cbv zeta. unfold rate_and_store.
  pose proof (get_team_ratings_frame teams1 st) as F1.
  destruct (get_team_ratings st teams1) as [st1 r1]. cbn [fst] in F1.
  pose proof (get_team_ratings_frame teams2 st1) as F2.
  destruct (get_team_ratings st1 teams2) as [st2 r2]. cbn [fst] in F2.
  destruct (rate (env st2) r1 r2 ranks) as [[n1 n2]|]; cbn;
    intuition congruence.
Qed.

Lemma push_loop_count (data : list push_record) (st : State) (n : nat) :
  push_loop rate st data n
  = match push_loop rate st data 0 with
    | (st', Done k) => (st', Done (n + k)%nat)
    | (st', Raised) => (st', Raised)
    end.
Proof.
  revert st n. induction data as [|m rest IH]; intros st n.
  - cbn. now rewrite Nat.add_0_r.
  - cbn [push_loop].
    destruct (p_teams1 m) as [[|t1 ts1]|]; try apply IH.
    destruct (p_teams2 m) as [[|t2 ts2]|]; try apply IH.
    destruct (p_score1 m) as [s1|]; try apply IH.
    destruct (p_score2 m) as [s2|]; try apply IH.
    destruct (rate_and_store rate st (t1 :: ts1) (t2 :: ts2) (ranks_of s1 s2))
      as [st' []]; [|reflexivity].
    rewrite (IH st' (S n)), (IH st' 1%nat).
    destruct (push_loop rate st' rest 0) as [st2 [k|]]; [|reflexivity].
    f_equal. f_equal. lia.
Qed.

Lemma push_loop_app (d1 d2 : list push_record) (st : State) (n : nat) :
  push_loop rate st (d1 ++ d2) n
  = match push_loop rate st d1 n with
    | (st1, Done n1) => push_loop rate st1 d2 n1
    | (st1, Raised) => (st1, Raised)
    end.
Proof.
  revert st n. induction d1 as [|m rest IH]; intros st n; [reflexivity|].
  cbn [app push_loop].
  destruct (p_teams1 m) as [[|t1 ts1]|]; try apply IH.
  destruct (p_teams2 m) as [[|t2 ts2]|]; try apply IH.
  destruct (p_score1 m) as [s1|]; try apply IH.
  destruct (p_score2 m) as [s2|]; try apply IH.
  destruct (rate_and_store rate st (t1 :: ts1) (t2 :: ts2) (ranks_of s1 s2))
    as [st' []]; [apply IH | reflexivity].
Qed.

(** Pushing a batch is pushing its first part and then the rest from the
    state reached, the counts adding up; when [rate] raises in the first
    part the rest is not looked at, and what was applied before stays
    applied. *)
Theorem push_results_in_parts (d1 d2 : list push_record) (st : State) :
  push_results rate st (d1 ++ d2)
  = then_push (push_results rate st d1) (fun st1 => push_results rate st1 d2).
Proof.
  unfold push_results, then_push. rewrite push_loop_app.
  destruct (push_loop rate st d1 0) as [st1 [n1|]]; [|reflexivity].
  rewrite push_loop_count.
  destruct (push_loop rate st1 d2 0) as [st2 [n2|]]; reflexivity.
Qed.

(** When the batch goes through, the count is the number of records that
    have both alliances and both scores, and so at most the length of the
    batch; the environment and the session context are as before. *)
Theorem push_results_count (data : list push_record) (st st' : State)
  (n : nat) :
  push_results rate st data = (st', Done n) ->
  n = List.length (filter (fun m => negb (push_skips m)) data)
  /\ (n <= List.length data)%nat
  /\ env st' = env st /\ LAST_EVENT_KEY st' = LAST_EVENT_KEY st
  /\ LAST_YEAR st' = LAST_YEAR st.
Proof.
  unfold push_results.
  assert (G : forall data st k st' n,
             push_loop rate st data k = (st', Done n) ->
             n = (k + List.length
                        (filter (fun m => negb (push_skips m)) data))%nat
             /\ env st' = env st /\ LAST_EVENT_KEY st' = LAST_EVENT_KEY st
             /\ LAST_YEAR st' = LAST_YEAR st).
  { clear. induction data as [|m rest IH]; intros st k st' n H.
    - cbn in H. inversion H; subst. cbn. rewrite Nat.add_0_r. auto.
    - cbn [filter]. destruct (push_skips m) eqn:E.
      + rewrite push_loop_skip in H by exact E. cbn [negb]. eauto.
      + cbn [negb]. unfold push_skips in E.
        destruct m as [[[|a l1]|] [[|b l2]|] [s1|] [s2|]]; try discriminate E.
        cbn [push_loop p_teams1 p_teams2 p_score1 p_score2] in H.
        pose proof (rate_and_store_frame st (a :: l1) (b :: l2)
                      (ranks_of s1 s2)) as F.
        destruct (rate_and_store rate st (a :: l1) (b :: l2) (ranks_of s1 s2))
          as [st1 []]; [|discriminate H].
        cbn [fst] in F. apply IH in H. cbn [List.length].
        destruct H as (-> & E1 & E2 & E3).
        split; [lia|]. intuition congruence. }
  intros H. apply G in H. destruct H as (-> & E1 & E2 & E3).
  cbn [Nat.add]. repeat split; try assumption.
  apply filter_length_le.
Qed.

End PushMore.

Lemma push_results_count_witness :
  exists st',
    push_results demo_rate init_state three_pushes = (st', Done 2%nat)
    /\ 2%nat
       = List.length (filter (fun m => negb (push_skips m)) three_pushes)
    /\ env st' = env init_state.
Proof.
  eexists. split; [reflexivity|].
  destruct (push_results_count demo_rate three_pushes init_state _ 2%nat
              eq_refl) as (H & _ & E & _).
  split; [exact H | exact E].
Defined.

(** ** Canonical requests keep the table canonical *)

Section CanonicalRequests.

Variable rate :
  Env -> list Rating -> list Rating -> list Z ->
  option (list Rating * list Rating).

Lemma get_team_ratings_canonical (teams : list string) (st : State) :
  all_canonical (TEAM_RATINGS st) ->
  all_canonical (TEAM_RATINGS (fst (get_team_ratings st teams))).
Proof.
  intros H k Hk. apply get_team_ratings_keys in Hk.
  destruct Hk as [(t & _ & ->)|Hk]; [apply canon_idem | now apply H].
Qed.

Lemma write_back_canonical (teams : list string) (rs : list Rating)
  (s : store) :
  canonical_keys teams -> all_canonical s ->
  all_canonical (write_back teams rs s).
Proof.
  intros Ht Hs k Hk. apply keys_write_back in Hk.
  destruct Hk as [Hk|Hk]; [now apply Ht | now apply Hs].
Qed.

Lemma rate_and_store_canonical (st : State) (teams1 teams2 : list string)
  (ranks : list Z) :
  canonical_keys (teams1 ++ teams2) ->
  all_canonical (TEAM_RATINGS st) ->
  all_canonical (TEAM_RATINGS (fst (rate_and_store rate st teams1 teams2 ranks))).
Proof.
  intros Ht Hs. unfold rate_and_store.
  pose proof (get_team_ratings_canonical teams1 st Hs) as C1.
  destruct (get_team_ratings st teams1) as [st1 r1]. cbn [fst] in C1.
  pose proof (get_team_ratings_canonical teams2 st1 C1) as C2.
  destruct (get_team_ratings st1 teams2) as [st2 r2]. cbn [fst] in C2.
  destruct (rate (env st2) r1 r2 ranks) as [[n1 n2]|]; cbn [fst]; [|exact C2].
  cbn [set_ratings TEAM_RATINGS].
  apply write_back_canonical; [intros t H; apply Ht, in_or_app; now right|].
  apply write_back_canonical; [intros t H; apply Ht, in_or_app; now left|].
  exact C2.
Qed.

Lemma push_loop_canonical (data : list push_record) (st : State) (n : nat) :
  canonical_keys (push_refs data) ->
  all_canonical (TEAM_RATINGS st) ->
  all_canonical (TEAM_RATINGS (fst (push_loop rate st data n))).
Proof.
  revert st n. induction data as [|m rest IH]; intros st n Hd Hs; [exact Hs|].
  assert (Hrest : canonical_keys (push_refs rest)).
  { intros t H. apply Hd. unfold push_refs. cbn [flat_map].
    apply in_or_app. now right. }
  destruct m as [[[|a l1]|] [[|b l2]|] [s1|] [s2|]];
    try (now apply IH).
  cbn [push_loop p_teams1 p_teams2 p_score1 p_score2].
  pose proof (rate_and_store_canonical st (a :: l1) (b :: l2)
                (ranks_of s1 s2)) as C.
  destruct (rate_and_store rate st (a :: l1) (b :: l2) (ranks_of s1 s2))
    as [st' []]; cbn [fst] in C.
  - apply IH; [exact Hrest|]. apply C; [|exact Hs].
    intros t H. apply Hd. unfold push_refs. cbn [flat_map or_nil].
    apply in_or_app. now left.
  - cbn [fst]. apply C; [|exact Hs].
    intros t H. apply Hd. unfold push_refs. cbn [flat_map or_nil].
    apply in_or_app. now left.
Qed.

Lemma replay_canonical (req : update_request) (matches : list tba_match)
  (st : State) :
  canonical_keys (match_refs matches) ->
  all_canonical (TEAM_RATINGS st) ->
  all_canonical (TEAM_RATINGS (fst (replay rate req st matches))).
Proof.
  revert st. induction matches as [|m rest IH]; intros st Hd Hs; [exact Hs|].
  assert (Hrest : canonical_keys (match_refs rest)).
  { intros t H. apply Hd. unfold match_refs. cbn [flat_map].
    apply in_or_app. now right. }
  cbn [replay].
  destruct (alliances m) as [[red blue]|] eqn:EA; [|now apply IH].
  assert (Hm : canonical_keys
                 (team_keys (or_empty_alliance red)
                  ++ team_keys (or_empty_alliance blue))).
  { intros t H. apply Hd. unfold match_refs. cbn [flat_map]. rewrite EA.
    apply in_or_app. now left. }
  assert (Main :
    all_canonical (TEAM_RATINGS (fst
      match score (or_empty_alliance red), score (or_empty_alliance blue) with
      | Some score1, Some score2 =>
          if (score1 <? 0)%Z || (score2 <? 0)%Z then replay rate req st rest
          else
            match rate_and_store rate st (team_keys (or_empty_alliance red))
                    (team_keys (or_empty_alliance blue))
                    (ranks_of score1 score2) with
            | (st', true) => replay rate req (set_context st' req) rest
            | (st', false) => (st', false)
            end
      | _, _ => replay rate req st rest
      end))).
  { destruct (score (or_empty_alliance red)) as [s1|]; [|now apply IH].
    destruct (score (or_empty_alliance blue)) as [s2|]; [|now apply IH].
    destruct ((s1 <? 0)%Z || (s2 <? 0)%Z); [now apply IH|].
    pose proof (rate_and_store_canonical st
                  (team_keys (or_empty_alliance red))
                  (team_keys (or_empty_alliance blue)) (ranks_of s1 s2) Hm Hs)
      as C.
    destruct (rate_and_store rate st _ _ _) as [st' []]; cbn [fst] in C.
    - apply IH; [exact Hrest | exact C].
    - exact C. }
  destruct red as [red|], blue as [blue|]; exact Main.
Qed.

(** When every team key of a pushed batch is already trimmed lowercase, a
    canonical table stays canonical, and so holds one entry per team; the
    same holds for the table a rebuild makes from matches whose team keys
    are canonical. *)
Theorem canonical_requests_keep_one_entry_per_team (st : State)
  (data : list push_record) (req : update_request)
  (matches : list tba_match) :
  (canonical_keys (push_refs data) ->
   all_canonical (TEAM_RATINGS st) ->
   all_canonical (TEAM_RATINGS (fst (push_results rate st data)))
   /\ canonical_unique (TEAM_RATINGS (fst (push_results rate st data))))
  /\ (canonical_keys (match_refs matches) ->
      all_canonical (TEAM_RATINGS (fst (rebuild_from rate req st matches)))
      /\ canonical_unique
           (TEAM_RATINGS (fst (rebuild_from rate req st matches)))).
Proof.
  split.
  - intros Hd Hs.
    assert (C : all_canonical (TEAM_RATINGS (fst (push_results rate st data))))
      by now apply push_loop_canonical.
    split; [exact C | now apply canonical_is_unique].
  - intros Hd.
    assert (C : all_canonical
                  (TEAM_RATINGS (fst (rebuild_from rate req st matches)))).
    { unfold rebuild_from.
      pose proof (replay_canonical req
                    (py_sorted Z.leb sort_key_v3 matches)
                    (set_ratings st [])) as R.
      destruct (replay rate req (set_ratings st [])
                  (py_sorted Z.leb sort_key_v3 matches)) as [st' []];
        cbn [fst] in *; apply R;
        try (intros k []);
        intros t Ht; apply Hd;
        (eapply match_refs_incl; [|exact Ht]);
        intros m Hm; now apply py_sorted_In in Hm. }
    split; [exact C | now apply canonical_is_unique].
Qed.

End CanonicalRequests.

Lemma canonical_requests_keep_one_entry_per_team_witness :
  canonical_keys (push_refs three_pushes)
  /\ all_canonical (TEAM_RATINGS init_state)
  /\ canonical_unique
       (TEAM_RATINGS (fst (push_results demo_rate init_state three_pushes)))
  /\ keys (TEAM_RATINGS (fst (push_results demo_rate init_state three_pushes)))
     = ["frc1"; "frc2"; "frc3"].
Proof.
  assert (H1 : canonical_keys (push_refs three_pushes)).
  { intros t Ht. cbn in Ht.
    repeat (destruct Ht as [<-|Ht]; [reflexivity|]). destruct Ht. }
  assert (H2 : all_canonical (TEAM_RATINGS init_state)) by (intros k []).
  split; [exact H1|]. split; [exact H2|].
  split; [|reflexivity].
  exact (proj2 (proj1 (canonical_requests_keep_one_entry_per_team demo_rate
                         init_state three_pushes (mkUpdate None None) [])
                  H1 H2)).
Defined.

(** ** The rebuild *)

Lemma get_team_ratings_table_only (teams : list string) (st1 st2 : State) :
  TEAM_RATINGS st1 = TEAM_RATINGS st2 ->
  snd (get_team_ratings st1 teams) = snd (get_team_ratings st2 teams)
  /\ TEAM_RATINGS (fst (get_team_ratings st1 teams))
     = TEAM_RATINGS (fst (get_team_ratings st2 teams)).
Proof.
  revert st1 st2. induction teams as [|t ts IH]; intros st1 st2 H.
  - cbn. auto.
  - cbn [get_team_ratings].
    assert (S : snd (get_team_rating st1 t) = snd (get_team_rating st2 t)
                /\ TEAM_RATINGS (fst (get_team_rating st1 t))
                   = TEAM_RATINGS (fst (get_team_rating st2 t))).
    { unfold get_team_rating. rewrite H.
      destruct (store_get (canon t) (TEAM_RATINGS st2)); cbn; auto. }
    destruct (get_team_rating st1 t) as [a1 r1],
      (get_team_rating st2 t) as [a2 r2].
    cbn [fst snd] in S. destruct S as [-> S].
    specialize (IH a1 a2 S).
    destruct (get_team_ratings a1 ts) as [b1 rs1],
      (get_team_ratings a2 ts) as [b2 rs2].
    cbn [fst snd] in *. destruct IH as [-> IH]. auto.
Qed.


Section RebuildMore.

Variable rate :
  Env -> list Rating -> list Rating -> list Z ->
  option (list Rating * list Rating).

Lemma rate_and_store_table_only (st1 st2 : State) (teams1 teams2 : list string)
  (ranks : list Z) :
  env st1 = env st2 -> TEAM_RATINGS st1 = TEAM_RATINGS st2 ->
  snd (rate_and_store rate st1 teams1 teams2 ranks)
  = snd (rate_and_store rate st2 teams1 teams2 ranks)
  /\ TEAM_RATINGS (fst (rate_and_store rate st1 teams1 teams2 ranks))
     = TEAM_RATINGS (fst (rate_and_store rate st2 teams1 teams2 ranks)).
Proof.
  intros He Ht. unfold rate_and_store.
  pose proof (get_team_ratings_table_only teams1 st1 st2 Ht) as [R1 T1].
  pose proof (get_team_ratings_frame teams1 st1) as (F1 & _).
  pose proof (get_team_ratings_frame teams1 st2) as (F1' & _).
  destruct (get_team_ratings st1 teams1) as [a r1],
    (get_team_ratings st2 teams1) as [a' r1'].
  cbn [fst snd] in *. subst r1'.
  pose proof (get_team_ratings_table_only teams2 a a' T1) as [R2 T2].
  pose proof (get_team_ratings_frame teams2 a) as (F2 & _).
  pose proof (get_team_ratings_frame teams2 a') as (F2' & _).
  destruct (get_team_ratings a teams2) as [b r2],
    (get_team_ratings a' teams2) as [b' r2'].
  cbn [fst snd] in *. subst r2'.
  replace (env b') with (env b) by congruence.
  destruct (rate (env b) r1 r2 ranks) as [[n1 n2]|]; cbn; [|auto].
  now rewrite T2.
Qed.

Lemma replay_table_only (req : update_request) (matches : list tba_match)
  (st1 st2 : State) :
  env st1 = env st2 -> TEAM_RATINGS st1 = TEAM_RATINGS st2 ->
  snd (replay rate req st1 matches) = snd (replay rate req st2 matches)
  /\ TEAM_RATINGS (fst (replay rate req st1 matches))
     = TEAM_RATINGS (fst (replay rate req st2 matches)).
Proof.
  revert st1 st2. induction matches as [|m rest IH]; intros st1 st2 He Ht.
  - cbn. auto.
  - cbn [replay].
    destruct (alliances m) as [[red blue]|]; [|now apply IH].
    set (go := fun st : State =>
      match score (or_empty_alliance red), score (or_empty_alliance blue) with
      | Some score1, Some score2 =>
          if (score1 <? 0)%Z || (score2 <? 0)%Z then replay rate req st rest
          else
            match rate_and_store rate st (team_keys (or_empty_alliance red))
                    (team_keys (or_empty_alliance blue))
                    (ranks_of score1 score2) with
            | (st', true) => replay rate req (set_context st' req) rest
            | (st', false) => (st', false)
            end
      | _, _ => replay rate req st rest
      end).
    assert (Main : snd (go st1) = snd (go st2)
                   /\ TEAM_RATINGS (fst (go st1)) = TEAM_RATINGS (fst (go st2))).
    { subst go. cbv beta.
      destruct (score (or_empty_alliance red)) as [s1|]; [|now apply IH].
      destruct (score (or_empty_alliance blue)) as [s2|]; [|now apply IH].
      destruct ((s1 <? 0)%Z || (s2 <? 0)%Z); [now apply IH|].
      pose proof (rate_and_store_table_only st1 st2
                    (team_keys (or_empty_alliance red))
                    (team_keys (or_empty_alliance blue)) (ranks_of s1 s2)
                    He Ht) as [S T].
      pose proof (rate_and_store_frame rate st1
                    (team_keys (or_empty_alliance red))
                    (team_keys (or_empty_alliance blue)) (ranks_of s1 s2))
        as (E1 & _).
      pose proof (rate_and_store_frame rate st2
                    (team_keys (or_empty_alliance red))
                    (team_keys (or_empty_alliance blue)) (ranks_of s1 s2))
        as (E2 & _).
      destruct (rate_and_store rate st1 _ _ _) as [a b],
        (rate_and_store rate st2 _ _ _) as [a' b'].
      cbn [fst snd] in *. subst b'.
      destruct b; [|cbn; auto].
      apply IH; cbn; congruence. }
    subst go. cbv beta in Main.
    destruct red as [red|], blue as [blue|]; exact Main.
Qed.

(** The table and the answer of a rebuild depend on the environment and on
    the fetched matches alone: whatever the table held before is gone. *)
Theorem rebuild_forgets_previous_table (req : update_request)
  (st1 st2 : State) (matches : list tba_match) :
  env st1 = env st2 ->
  TEAM_RATINGS (fst (rebuild_from rate req st1 matches))
  = TEAM_RATINGS (fst (rebuild_from rate req st2 matches))
  /\ snd (rebuild_from rate req st1 matches)
     = snd (rebuild_from rate req st2 matches).
Proof.
  intros He. unfold rebuild_from.
  pose proof (replay_table_only req (py_sorted Z.leb sort_key_v3 matches)
                (set_ratings st1 []) (set_ratings st2 []) He eq_refl)
    as [S T].
  destruct (replay rate req (set_ratings st1 []) _) as [a b],
    (replay rate req (set_ratings st2 []) _) as [a' b'].
  cbn [fst snd] in *. subst b'.
  destruct b; cbn [fst snd]; rewrite ?T; auto.
Qed.

Lemma replay_skip_step (req : update_request) (m : tba_match)
  (rest : list tba_match) (st : State) :
  replay_skips m = true ->
  replay rate req st (m :: rest) = replay rate req st rest.
Proof.
  intros RS. rewrite replay_filter. cbn [filter]. rewrite RS. cbn [negb].
  now rewrite <- replay_filter.
Qed.

Lemma replay_context (req : update_request) (matches : list tba_match)
  (st st' : State) :
  replay rate req st matches = (st', true) ->
  env st' = env st
  /\ context st'
     = match replayed matches with
       | [] => context st
       | _ :: _ => context_of req
       end.
Proof.
  revert st. induction matches as [|m rest IH]; intros st H.
  - cbn in H. inversion H; subst. auto.
  - unfold replayed in *. cbn [filter].
    destruct (replay_skips m) eqn:RS; cbn [negb].
    + rewrite replay_skip_step in H by exact RS. now apply IH.
    + cbn [replay] in H. unfold replay_skips, score_unplayed in RS.
      revert H RS.
      destruct (alliances m) as [[[red|] [blue|]]|];
        cbn [or_empty_alliance score];
        repeat match goal with
               | |- context [score ?a] => destruct (score a)
               end;
        cbn [orb]; intros H RS; try discriminate RS;
        try (rewrite orb_true_r in RS; discriminate RS);
        rewrite RS in H;
        match type of H with
        | context [rate_and_store rate st ?a ?b ?c] =>
            pose proof (rate_and_store_frame rate st a b c) as (E & _);
            destruct (rate_and_store rate st a b c) as [st1 []];
            [|discriminate H]
        end;
        cbn [fst] in E;
        destruct (IH _ H) as [E' C];
        (split; [cbn in E'; congruence|]);
        rewrite C;
        destruct (filter _ rest); reflexivity.
Qed.

(** A rebuild that goes through answers with the size of the new table and
    keeps the environment.  It records the request as the session context
    only if it applied a match: when every fetched match is skipped the table
    is left empty and the context of the earlier rebuild stays. *)
Theorem rebuild_records_context_when_applied (req : update_request)
  (st st' : State) (matches : list tba_match) (n : nat) :
  rebuild_from rate req st matches = (st', R200 n) ->
  n = List.length (TEAM_RATINGS st')
  /\ env st' = env st
  /\ (replayed matches <> [] -> context st' = context_of req)
  /\ (replayed matches = [] ->
      context st' = context st /\ TEAM_RATINGS st' = []).
Proof.
  unfold rebuild_from. intros H.
  destruct (replay rate req (set_ratings st [])
              (py_sorted Z.leb sort_key_v3 matches)) as [a b] eqn:R.
  destruct b; [|discriminate H]. inversion H; subst. clear H.
  pose proof (replay_context req _ _ _ R) as [E C].
  assert (P : Permutation (replayed (py_sorted Z.leb sort_key_v3 matches))
                (replayed matches)).
  { unfold replayed.
    assert (F : forall l1 l2 : list tba_match,
               Permutation l1 l2 ->
               Permutation (filter (fun m => negb (replay_skips m)) l1)
                 (filter (fun m => negb (replay_skips m)) l2)).
    { induction 1 as [|x l1 l2 Hp IHp|x y l|l1 l2 l3 H1 IH1 H2 IH2];
        cbn [filter].
      - constructor.
      - destruct (negb (replay_skips x)); [now constructor | exact IHp].
      - destruct (negb (replay_skips x)), (negb (replay_skips y));
          try apply Permutation_refl; apply perm_swap.
      - eapply Permutation_trans; eassumption. }
    apply F, py_sorted_perm. }
  split; [reflexivity|]. split; [exact E|].
  split.
  - intros Hne. rewrite C.
    destruct (replayed (py_sorted Z.leb sort_key_v3 matches)) eqn:Er;
      [|reflexivity].
    apply Permutation_nil in P. congruence.
  - intros He. rewrite He in P. apply Permutation_sym, Permutation_nil in P.
    rewrite P in C. split; [exact C|].
    rewrite replay_filter in R. fold (replayed (py_sorted Z.leb sort_key_v3
                                                  matches)) in R.
    rewrite P in R. cbn in R. inversion R. reflexivity.
Qed.


(** A rebuild enters only teams of matches it applies: every key of the new
    table stands for a team of a match with both scores present and not
    negative. *)
Theorem rebuild_enters_played_teams_only (req : update_request) (st : State)
  (matches : list tba_match) :
  keys_from (match_refs (replayed matches))
    (TEAM_RATINGS (fst (rebuild_from rate req st matches))).
Proof.
  assert (G : grows_by (match_refs (replayed matches)) []
                (TEAM_RATINGS (fst (rebuild_from rate req st matches)))).
  { unfold rebuild_from.
    pose proof (replay_grows rate req
                  (replayed (py_sorted Z.leb sort_key_v3 matches))
                  (set_ratings st [])) as G.
    unfold replayed in G at 2. rewrite <- replay_filter in G.
    destruct (replay rate req (set_ratings st [])
                (py_sorted Z.leb sort_key_v3 matches)) as [st' []];
      cbn [fst] in *;
      (eapply grows_by_weaken; [|exact G]);
      apply match_refs_incl; intros m Hm; unfold replayed in *;
      apply filter_In in Hm; destruct Hm as [Hm Hr]; apply filter_In;
      (split; [now apply py_sorted_In in Hm | exact Hr]). }
  intros k Hk. destruct (G k Hk) as [H|[]]. exact H.
Qed.

(** A request naming both an event and a year, or neither, is answered 400,
    and a missing provider key 500, without any request to the provider and
    with the state untouched. *)
Theorem update_ratings_rejects_bad_requests (P : provider) (st : State)
  (req : update_request) :
  (opt_str_truthy (u_event_key req) = opt_z_truthy (u_year req) ->
   update_ratings rate P st req = (st, R400))
  /\ (opt_str_truthy (u_event_key req) <> opt_z_truthy (u_year req) ->
      auth_key_set P = false ->
      update_ratings rate P st req = (st, R500)).
Proof.
  unfold update_ratings. split.
  - intros H. rewrite H. destruct (opt_z_truthy (u_year req)); reflexivity.
  - intros H K. rewrite K.
    destruct (opt_str_truthy (u_event_key req)),
      (opt_z_truthy (u_year req)); try reflexivity; congruence.
Qed.

End RebuildMore.

Lemma rebuild_forgets_previous_table_witness :
  env earlier_state = env init_state
  /\ TEAM_RATINGS
       (fst (rebuild_from demo_rate season_request earlier_state
               one_played_one_not))
     = TEAM_RATINGS
         (fst (rebuild_from demo_rate season_request init_state
                 one_played_one_not)).
Proof.
  split; [reflexivity|].
  apply (rebuild_forgets_previous_table demo_rate season_request
           earlier_state init_state one_played_one_not eq_refl).
Defined.

Lemma rebuild_records_context_when_applied_witness :
  exists st',
    rebuild_from demo_rate season_request earlier_state one_played_one_not
    = (st', R200 2%nat)
    /\ replayed one_played_one_not <> []
    /\ context st' = (None, Some 2025%Z)
    /\ keys (TEAM_RATINGS st') = ["frc1"; "frc2"].
Proof.
  eexists. split; [reflexivity|].
  assert (Hne : replayed one_played_one_not <> []) by discriminate.
  split; [exact Hne|]. split; [|reflexivity].
  destruct (rebuild_records_context_when_applied demo_rate season_request
              earlier_state _ one_played_one_not 2%nat eq_refl)
    as (_ & _ & C & _).
  exact (C Hne).
Defined.


Lemma update_ratings_rejects_bad_requests_witness :
  update_ratings demo_rate flaky_provider earlier_state
    (mkUpdate (Some "2025nyrr") (Some 2025%Z))
  = (earlier_state, R400)
  /\ update_ratings demo_rate flaky_provider earlier_state
       (mkUpdate (Some "") None)
     = (earlier_state, R400)
  /\ update_ratings demo_rate
       (mkProvider false (event_matches flaky_provider)
          (year_events flaky_provider))
       earlier_state season_request
     = (earlier_state, R500).
Proof.
  split; [|split].
  - apply (update_ratings_rejects_bad_requests demo_rate flaky_provider
             earlier_state (mkUpdate (Some "2025nyrr") (Some 2025%Z))).
    reflexivity.
  - apply (update_ratings_rejects_bad_requests demo_rate flaky_provider
             earlier_state (mkUpdate (Some "") None)).
    reflexivity.
  - apply (update_ratings_rejects_bad_requests demo_rate
             (mkProvider false (event_matches flaky_provider)
                (year_events flaky_provider))
             earlier_state season_request);
      [discriminate | reflexivity].
Defined.

(** ** Importing snapshots *)

Lemma store_set_length (k : string) (v : Rating) (s : store) :
  (List.length (store_set k v s) <= S (List.length s))%nat.
Proof.
  induction s as [|[k' v'] s IH]; cbn; [lia|].
  destruct (String.eqb k k'); cbn; lia.
Qed.

Section ImportMore.

Variable round2 : Q -> Q.
Variable float_of_str : string -> option Q.

Lemma load_entries_app (e : Env) (l1 l2 : list team_entry) (s : store) :
  load_entries float_of_str e s (l1 ++ l2)
  = match load_entries float_of_str e s l1 with
    | (s1, true) => load_entries float_of_str e s1 l2
    | (s1, false) => (s1, false)
    end.
Proof.
  revert s. induction l1 as [|entry rest IH]; intros s; [reflexivity|].
  cbn [app load_entries].
  destruct (e_team_key entry) as [[k|]|]; try apply IH;
    (destruct (negb (str_truthy _) || is_none (e_mu entry)
               || is_none (e_sigma entry)); [apply IH|]);
    (destruct (e_mu entry) as [mu|]; [|apply IH]);
    (destruct (e_sigma entry) as [sigma|]; [|apply IH]);
    (destruct (py_float float_of_str mu); [|reflexivity]);
    (destruct (py_float float_of_str sigma); [|reflexivity]);
    (destruct (rating_raises _); [reflexivity|]);
    apply IH.
Qed.

(** One well-formed entry: what the loop does with it. *)
Lemma load_entries_step (e : Env) (s : store) (entry : team_entry)
  (rest : list team_entry) :
  malformed_entry entry = false ->
  exists k mu sigma,
    e_team_key entry = Some (Some k) /\ str_truthy (canon k) = true
    /\ e_mu entry = Some mu /\ e_sigma entry = Some sigma
    /\ load_entries float_of_str e s (entry :: rest)
       = match py_float float_of_str mu, py_float float_of_str sigma with
         | Some m, Some sg =>
             if rating_raises sg then (s, false)
             else
               load_entries float_of_str e
                 (store_set (canon k) (mkRating m (Qabs sg)) s) rest
         | _, _ => (s, false)
         end.
Proof.
  unfold malformed_entry. intros M.
  destruct entry as [[[k|]|] mu sigma c p]; cbn in M; try discriminate M.
  apply orb_false_iff in M. destruct M as [M Hs].
  apply orb_false_iff in M. destruct M as [Hk Hm].
  destruct mu as [mu|]; [|discriminate Hm].
  destruct sigma as [sigma|]; [|discriminate Hs].
  exists k, mu, sigma.
  cbn [e_team_key e_mu e_sigma load_entries].
  rewrite Hk, Hm, Hs. cbn [orb].
  apply negb_false_iff in Hk. repeat split; try reflexivity; exact Hk.
Qed.

Lemma load_entries_snapshot_table (e : Env) (entries : list team_entry)
  (s : store) :
  snapshot_table s ->
  snapshot_table (fst (load_entries float_of_str e s entries))
  /\ (List.length (fst (load_entries float_of_str e s entries))
      <= List.length s + List.length entries)%nat.
Proof.
  revert s. induction entries as [|entry rest IH]; intros s H.
  - cbn. split; [exact H | lia].
  - destruct (malformed_entry entry) eqn:M.
    + rewrite load_entries_skip by exact M.
      destruct (IH s H) as [G L]. split; [exact G | cbn [List.length]; lia].
    + destruct (load_entries_step e s entry rest M)
        as (k & mu & sigma & _ & Hk & _ & _ & ->).
      destruct (py_float float_of_str mu) as [m|];
        [|cbn; split; [exact H | lia]].
      destruct (py_float float_of_str sigma) as [sg|];
        [|cbn; split; [exact H | lia]].
      destruct (rating_raises sg); [cbn; split; [exact H | lia]|].
      assert (H' : snapshot_table
                     (store_set (canon k) (mkRating m (Qabs sg)) s)).
      { destruct H as (C & N & B). repeat split.
        - intros q Hq. apply keys_store_set in Hq.
          destruct Hq as [->|Hq]; [apply canon_idem | now apply C].
        - now apply NoDup_store_set.
        - intros Hq. apply keys_store_set in Hq.
          destruct Hq as [Hq|Hq]; [|now apply B].
          rewrite <- Hq in Hk. discriminate Hk. }
      destruct (IH _ H') as [G L]. split; [exact G|].
      pose proof (store_set_length (canon k) (mkRating m (Qabs sg)) s).
      cbn [List.length]. lia.
Qed.

Lemma In_store_set (k k' : string) (r v : Rating) (s : store) :
  In (k, r) (store_set k' v s) -> (k, r) = (k', v) \/ In (k, r) s.
Proof.
  induction s as [|[k0 v0] s IH]; cbn.
  - intros [H|[]]. left. now symmetry.
  - destruct (String.eqb k' k0); cbn.
    + intros [H|H]; [left; now symmetry | right; now right].
    + intros [H|H]; [right; now left|].
      destruct (IH H) as [E|E]; [now left | right; now right].
Qed.

(** The beliefs an import enters have a positive sigma. *)
Lemma load_entries_positive (e : Env) (entries : list team_entry)
  (s : store) :
  positive_sigmas s ->
  positive_sigmas (fst (load_entries float_of_str e s entries)).
Proof.
  revert s. induction entries as [|entry rest IH]; intros s H; [exact H|].
  destruct (malformed_entry entry) eqn:M.
  - rewrite load_entries_skip by exact M. now apply IH.
  - destruct (load_entries_step e s entry rest M)
      as (k & mu & sigma & _ & Hk & _ & _ & ->).
    destruct (py_float float_of_str mu) as [m|]; [|exact H].
    destruct (py_float float_of_str sigma) as [sg|]; [|exact H].
    destruct (rating_raises sg) eqn:R; [exact H|].
    apply IH. intros q r Hq. apply In_store_set in Hq.
    destruct Hq as [E|Hq]; [|now apply (H q)].
    inversion E; subst. cbn [r_sigma]. now apply rating_raises_nonzero.
Qed.

(** Whatever the snapshot holds and whether or not the import goes through,
    the table it leaves has canonical keys, pairwise distinct and none
    blank, so one entry per team; it holds at most as many teams as the
    snapshot has entries, and the number reported is the size of the
    table. *)
Theorem import_leaves_one_entry_per_team (st : State) (p : payload)
  (flag : bool) :
  let st' := fst (_apply_json_to_memory float_of_str st p flag) in
  snapshot_table (TEAM_RATINGS st')
  /\ canonical_unique (TEAM_RATINGS st')
  /\ (List.length (TEAM_RATINGS st') <= List.length (teams p))%nat
  /\ (forall n,
        snd (_apply_json_to_memory float_of_str st p flag) = Done n ->
        n = List.length (TEAM_RATINGS st')).
Proof.
  cbv zeta. unfold _apply_json_to_memory.
  set (e := if flag then _ else _).
  assert (S0 : snapshot_table []).
  { repeat split; [intros k [] | constructor | intros []]. }
  destruct (load_entries_snapshot_table e (teams p) [] S0) as [G L].
  destruct (load_entries float_of_str e [] (teams p)) as [s []];
    cbn [fst snd TEAM_RATINGS] in *;
    (split; [exact G|]);
    (split; [apply canonical_is_unique, G|]);
    (split; [exact L|]); intros n H; now inversion H.
Qed.

Lemma env_from_json_idem (e : Env) (m : meta_env) :
  env_from_json float_of_str (env_from_json float_of_str e m) m
  = env_from_json float_of_str e m.
Proof.
  destruct m as [[a|] [b|] [c|] [d|] [f|]]; unfold env_from_json, env_field;
    cbn [j_mu j_sigma j_beta j_tau j_draw_probability];
    repeat match goal with
           | |- context [py_float float_of_str ?v] =>
               destruct (py_float float_of_str v)
           end;
    destruct e; reflexivity.
Qed.

(** Importing the same snapshot a second time changes nothing. *)
Theorem import_twice_is_import_once (st : State) (p : payload) (flag : bool) :
  _apply_json_to_memory float_of_str
    (fst (_apply_json_to_memory float_of_str st p flag)) p flag
  = _apply_json_to_memory float_of_str st p flag.
Proof.
  unfold _apply_json_to_memory. destruct flag.
  - destruct (load_entries float_of_str
                (env_from_json float_of_str (env st) (meta_env_of p)) []
                (teams p)) as [s b] eqn:L.
    destruct b; cbn [fst env LAST_EVENT_KEY LAST_YEAR];
      rewrite env_from_json_idem, L; reflexivity.
  - destruct (load_entries float_of_str (env st) [] (teams p))
      as [s b] eqn:L.
    destruct b; cbn [fst env LAST_EVENT_KEY LAST_YEAR]; rewrite L;
      reflexivity.
Qed.

(** When [float] rejects the mu or sigma of an entry, the import stops
    there: the table holds the entries read before it, the environment has
    already been replaced, the session context is the old one, and
    [load_data] answers 500. *)
Theorem import_stops_at_unreadable_entry (st : State) (p : payload)
  (flag : bool) (before after : list team_entry) (bad : team_entry)
  (s1 : store) :
  teams p = before ++ bad :: after ->
  unreadable_entry float_of_str bad = true ->
  let e := if flag then env_from_json float_of_str (env st) (meta_env_of p)
           else env st in
  load_entries float_of_str e [] before = (s1, true) ->
  _apply_json_to_memory float_of_str st p flag
  = (mkState e s1 (LAST_EVENT_KEY st) (LAST_YEAR st), Raised)
  /\ load_data_from_json float_of_str st
       (mkLoadBody (Some (JBool flag))) (File p)
     = (mkState e s1 (LAST_EVENT_KEY st) (LAST_YEAR st), R500).
Proof.
  intros Ht Hbad e Hl.
  assert (A : _apply_json_to_memory float_of_str st p flag
              = (mkState e s1 (LAST_EVENT_KEY st) (LAST_YEAR st), Raised)).
  { unfold _apply_json_to_memory. fold e. rewrite Ht, load_entries_app, Hl.
    unfold unreadable_entry in Hbad. apply andb_true_iff in Hbad.
    destruct Hbad as [M U]. apply negb_true_iff in M.
    destruct (load_entries_step e s1 bad after M)
      as (k & mu & sigma & _ & _ & Em & Es & ->).
    rewrite Em, Es in U.
    destruct (py_float float_of_str mu); [|reflexivity].
    destruct (py_float float_of_str sigma); [discriminate U | reflexivity]. }
  split; [exact A|].
  unfold load_data_from_json. cbn [use_env_from_json_field py_bool].
  now rewrite A.
Qed.

(** An entry for a team already read, with a sigma other than zero,
    replaces what was read: the later entry of a snapshot wins, and the
    belief entered has the entry's mu and the absolute value of its sigma.
    At a sigma of zero the rating cannot be built and the import stops with
    the table as it was. *)
Theorem import_later_entry_wins (e : Env) (before : list team_entry)
  (entry : team_entry) (s1 : store) (k : string) (m sg : Q) :
  load_entries float_of_str e [] before = (s1, true) ->
  e_team_key entry = Some (Some k) -> canon k <> "" ->
  e_mu entry = Some (JNum m) -> e_sigma entry = Some (JNum sg) ->
  (sg == 0 ->
   load_entries float_of_str e [] (before ++ [entry]) = (s1, false))
  /\ (~ sg == 0 ->
      exists s2,
        load_entries float_of_str e [] (before ++ [entry]) = (s2, true)
        /\ store_get (canon k) s2 = Some (mkRating m (Qabs sg))
        /\ 0 < Qabs sg
        /\ (forall q, q <> canon k -> store_get q s2 = store_get q s1)).
Proof.
  intros Hl Hk Hne Hm Hs.
  assert (T : str_truthy (canon k) = true)
    by (destruct (canon k); [congruence | reflexivity]).
  assert (L : load_entries float_of_str e [] (before ++ [entry])
              = if rating_raises sg then (s1, false)
                else (store_set (canon k) (mkRating m (Qabs sg)) s1, true)).
  { rewrite load_entries_app, Hl. cbn [load_entries].
    rewrite Hk, Hm, Hs. cbn [is_none py_float orb].
    rewrite T. cbn [negb orb create_rating].
    destruct (rating_raises sg); reflexivity. }
  split.
  - intros Z. rewrite L. unfold rating_raises.
    apply Qeq_bool_iff in Z. now rewrite Z.
  - intros NZ.
    assert (R : rating_raises sg = false).
    { unfold rating_raises. destruct (Qeq_bool sg 0) eqn:E; [|reflexivity].
      apply Qeq_bool_iff in E. contradiction. }
    exists (store_set (canon k) (mkRating m (Qabs sg)) s1).
    rewrite L, R.
    split; [reflexivity|]. split; [apply store_get_set_same|].
    split; [now apply rating_raises_nonzero|].
    intros q Hq. apply store_get_set_other. congruence.
Qed.

End ImportMore.

Lemma import_stops_at_unreadable_entry_witness :
  teams broken_snapshot
  = [mkEntry (Some (Some "frc1")) (Some (JNum 27)) (Some (JNum 7)) None None]
    ++ mkEntry (Some (Some "frc2")) (Some (JStr "n/a")) (Some (JNum 7))
         None None
    :: [mkEntry (Some (Some "frc3")) (Some (JNum 20)) (Some (JNum 8))
          None None]
  /\ load_data_from_json demo_float earlier_state
       (mkLoadBody (Some (JBool true))) (File broken_snapshot)
     = (mkState env0 [("frc1", mkRating 27 7)] (Some "2024nyrr") None, R500).
Proof.
  split; [reflexivity|].
  exact (proj2 (import_stops_at_unreadable_entry demo_float earlier_state
                  broken_snapshot true
                  [mkEntry (Some (Some "frc1")) (Some (JNum 27))
                     (Some (JNum 7)) None None]
                  [mkEntry (Some (Some "frc3")) (Some (JNum 20))
                     (Some (JNum 8)) None None]
                  (mkEntry (Some (Some "frc2")) (Some (JStr "n/a"))
                     (Some (JNum 7)) None None)
                  [("frc1", mkRating 27 7)] eq_refl eq_refl eq_refl)).
Defined.

Lemma import_later_entry_wins_witness :
  exists s2,
    load_entries demo_float env0 [] (teams doubled_snapshot) = (s2, true)
    /\ canon " FRC1" = "frc1"
    /\ store_get "frc1" s2 = Some (mkRating 30 5)
    /\ keys s2 = ["frc1"].
Proof.
  destruct (import_later_entry_wins demo_float env0
              [mkEntry (Some (Some "frc1")) (Some (JNum 27)) (Some (JNum 7))
                 None None]
              (mkEntry (Some (Some " FRC1")) (Some (JNum 30)) (Some (JNum 5))
                 None None)
              [("frc1", mkRating 27 7)] " FRC1" 30 5
              eq_refl eq_refl)
    as [_ W]; [discriminate | reflexivity | reflexivity |].
  destruct W as (s2 & L & G & _); [intros H; discriminate H|].
  exists s2. split; [exact L|]. split; [reflexivity|].
  split; [exact G|].
  cbn in L. inversion L. reflexivity.
Defined.

(** ** Saving and loading *)

Section SaveAndLoad.

Variable round2 : Q -> Q.
Variable float_of_str : string -> option Q.

(** Loading what was saved from a snapshot table, with the environment of
    the file. *)
Lemma apply_saved_table (st st0 : State) :
  snapshot_table (TEAM_RATINGS st) ->
  positive_sigmas (TEAM_RATINGS st) ->
  _apply_json_to_memory float_of_str st0 (_save_trueskill_json round2 st) true
  = (mkState (env st) (py_sorted String.leb fst (TEAM_RATINGS st))
       (LAST_EVENT_KEY st) (LAST_YEAR st),
     Done (List.length (TEAM_RATINGS st))).
Proof.
  intros (Hc & Hnd & Hb) Hp.
  set (sorted := py_sorted String.leb fst (TEAM_RATINGS st)).
  assert (Hperm : Permutation sorted (TEAM_RATINGS st))
    by apply py_sorted_perm.
  assert (Hkeys : Permutation (keys sorted) (keys (TEAM_RATINGS st)))
    by (unfold keys; now apply Permutation_map).
  unfold _save_trueskill_json, _apply_json_to_memory.
  assert (He : env_from_json float_of_str (env st0)
                 (meta_env_of (_build_export_payload round2 st)) = env st).
  { destruct st as [e s ek y]. cbn [env]. destruct e. reflexivity. }
  rewrite He. unfold _build_export_payload at 1. cbn [teams]. fold sorted.
  rewrite (load_entries_exported round2 float_of_str (env st) (env st)
             sorted []).
  - rewrite fold_store_set_fresh.
    + cbn [app _build_export_payload ctx_event_key ctx_year].
      rewrite (Permutation_length Hperm). reflexivity.
    + cbn [app]. eapply Permutation_NoDup;
        [apply Permutation_sym, Hkeys | exact Hnd].
  - intros k Hk. apply Hc. eapply Permutation_in; [exact Hkeys | exact Hk].
  - intros H. apply Hb. eapply Permutation_in; [exact Hkeys | exact H].
  - intros k r H. apply (Hp k). eapply Permutation_in; [exact Hperm | exact H].
Qed.

(** The file that [recalculate] writes after reloading from a snapshot
    loads back, into any state, to the state [recalculate] left: the same
    environment and session context and a table that answers every lookup
    alike. *)
Theorem recalculated_file_loads_back (st st0 st1 : State) (p : payload)
  (f' : file) (n : nat) :
  recalculate_values round2 float_of_str st true (File p) = (st1, f', R200 n) ->
  n = List.length (teams p)
  /\ f' = File (_save_trueskill_json round2 st1)
  /\ exists st2,
       load_data_from_json float_of_str st0 (mkLoadBody None) f'
       = (st2, R200 (true, List.length (TEAM_RATINGS st1)))
       /\ env st2 = env st1 /\ context st2 = context st1
       /\ same_table (TEAM_RATINGS st2) (TEAM_RATINGS st1).
Proof.
  unfold recalculate_values. intros H.
  assert (S0 : snapshot_table []).
  { repeat split; [intros k [] | constructor | intros []]. }
  pose proof (load_entries_snapshot_table float_of_str (env st) (teams p) []
                S0) as [G _].
  assert (P0 : positive_sigmas []) by (intros k r []).
  pose proof (load_entries_positive float_of_str (env st) (teams p) [] P0)
    as Hp.
  unfold _apply_json_to_memory in H.
  destruct (load_entries float_of_str (env st) [] (teams p)) as [s b].
  destruct b; [|discriminate H]. inversion H; subst. clear H.
  cbn [fst] in G, Hp.
  split; [reflexivity|]. split; [reflexivity|].
  set (st1 := mkState (env st) s (ctx_event_key p) (ctx_year p)).
  exists (mkState (env st1) (py_sorted String.leb fst (TEAM_RATINGS st1))
            (LAST_EVENT_KEY st1) (LAST_YEAR st1)).
  split.
  - unfold load_data_from_json. cbn [use_env_from_json_field].
    rewrite (apply_saved_table st1 st0 G Hp). reflexivity.
  - split; [reflexivity|]. split; [reflexivity|].
    cbn [TEAM_RATINGS]. apply same_table_perm.
    + apply py_sorted_perm.
    + destruct G as (_ & Hnd & _). unfold keys in *.
      eapply Permutation_NoDup; [|exact Hnd].
      apply Permutation_map, Permutation_sym, py_sorted_perm.
Qed.

End SaveAndLoad.

Lemma recalculated_file_loads_back_witness :
  exists st1 f',
    recalculate_values demo_round2 demo_float earlier_state true
      (File doubled_snapshot)
    = (st1, f', R200 2%nat)
    /\ exists st2,
         load_data_from_json demo_float init_state (mkLoadBody None) f'
         = (st2, R200 (true, 1%nat))
         /\ same_table (TEAM_RATINGS st2) (TEAM_RATINGS st1).
Proof.
  eexists _, _. split; [reflexivity|].
  destruct (recalculated_file_loads_back demo_round2 demo_float earlier_state
              init_state _ doubled_snapshot _ 2%nat eq_refl)
    as (_ & _ & st2 & L & _ & _ & T).
  exists st2. split; [exact L | exact T].
Defined.

(** ** The leaderboard *)

Section LeaderboardFacts.

Variable round2 : Q -> Q.

(** The leaderboard lists every team of the table exactly once, with the
    count of teams, in descending order of mu - 3 sigma; teams with equal
    scores keep the order of the table. *)
Theorem leaderboard_ranks_every_team (st : State) :
  let entries :=
    List.map (fun kv => _serialize_team_entry round2 (env st)
                          (fst kv) (snd kv)) (TEAM_RATINGS st) in
  let board := fst (get_leaderboard round2 st) in
  Permutation board entries
  /\ snd (get_leaderboard round2 st) = List.length (TEAM_RATINGS st)
  /\ StronglySorted (fun a b => leaderboard_key b <= leaderboard_key a) board
  /\ (forall q,
        filter (fun entry => Qeq_bool (leaderboard_key entry) q) board
        = filter (fun entry => Qeq_bool (leaderboard_key entry) q) entries)
  /\ (forall k r,
        leaderboard_key (_serialize_team_entry round2 (env st) k r)
        = r_mu r - 3 * r_sigma r).
Proof.
  cbv zeta.
  set (entries := List.map _ (TEAM_RATINGS st)).
  set (rev_leb := fun a b : Q => Qle_bool b a).
  assert (B : fst (get_leaderboard round2 st)
              = py_sorted rev_leb leaderboard_key entries
              /\ snd (get_leaderboard round2 st)
                 = List.length (py_sorted rev_leb leaderboard_key entries)).
  { unfold get_leaderboard. subst entries.
    destruct (TEAM_RATINGS st); [split; reflexivity|]. split; reflexivity. }
  destruct B as [-> ->].
  assert (P : Permutation (py_sorted rev_leb leaderboard_key entries) entries)
    by apply py_sorted_perm.
  split; [exact P|].
  split.
  { rewrite (Permutation_length P). subst entries. apply length_map. }
  split.
  { assert (S : StronglySorted
                  (fun a b => rev_leb (leaderboard_key a) (leaderboard_key b)
                              = true)
                  (py_sorted rev_leb leaderboard_key entries)).
    { apply py_sorted_sorted; subst rev_leb; cbv beta.
      - intros a b. destruct (Qlt_le_dec a b) as [H|H].
        + right. apply Qle_bool_iff. now apply Qlt_le_weak.
        + left. now apply Qle_bool_iff.
      - intros a b c H1 H2. apply Qle_bool_iff in H1, H2.
        apply Qle_bool_iff. eapply Qle_trans; eassumption. }
    clear P. induction S as [|x l Hs IH Hall]; constructor; [exact IH|].
    eapply Forall_impl; [|exact Hall].
    intros a Ha. now apply Qle_bool_iff. }
  split.
  { intros q. apply py_sorted_stable. intros a b Ha Hb. subst rev_leb.
    apply Qeq_bool_iff in Ha, Hb. apply Qle_bool_iff.
    rewrite Ha, Hb. apply Qle_refl. }
  reflexivity.
Qed.

End LeaderboardFacts.

(** ** The confidence metric, further *)

Lemma square_monotone (a b : Q) : 0 <= a -> a <= b -> a ^ 2 <= b ^ 2.
Proof.
  intros Ha Hab.
  change (a ^ 2) with (a * a). change (b ^ 2) with (b * b).
  apply Qle_trans with (a * b).
  - rewrite (Qmult_comm a b).
    apply Qmult_le_compat_r; assumption.
  - apply Qmult_le_compat_r; [exact Hab|].
    eapply Qle_trans; eassumption.
Qed.

(** Confidence never decreases when the deviation shrinks: for
    0 <= sigma1 <= sigma2 the confidence at sigma1 is at least that at
    sigma2.  With a positive prior deviation it is 100 at sigma = 0 and 0 as
    soon as sigma reaches the prior deviation. *)
Theorem confidence_grows_as_sigma_shrinks (e : Env) (sigma1 sigma2 : Q) :
  0 <= sigma1 -> sigma1 <= sigma2 ->
  team_confidence_from_sigma sigma2 e <= team_confidence_from_sigma sigma1 e
  /\ (0 < env_sigma e ->
      team_confidence_from_sigma 0 e == 100
      /\ (env_sigma e <= sigma2 -> team_confidence_from_sigma sigma2 e == 0)).
Proof.
  intros H1 H12. unfold team_confidence_from_sigma.
  destruct (Qle_bool (env_sigma e) 0) eqn:E.
  - split; [apply Qle_refl|]. intros Hpos.
    apply Qle_bool_iff in E. lra.
  - assert (Hpos : 0 < env_sigma e).
    { apply Qnot_le_lt. intro H. apply Qle_bool_iff in H. congruence. }
    assert (Hinv : 0 <= / env_sigma e)
      by (apply Qlt_le_weak, Qinv_lt_0_compat; exact Hpos).
    assert (Hq : forall s, 0 <= s -> 0 <= s / env_sigma e).
    { intros s Hs. unfold Qdiv. now apply Qmult_le_0_compat. }
    split.
    + assert (D : sigma1 / env_sigma e <= sigma2 / env_sigma e)
        by (unfold Qdiv; apply Qmult_le_compat_r; assumption).
      pose proof (square_monotone _ _ (Hq sigma1 H1) D) as Sq.
      apply Qmult_le_l; [reflexivity|].
      apply Q.max_le_compat_l, Q.min_le_compat_l. lra.
    + intros _. split.
      * assert (Z0 : (0 / env_sigma e) ^ 2 == 0).
        { unfold Qdiv. rewrite Qmult_0_l. reflexivity. }
        rewrite Z0. reflexivity.
      * intros Hge.
        assert (D : 1 <= sigma2 / env_sigma e).
        { apply Qle_shift_div_l; [exact Hpos | lra]. }
        pose proof (square_monotone 1 _ ltac:(lra) D) as Sq.
        change (1 ^ 2) with 1 in Sq.
        rewrite (Q.min_r 1) by lra.
        rewrite Q.max_l by lra. reflexivity.
Qed.

Lemma confidence_grows_as_sigma_shrinks_witness :
  0 <= 2 /\ 2 <= 5
  /\ team_confidence_from_sigma 5 env0 <= team_confidence_from_sigma 2 env0
  /\ team_confidence_from_sigma 0 env0 == 100
  /\ team_confidence_from_sigma 9 env0 == 0.
Proof.
  assert (H1 : 0 <= 2) by discriminate.
  assert (H2 : 2 <= 5) by discriminate.
  split; [exact H1|]. split; [exact H2|].
  split; [exact (proj1 (confidence_grows_as_sigma_shrinks env0 2 5 H1 H2))|].
  assert (H3 : 0 <= 9) by discriminate.
  assert (H4 : 9 <= 9) by discriminate.
  destruct (confidence_grows_as_sigma_shrinks env0 9 9 H3 H4) as [_ H].
  destruct (H ltac:(reflexivity)) as [A B].
  split; [exact A | apply B; discriminate].
Defined.

(** ** The handlers of the season variant *)

Lemma keys_init_rating (s : store) (t k : string) :
  In k (keys (YearApi.init_rating_if_missing s t)) <-> k = t \/ In k (keys s).
Proof.
  unfold YearApi.init_rating_if_missing.
  destruct (store_get t s) eqn:E.
  - split; [auto|]. intros [->|H]; [|exact H].
    apply store_get_In. congruence.
  - apply keys_store_set.
Qed.

Lemma keys_init_teams (teams : list string) (s : store) (k : string) :
  In k (keys (fold_left YearApi.init_rating_if_missing teams s))
  <-> In k teams \/ In k (keys s).
Proof.
  revert s. induction teams as [|t ts IH]; intros s; cbn [fold_left].
  - cbn. tauto.
  - rewrite IH, keys_init_rating. cbn. intuition.
Qed.

Lemma keys_init_ratings (matches : list tba_match) (s : store) (k : string) :
  In k (keys (YearApi.init_ratings s matches))
  <-> In k (flat_map YearApi.teams_of matches) \/ In k (keys s).
Proof.
  unfold YearApi.init_ratings.
  revert s. induction matches as [|m rest IH]; intros s; cbn [fold_left flat_map].
  - cbn. tauto.
  - rewrite IH, keys_init_teams, in_app_iff. tauto.
Qed.

Lemma keys_setdefaults (teams : list string) (s : store) (k : string) :
  In k (keys (fst (YearVariant.setdefaults s teams)))
  <-> In k teams \/ In k (keys s).
Proof.
  revert s. induction teams as [|t ts IH]; intros s; cbn [YearVariant.setdefaults].
  - cbn. tauto.
  - assert (S : In k (keys (fst (YearVariant.setdefault s t)))
                <-> k = t \/ In k (keys s)).
    { unfold YearVariant.setdefault. destruct (store_get t s) eqn:E; cbn [fst].
      - split; [auto|]. intros [->|H]; [|exact H].
        apply store_get_In. congruence.
      - apply keys_store_set. }
    destruct (YearVariant.setdefault s t) as [s1 r]. cbn [fst] in S.
    specialize (IH s1).
    destruct (YearVariant.setdefaults s1 ts) as [s2 rs]. cbn [fst] in *.
    rewrite IH, S. cbn. intuition.
Qed.

Lemma keys_write_back_iff (teams : list string) (rs : list Rating) (s : store)
  (k : string) :
  (forall t, In t teams -> In t (keys s)) ->
  (In k (keys (write_back teams rs s)) <-> In k (keys s)).
Proof.
  revert rs s. induction teams as [|t ts IH]; intros [|r rs] s H;
    cbn [write_back]; try tauto.
  rewrite IH.
  - rewrite keys_store_set. split; [intros [->|Hk]; auto|auto].
    apply H. now left.
  - intros t' Ht'. apply keys_store_set. right. apply H. now right.
Qed.

Section YearHandlers.

Variable rate :
  list Rating -> list Rating -> list Z -> option (list Rating * list Rating).

Lemma keys_update_from_one_match (s : store) (teams_red teams_blue : list string)
  (score_red score_blue : option Z) (k : string) :
  In k (keys (fst (YearVariant.update_from_one_match rate s teams_red
                     teams_blue score_red score_blue))) ->
  In k (teams_red ++ teams_blue) \/ In k (keys s).
Proof.
  unfold YearVariant.update_from_one_match.
  destruct score_red as [sr|]; [|now right].
  destruct score_blue as [sb|]; [|now right].
  destruct (negb _); [now right|].
  pose proof (keys_setdefaults teams_red s) as K1.
  destruct (YearVariant.setdefaults s teams_red) as [s1 red]. cbn [fst] in K1.
  pose proof (keys_setdefaults teams_blue s1) as K2.
  destruct (YearVariant.setdefaults s1 teams_blue) as [s2 blu].
  cbn [fst] in K2.
  assert (G : In k (keys s2) -> In k (teams_red ++ teams_blue) \/ In k (keys s)).
  { intros H. apply K2 in H. rewrite in_app_iff.
    destruct H as [H|H]; [tauto|]. apply K1 in H. tauto. }
  destruct (rate red blu (ranks_of sr sb)) as [[n1 n2]|]; cbn [fst];
    [|exact G].
  intros H. apply G.
  apply keys_write_back_iff in H.
  - apply keys_write_back_iff in H; [exact H|].
    intros t Ht. apply K2. right. apply K1. now left.
  - intros t Ht. apply keys_write_back_iff.
    + intros t' Ht'. apply K2. right. apply K1. now left.
    + apply K2. now left.
Qed.

Lemma update_from_one_match_keeps_keys (s : store)
  (teams_red teams_blue : list string) (score_red score_blue : option Z)
  (k : string) :
  In k (keys s) ->
  In k (keys (fst (YearVariant.update_from_one_match rate s teams_red
                     teams_blue score_red score_blue))).
Proof.
  intros Hk. unfold YearVariant.update_from_one_match.
  destruct score_red as [sr|]; [|exact Hk].
  destruct score_blue as [sb|]; [|exact Hk].
  destruct (negb _); [exact Hk|].
  pose proof (keys_setdefaults teams_red s) as K1.
  destruct (YearVariant.setdefaults s teams_red) as [s1 red]. cbn [fst] in K1.
  pose proof (keys_setdefaults teams_blue s1) as K2.
  destruct (YearVariant.setdefaults s1 teams_blue) as [s2 blu].
  cbn [fst] in K2.
  assert (G : In k (keys s2)) by (apply K2; right; apply K1; now right).
  destruct (rate red blu (ranks_of sr sb)) as [[n1 n2]|]; cbn [fst];
    [|exact G].
  apply keys_write_back_iff.
  - intros t Ht. apply keys_write_back_iff.
    + intros t' Ht'. apply K2. right. apply K1. now left.
    + apply K2. now left.
  - apply keys_write_back_iff; [|exact G].
    intros t Ht. apply K2. right. apply K1. now left.
Qed.

Lemma keys_process (ms : list tba_match) (s : store) (k : string) :
  (In k (keys s) -> In k (keys (fst (YearVariant.process rate s ms))))
  /\ (In k (keys (fst (YearVariant.process rate s ms))) ->
      In k (flat_map YearApi.teams_of ms) \/ In k (keys s)).
Proof.
  revert s. induction ms as [|m rest IH]; intros s; cbn [YearVariant.process].
  - cbn. tauto.
  - pose proof (update_from_one_match_keeps_keys s
                  (team_keys (YearVariant.red_of m))
                  (team_keys (YearVariant.blue_of m))
                  (score (YearVariant.red_of m))
                  (score (YearVariant.blue_of m)) k) as Up.
    pose proof (keys_update_from_one_match s
                  (team_keys (YearVariant.red_of m))
                  (team_keys (YearVariant.blue_of m))
                  (score (YearVariant.red_of m))
                  (score (YearVariant.blue_of m)) k) as Down.
    destruct (YearVariant.update_from_one_match rate s _ _ _ _) as [s1 b].
    cbn [fst] in *. cbn [flat_map]. rewrite in_app_iff.
    fold (YearApi.teams_of m) in Down.
    destruct b; cbn [fst].
    + destruct (IH s1) as [I1 I2]. split; [auto|].
      intros H. apply I2 in H. tauto.
    + split; [auto|]. intros H. apply Down in H. tauto.
Qed.

(** After an event rebuild that goes through, the table holds exactly the
    team keys the fetched matches name, those of unplayed matches included
    (with the default rating until a played match updates them), and the
    count reported is their number. *)
Theorem year_rebuild_indexes_every_listed_team (P : provider) (s s' : store)
  (event_key : string) (matches : list tba_match)
  (r : nat * option (nat * nat)) :
  YearApi.tba_get_event_matches_simple P event_key = Some matches ->
  YearApi.update_rankings rate P s (Some (YearApi.EventMode event_key))
  = (s', R200 r) ->
  fst r = List.length s'
  /\ forall k, In k (keys s') <-> In k (flat_map YearApi.teams_of matches).
Proof.
  intros Hf H. unfold YearApi.update_rankings in H. rewrite Hf in H.
  destruct matches as [|m0 rest]; [discriminate H|].
  set (matches := m0 :: rest) in *.
  unfold YearVariant.process_in_order in H.
  pose proof (fun k => keys_process
                (YearVariant.sort_matches_for_processing matches)
                (YearApi.init_ratings [] matches) k) as K.
  destruct (YearVariant.process rate (YearApi.init_ratings [] matches)
              (YearVariant.sort_matches_for_processing matches))
    as [s1 b].
  destruct b;
    [|exfalso; revert H; unfold YearApi.raised_reply;
      destruct (YearApi.raising_match _ _ _) as [m|];
      [destruct (team_keys (YearVariant.red_of m)),
         (team_keys (YearVariant.blue_of m))|];
      discriminate].
  inversion H; subst. clear H.
  split; [reflexivity|].
  intros k. destruct (K k) as [K1 K2]. cbn [fst] in *.
  assert (Sorted_same : In k (flat_map YearApi.teams_of
                                (YearVariant.sort_matches_for_processing
                                   matches))
                        <-> In k (flat_map YearApi.teams_of matches)).
  { rewrite !in_flat_map. unfold YearVariant.sort_matches_for_processing.
    split; intros (m & Hm & Hk); exists m; (split; [|exact Hk]);
      now apply py_sorted_In in Hm || now apply py_sorted_In. }
  rewrite keys_init_ratings in K1, K2. rewrite Sorted_same in K2.
  split; [intros Hk; destruct (K2 Hk) as [H|[H|[]]]; exact H|].
  intros Hk. apply K1. now left.
Qed.

(** A rebuild of the season variant clears the table before it fetches: a
    fetch that fails (no key, no connection, a status other than 200, a body
    that is not a list) answers 500 and leaves the table empty, an event
    without matches 404 with an empty table, whatever the table held; only a
    request that fails validation leaves the table as it was. *)
Theorem year_rebuild_clears_before_fetching (P : provider) (s : store)
  (event_key : string) (year : Z) :
  (YearApi.tba_get_event_matches_simple P event_key = None ->
   YearApi.update_rankings rate P s (Some (YearApi.EventMode event_key))
   = ([], R500))
  /\ (YearApi.tba_get_event_matches_simple P event_key = Some [] ->
      YearApi.update_rankings rate P s (Some (YearApi.EventMode event_key))
      = ([], R404))
  /\ (YearApi.tba_get_events_for_year P year = None ->
      YearApi.update_rankings rate P s (Some (YearApi.YearMode year))
      = ([], R500))
  /\ (forall status b,
        event_matches P event_key = Http status b ->
        status <> 200%Z ->
        YearApi.tba_get_event_matches_simple P event_key = None)
  /\ (event_matches P event_key = ConnError ->
      YearApi.tba_get_event_matches_simple P event_key = None)
  /\ YearApi.update_rankings rate P s None = (s, R400).
Proof.
  unfold YearApi.update_rankings.
  split; [intros ->; reflexivity|].
  split; [intros ->; reflexivity|].
  split; [intros ->; reflexivity|].
  split.
  { intros status b E Hs.
    unfold YearApi.tba_get_event_matches_simple, YearApi.fetch_list.
    rewrite E. destruct (auth_key_set P); [|reflexivity].
    destruct b; try reflexivity.
    destruct (status =? 200)%Z eqn:E2; [lia | reflexivity]. }
  split; [|reflexivity].
  intros E. unfold YearApi.tba_get_event_matches_simple, YearApi.fetch_list.
  rewrite E. destruct (auth_key_set P); reflexivity.
Qed.

Lemma year_push_loop_count (payload : list push_record) (s s' : store)
  (k n : nat) :
  YearApi.push_loop rate s payload k = (s', Some n) ->
  n = (k + List.length (filter names_both_alliances payload))%nat.
Proof.
  revert s k. induction payload as [|item rest IH]; intros s k H.
  - cbn in H. inversion H. cbn. lia.
  - cbn [YearApi.push_loop filter] in *. unfold names_both_alliances at 1.
    destruct (p_teams1 item) as [[|t1 ts1]|]; cbn [or_nil list_truthy andb] in *;
      try (now apply IH in H).
    destruct (p_teams2 item) as [[|t2 ts2]|]; cbn [or_nil list_truthy andb] in *;
      try (now apply IH in H).
    destruct (YearVariant.update_from_one_match rate s _ _ _ _) as [s1 []];
      [|discriminate H].
    apply IH in H. cbn [List.length]. lia.
Qed.

(** The push of the season variant counts every record that names both
    alliances, also one whose scores are missing or negative, although such
    a record changes nothing in the table. *)
Theorem year_push_counts_unplayed_records (payload : list push_record)
  (s s' : store) (n : nat) :
  YearApi.push_results rate s payload = (s', Some n) ->
  n = List.length (filter names_both_alliances payload)
  /\ forall item,
       names_both_alliances item = true ->
       YearVariant.is_valid_score (p_score1 item)
       && YearVariant.is_valid_score (p_score2 item) = false ->
       YearApi.push_results rate s [item] = (s, Some 1%nat).
Proof.
  intros H. split.
  - unfold YearApi.push_results in H. apply year_push_loop_count in H.
    exact H.
  - intros item Hb Hv. unfold YearApi.push_results.
    cbn [YearApi.push_loop]. unfold names_both_alliances in Hb.
    destruct (p_teams1 item) as [[|t1 ts1]|]; try discriminate Hb.
    destruct (p_teams2 item) as [[|t2 ts2]|]; try discriminate Hb.
    cbn [or_nil]. unfold YearVariant.update_from_one_match.
    destruct (p_score1 item) as [s1|]; [|reflexivity].
    destruct (p_score2 item) as [s2|]; [|reflexivity].
    rewrite Hv. reflexivity.
Qed.

End YearHandlers.

(** The lookup of the season variant trims and lowercases the name it is
    given, the table is keyed by the names as pushed: a team is found only
    under a key that is already trimmed lowercase, and an entry stored under
    any other key is never returned, under no spelling of the name. *)
Theorem year_lookup_misses_noncanonical_keys (s : store) (team : string)
  (k : string) (v : Rating) :
  (forall key mu sigma,
     YearApi.predict_team s (Some team) = R200 (key, mu, sigma) ->
     key = canon team /\ canon key = key
     /\ store_get key s = Some (mkRating mu sigma))
  /\ (canon k <> k ->
      YearApi.predict_team (store_set k v s) (Some team)
      = YearApi.predict_team s (Some team)).
Proof.
  unfold YearApi.predict_team. split.
  - intros key mu sigma H.
    destruct (negb (str_truthy (canon team))); [discriminate H|].
    destruct (store_get (canon team) s) as [[m sg]|] eqn:E; [|discriminate H].
    inversion H; subst. cbn in *.
    split; [reflexivity|]. split; [apply canon_idem | exact E].
  - intros Hk. destruct (negb (str_truthy (canon team))); [reflexivity|].
    rewrite store_get_set_other; [reflexivity|].
    intros ->. apply Hk, canon_idem.
Qed.

Lemma year_rebuild_indexes_every_listed_team_witness :
  exists s',
    YearApi.update_rankings demo_rate_global event_provider
      [("old", mkRating 1 1)] (Some (YearApi.EventMode "2025a"))
    = (s', R200 (4%nat, None))
    /\ (forall k,
          In k (keys s')
          <-> In k (flat_map YearApi.teams_of one_played_one_not))
    /\ store_get "frc3" s' = Some (mkRating 25 (25 # 3)).
Proof.
  eexists. split; [reflexivity|].
  split; [|reflexivity].
  exact (proj2 (year_rebuild_indexes_every_listed_team demo_rate_global
                  event_provider [("old", mkRating 1 1)] _ "2025a"
                  one_played_one_not (4%nat, None) eq_refl eq_refl)).
Defined.

Lemma year_rebuild_clears_before_fetching_witness :
  YearApi.tba_get_event_matches_simple down_provider "2025a" = None
  /\ YearApi.update_rankings demo_rate_global down_provider
       [("old", mkRating 1 1)] (Some (YearApi.EventMode "2025a"))
     = ([], R500).
Proof.
  assert (H : YearApi.tba_get_event_matches_simple down_provider "2025a"
              = None) by reflexivity.
  split; [exact H|].
  exact (proj1 (year_rebuild_clears_before_fetching demo_rate_global
                  down_provider [("old", mkRating 1 1)] "2025a" 2025%Z) H).
Defined.

Lemma year_push_counts_unplayed_records_witness :
  YearApi.push_results demo_rate_global [("old", mkRating 1 1)]
    [unplayed_item]
  = ([("old", mkRating 1 1)], Some 1%nat)
  /\ 1%nat = List.length (filter names_both_alliances [unplayed_item]).
Proof.
  assert (H : YearApi.push_results demo_rate_global [("old", mkRating 1 1)]
                [unplayed_item]
              = ([("old", mkRating 1 1)], Some 1%nat)) by reflexivity.
  destruct (year_push_counts_unplayed_records demo_rate_global
              [unplayed_item] _ _ 1%nat H) as [C S].
  split; [|exact C].
  apply S; reflexivity.
Defined.

Lemma year_lookup_misses_noncanonical_keys_witness :
  canon "FRC1" <> "FRC1"
  /\ YearApi.predict_team (store_set "FRC1" (mkRating 30 5) []) (Some "FRC1")
     = R404.
Proof.
  assert (H : canon "FRC1" <> "FRC1") by discriminate.
  split; [exact H|].
  rewrite (proj2 (year_lookup_misses_noncanonical_keys [] "FRC1" "FRC1"
                    (mkRating 30 5)) H).
  reflexivity.
Defined.

(** ** Records the push skips *)

Section PushSkips.

Variable rate :
  Env -> list Rating -> list Rating -> list Z ->
  option (list Rating * list Rating).

(** A pushed record with a missing or empty alliance, or a missing score,
    leaves no trace: the batch gives the state and the count of the batch
    without such records. *)
Theorem push_skips_incomplete_records (st : State) (data : list push_record) :
  push_results rate st data
  = push_results rate st (filter (fun m => negb (push_skips m)) data)
  /\ (Forall (fun m => push_skips m = true) data ->
      push_results rate st data = (st, Done 0%nat)).
Proof.
  unfold push_results. split; [apply push_loop_filter|].
  intros H. rewrite push_loop_filter.
  replace (filter (fun m => negb (push_skips m)) data) with (@nil push_record);
    [reflexivity|].
  induction H as [|m rest Hm _ IH]; [reflexivity|].
  cbn [filter]. rewrite Hm. exact IH.
Qed.

End PushSkips.

Lemma push_skips_incomplete_records_witness :
  Forall (fun m => push_skips m = true)
    [mkPush (Some []) (Some ["frc2"]) (Some 1%Z) (Some 0%Z);
     mkPush (Some ["frc1"]) None (Some 1%Z) (Some 0%Z);
     mkPush (Some ["frc1"]) (Some ["frc2"]) None (Some 0%Z)]
  /\ push_results demo_rate earlier_state
       [mkPush (Some []) (Some ["frc2"]) (Some 1%Z) (Some 0%Z);
        mkPush (Some ["frc1"]) None (Some 1%Z) (Some 0%Z);
        mkPush (Some ["frc1"]) (Some ["frc2"]) None (Some 0%Z)]
     = (earlier_state, Done 0%nat).
Proof.
  assert (H : Forall (fun m => push_skips m = true)
                [mkPush (Some []) (Some ["frc2"]) (Some 1%Z) (Some 0%Z);
                 mkPush (Some ["frc1"]) None (Some 1%Z) (Some 0%Z);
                 mkPush (Some ["frc1"]) (Some ["frc2"]) None (Some 0%Z)])
    by (repeat constructor).
  split; [exact H|].
  exact (proj2 (push_skips_incomplete_records demo_rate earlier_state _) H).
Defined.

Lemma import_leaves_one_entry_per_team_witness :
  snd (_apply_json_to_memory demo_float earlier_state doubled_snapshot true)
  = Done 1%nat
  /\ 1%nat
     = List.length
         (TEAM_RATINGS
            (fst (_apply_json_to_memory demo_float earlier_state
                    doubled_snapshot true)))
  /\ List.length (teams doubled_snapshot) = 2%nat.
Proof.
  assert (H : snd (_apply_json_to_memory demo_float earlier_state
                     doubled_snapshot true) = Done 1%nat) by reflexivity.
  split; [exact H|]. split; [|reflexivity].
  destruct (import_leaves_one_entry_per_team demo_float earlier_state
              doubled_snapshot true) as (_ & _ & _ & C).
  exact (C 1%nat H).
Defined.

(** ** The season variant: what a raising [rate] is answered with *)


Section YearErrors.

Variable rate :
  list Rating -> list Rating -> list Z -> option (list Rating * list Rating).

(** The package raises exactly when a side has no rating. *)
Hypothesis rate_raises :
  forall r1 r2 s1 s2,
    rate r1 r2 (ranks_of s1 s2) = None <-> r1 = [] \/ r2 = [].





End YearErrors.


